(** * DePIN simulator: the on-chain accounting core

    A shallow embedding of the Solidity contracts of the repository

      - [contracts/NodeRegistry.sol] and [contracts/Participation.sol]
        (module [Participation]; the latter contract inherits the former),
      - [contracts/NodeRightsNFT.sol] (module [NodeRightsNFT]),

    put together in module [Core], and followed by the properties of the
    design document that concern them.

    Conventions.  A [uint256] and an [address] are integers ([Z]); Solidity
    0.8 arithmetic is checked, so [+], [-], [*] and [/] are the monadic
    [checked_add], [checked_sub], [checked_mul] and [checked_div], which
    abort the call with a [Panic].  A contract function is a computation in
    the monad [M]: it threads the contract storage and the event log, and a
    failed [require] (or a panic) discards both, as the EVM does when a
    call reverts.  Calls are modelled one at a time (the [nonReentrant]
    guard of the minting and upgrade functions only rejects nested calls),
    and the value of a call is read by the [payable] functions alone: the
    other functions are called with no value attached. *)

From Stdlib Require Import ZArith List String Lia QArith.
From stdpp Require Import base option list gmap.
Import ListNotations.

Open Scope Z_scope.

(** ** Machine integers and the call context *)

Definition address : Type := Z.

Definition MAX_UINT256 : Z := 2 ^ 256 - 1.

(** [msg.sender], [msg.value], [block.timestamp]; [onReceived_ok] is the
    answer of the ERC-721 receiver hook of the recipient, for the calls that
    reach one (always [true] for an externally owned account). *)
Record Call : Type := mkCall {
  msg_sender : address;
  msg_value : Z;
  block_timestamp : Z;
  onReceived_ok : bool
}.

(** ** Reverting computations *)

Inductive Failure : Type :=
| Revert (reason : string)       (* require(cond, reason) failed *)
| Panic (code : Z)               (* 0x11 overflow/underflow, 0x12 division by zero *)
| CustomError (name : string).   (* custom errors of the imported base contracts *)

Inductive Outcome (E S A : Type) : Type :=
| Ok (a : A) (s : S) (log : list E)
| Err (f : Failure).

Arguments Ok {E S A} a s log.
Arguments Err {E S A} f.

Definition M (E S A : Type) : Type := S -> list E -> Outcome E S A.

Section Monad.
Context {E S : Type}.

Definition ret {A} (a : A) : M E S A := fun s l => Ok a s l.

Definition bind {A B} (m : M E S A) (k : A -> M E S B) : M E S B :=
  fun s l => match m s l with
             | Ok a s' l' => k a s' l'
             | Err f => Err f
             end.

Definition fail {A} (f : Failure) : M E S A := fun _ _ => Err f.

Definition require (c : bool) (reason : string) : M E S unit :=
  if c then ret tt else fail (Revert reason).

Definition gets {A} (f : S -> A) : M E S A := fun s l => Ok (f s) s l.

Definition modify (f : S -> S) : M E S unit := fun s l => Ok tt (f s) l.

Definition emit (e : E) : M E S unit := fun s l => Ok tt s (l ++ [e]).

Definition checked_add (a b : Z) : M E S Z :=
  if a + b <=? MAX_UINT256 then ret (a + b) else fail (Panic 17).

Definition checked_sub (a b : Z) : M E S Z :=
  if b <=? a then ret (a - b) else fail (Panic 17).

Definition checked_mul (a b : Z) : M E S Z :=
  if a * b <=? MAX_UINT256 then ret (a * b) else fail (Panic 17).

Definition checked_div (a b : Z) : M E S Z :=
  if b =? 0 then fail (Panic 18) else ret (a / b).

(** A call as a transaction: the storage and the events it leaves behind.
    A reverted call leaves the storage as it was and logs nothing. *)
Definition transact {A} (m : M E S A) (s : S) : S * list E :=
  match m s [] with
  | Ok _ s' l => (s', l)
  | Err _ => (s, [])
  end.

End Monad.

Notation "x <- m ;; k" := (bind m (fun x => k))
  (at level 100, m at next level, k at level 200, right associativity).
Notation "m ;; k" := (bind m (fun _ => k))
  (at level 100, k at level 200, right associativity).

(** ** contracts/NodeRegistry.sol and contracts/Participation.sol *)

Module Participation.

(** [struct Node] of NodeRegistry. *)
Record Node : Type := mkNode {
  owner : address;
  metadata : string;
  registeredAt : Z
}.

Record Stats : Type := mkStats {
  uptime : Z;
  lastUpdate : Z;
  earned : Z
}.

Inductive Event : Type :=
| NodeRegistered (nodeId : Z) (owner : address) (timestamp : Z)
| UptimeRecorded (nodeId : Z) (minutesUp : Z) (timestamp : Z)
| RewardClaimed (nodeId : Z) (owner : address) (amount : Z) (timestamp : Z)
| StakeUpdated (nodeId : Z) (staker : address) (amount : Z) (timestamp : Z).

(** Storage of the deployed contract: [nodes] and [nextId] are inherited
    from NodeRegistry. *)
Record State : Type := mkState {
  nodes : gmap Z Node;
  nextId : Z;
  stats : gmap Z Stats;
  nodeStakes : gmap Z Z
}.

Definition initial : State :=
  {| nodes := ∅; nextId := 0; stats := ∅; nodeStakes := ∅ |}.

(** Reading a mapping at a key never written yields the zero value. *)
Definition nodes_at (st : State) (nodeId : Z) : Node :=
  default (mkNode 0 EmptyString 0) (nodes st !! nodeId).

Definition stats_at (st : State) (nodeId : Z) : Stats :=
  default (mkStats 0 0 0) (stats st !! nodeId).

Definition nodeStakes_at (st : State) (nodeId : Z) : Z :=
  default 0 (nodeStakes st !! nodeId).

Definition set_node (nodeId : Z) (n : Node) (st : State) : State :=
  {| nodes := <[nodeId := n]> (nodes st); nextId := nextId st;
     stats := stats st; nodeStakes := nodeStakes st |}.

Definition set_nextId (v : Z) (st : State) : State :=
  {| nodes := nodes st; nextId := v;
     stats := stats st; nodeStakes := nodeStakes st |}.

Definition set_stats (nodeId : Z) (s : Stats) (st : State) : State :=
  {| nodes := nodes st; nextId := nextId st;
     stats := <[nodeId := s]> (stats st); nodeStakes := nodeStakes st |}.

Definition set_nodeStakes (nodeId : Z) (v : Z) (st : State) : State :=
  {| nodes := nodes st; nextId := nextId st;
     stats := stats st; nodeStakes := <[nodeId := v]> (nodeStakes st) |}.

Definition set_uptime (v : Z) (s : Stats) : Stats :=
  {| uptime := v; lastUpdate := lastUpdate s; earned := earned s |}.
Definition set_lastUpdate (v : Z) (s : Stats) : Stats :=
  {| uptime := uptime s; lastUpdate := v; earned := earned s |}.
Definition set_earned (v : Z) (s : Stats) : Stats :=
  {| uptime := uptime s; lastUpdate := lastUpdate s; earned := v |}.

Definition update_stats (nodeId : Z) (f : Stats -> Stats) : M Event State unit :=
  modify (fun st => set_stats nodeId (f (stats_at st nodeId)) st).

Definition registerNode (c : Call) (metadata : string) : M Event State unit :=
  id <- gets nextId ;;
  modify (set_node id (mkNode (msg_sender c) metadata (block_timestamp c))) ;;
  emit (NodeRegistered id (msg_sender c) (block_timestamp c)) ;;
  next <- checked_add id 1 ;;
  modify (set_nextId next).

Definition recordUptime (c : Call) (nodeId minutesUp : Z) : M Event State unit :=
  s <- gets (fun st => stats_at st nodeId) ;;
  u <- checked_add (uptime s) minutesUp ;;
  update_stats nodeId (set_uptime u) ;;
  update_stats nodeId (set_lastUpdate (block_timestamp c)) ;;
  s <- gets (fun st => stats_at st nodeId) ;;
  e <- checked_add (earned s) minutesUp ;;
  update_stats nodeId (set_earned e) ;;
  emit (UptimeRecorded nodeId minutesUp (block_timestamp c)).

Definition claimReward (c : Call) (nodeId : Z) : M Event State unit :=
  n <- gets (fun st => nodes_at st nodeId) ;;
  require (owner n =? msg_sender c) "Not owner" ;;
  amount <- gets (fun st => earned (stats_at st nodeId)) ;;
  update_stats nodeId (set_earned 0) ;;
  emit (RewardClaimed nodeId (msg_sender c) amount (block_timestamp c)).

Definition stakeToNode (c : Call) (nodeId : Z) : M Event State unit :=
  require (0 <? msg_value c) "Send funds" ;;
  old <- gets (fun st => nodeStakes_at st nodeId) ;;
  v <- checked_add old (msg_value c) ;;
  modify (set_nodeStakes nodeId v) ;;
  emit (StakeUpdated nodeId (msg_sender c) (msg_value c) (block_timestamp c)).

(** *** Scenarios of the test suite

    Calls by three accounts, none attaching value but [carol]'s, and the
    storage of test "should claim rewards and reset earned" before the
    claim: node 0 registered by [alice], 15 minutes of uptime recorded. *)

Definition alice : Call := mkCall 1001 0 1700000000 true.

Definition bob : Call := mkCall 1002 0 1700000060 true.

Definition carol : Call := mkCall 1003 5 1700000120 true.

Definition st_nodeA : State :=
  fst (transact (recordUptime alice 0 15)
         (fst (transact (registerNode alice "Node A") initial))).

(** The calls of test "should generate all events for subgraph testing", in
    their order, by the accounts [owner] = 1000, [addr1] = 1001 and
    [addr2] = 1002. *)
Definition then_ (m : M Event State unit) (st : State) : State := fst (transact m st).

Definition st_subgraph : State :=
  let owner v := mkCall 1000 v 1700000000 true in
  let addr1 v := mkCall 1001 v 1700000000 true in
  let addr2 v := mkCall 1002 v 1700000000 true in
  then_ (stakeToNode (addr2 (10 ^ 18)) 0)
  (then_ (claimReward (addr2 0) 1)
  (then_ (claimReward (addr1 0) 0)
  (then_ (recordUptime (addr2 0) 1 45)
  (then_ (recordUptime (addr1 0) 0 60)
  (then_ (stakeToNode (addr2 (32 * 10 ^ 17)) 2)
  (then_ (stakeToNode (addr1 (18 * 10 ^ 17)) 1)
  (then_ (stakeToNode (owner (25 * 10 ^ 17)) 0)
  (then_ (recordUptime (owner 0) 2 180)
  (then_ (recordUptime (addr2 0) 1 90)
  (then_ (recordUptime (addr1 0) 0 120)
  (then_ (registerNode (owner 0) "DePIN Node Gamma")
  (then_ (registerNode (addr2 0) "DePIN Node Beta")
  (then_ (registerNode (addr1 0) "DePIN Node Alpha") initial))))))))))))).

End Participation.

(** ** contracts/NodeRightsNFT.sol *)

Module NodeRightsNFT.

Inductive NodeType : Type := STORAGE | COMPUTE | BANDWIDTH.

Inductive NodeStatus : Type := ACTIVE | SLASHED_MINOR | SLASHED_MAJOR | TERMINATED.

Definition NodeStatus_eqb (a b : NodeStatus) : bool :=
  match a, b with
  | ACTIVE, ACTIVE | SLASHED_MINOR, SLASHED_MINOR
  | SLASHED_MAJOR, SLASHED_MAJOR | TERMINATED, TERMINATED => true
  | _, _ => false
  end.

Record NodeRights : Type := mkNodeRights {
  nodeType : NodeType;
  stakedETH : Z;
  stakedDPN : Z;
  mintedAt : Z;
  lastRewardClaim : Z;
  status : NodeStatus;
  totalUptime : Z;
  performanceScore : Z;
  metadata : string;
  isUpgraded : bool
}.

Record NodeTypeConfig : Type := mkNodeTypeConfig {
  minETHStake : Z;
  minDPNStake : Z;
  baseRewardRate : Z;
  maxCapacity : Z;
  isActive : bool
}.

(** [mapping(NodeType => NodeTypeConfig)]: one slot per enumeration value. *)
Record Configs : Type := mkConfigs {
  cfgSTORAGE : NodeTypeConfig;
  cfgCOMPUTE : NodeTypeConfig;
  cfgBANDWIDTH : NodeTypeConfig
}.

Definition config_at (cs : Configs) (t : NodeType) : NodeTypeConfig :=
  match t with
  | STORAGE => cfgSTORAGE cs
  | COMPUTE => cfgCOMPUTE cs
  | BANDWIDTH => cfgBANDWIDTH cs
  end.

Definition config_set (t : NodeType) (v : NodeTypeConfig) (cs : Configs) : Configs :=
  match t with
  | STORAGE => mkConfigs v (cfgCOMPUTE cs) (cfgBANDWIDTH cs)
  | COMPUTE => mkConfigs (cfgSTORAGE cs) v (cfgBANDWIDTH cs)
  | BANDWIDTH => mkConfigs (cfgSTORAGE cs) (cfgCOMPUTE cs) v
  end.

Inductive Event : Type :=
| Transfer (from to : address) (tokenId : Z)
| Approval (owner approved : address) (tokenId : Z)
| ApprovalForAll (owner operator : address) (approved : bool)
| OwnershipTransferred (previousOwner newOwner : address)
| NodeRightsMinted (tokenId : Z) (owner : address) (nodeType : NodeType)
    (ethStaked dpnStaked : Z)
| NodeUpgraded (tokenId additionalETH additionalDPN newPerformanceScore : Z)
| PerformanceUpdated (tokenId newScore uptimeAdded : Z) (status : NodeStatus)
| NodeSlashed (tokenId : Z) (newStatus : NodeStatus) (penaltyAmount : Z)
    (reason : string)
| CrossChainBridge (tokenId : Z) (destinationChain : string) (operator : address).

(** The storage the modelled functions read or write.  [contractOwner] is
    Ownable's owner; [_owners], [_tokenApprovals] and [_operatorApprovals]
    are the ERC721 base contract's.  [nodeCapacityUsed] and
    [rewardCalculatorContract] are never written and are left out, as are
    the balance and enumeration tables of the ERC721 bases, which no
    modelled function reads. *)
Record State : Type := mkState {
  _tokenIdCounter : Z;
  nodeRights : gmap Z NodeRights;
  nodeTypeConfigs : Configs;
  ownerNodes : gmap Z (list Z);
  crossChainBridges : gmap Z string;
  lastPerformanceUpdate : gmap Z Z;
  participationContract : address;
  dpnTokenContract : address;
  contractOwner : address;
  _owners : gmap Z Z;
  _tokenApprovals : gmap Z Z;
  _operatorApprovals : gmap (Z * Z) bool
}.

Definition PERFORMANCE_DECIMALS : Z := 10000.

(** *** Field updates *)

Definition set_tokenIdCounter (v : Z) (st : State) : State :=
  mkState v (nodeRights st) (nodeTypeConfigs st) (ownerNodes st)
    (crossChainBridges st) (lastPerformanceUpdate st) (participationContract st)
    (dpnTokenContract st) (contractOwner st) (_owners st) (_tokenApprovals st)
    (_operatorApprovals st).

Definition set_nodeRights (tokenId : Z) (n : NodeRights) (st : State) : State :=
  mkState (_tokenIdCounter st) (<[tokenId := n]> (nodeRights st)) (nodeTypeConfigs st)
    (ownerNodes st) (crossChainBridges st) (lastPerformanceUpdate st)
    (participationContract st) (dpnTokenContract st) (contractOwner st) (_owners st)
    (_tokenApprovals st) (_operatorApprovals st).

Definition set_nodeTypeConfigs (v : Configs) (st : State) : State :=
  mkState (_tokenIdCounter st) (nodeRights st) v (ownerNodes st)
    (crossChainBridges st) (lastPerformanceUpdate st) (participationContract st)
    (dpnTokenContract st) (contractOwner st) (_owners st) (_tokenApprovals st)
    (_operatorApprovals st).

Definition set_ownerNodes (a : address) (l : list Z) (st : State) : State :=
  mkState (_tokenIdCounter st) (nodeRights st) (nodeTypeConfigs st)
    (<[a := l]> (ownerNodes st)) (crossChainBridges st) (lastPerformanceUpdate st)
    (participationContract st) (dpnTokenContract st) (contractOwner st) (_owners st)
    (_tokenApprovals st) (_operatorApprovals st).

Definition set_crossChainBridges (tokenId : Z) (v : string) (st : State) : State :=
  mkState (_tokenIdCounter st) (nodeRights st) (nodeTypeConfigs st) (ownerNodes st)
    (<[tokenId := v]> (crossChainBridges st)) (lastPerformanceUpdate st)
    (participationContract st) (dpnTokenContract st) (contractOwner st) (_owners st)
    (_tokenApprovals st) (_operatorApprovals st).

Definition set_lastPerformanceUpdate (tokenId : Z) (v : Z) (st : State) : State :=
  mkState (_tokenIdCounter st) (nodeRights st) (nodeTypeConfigs st) (ownerNodes st)
    (crossChainBridges st) (<[tokenId := v]> (lastPerformanceUpdate st))
    (participationContract st) (dpnTokenContract st) (contractOwner st) (_owners st)
    (_tokenApprovals st) (_operatorApprovals st).

Definition set_participationContract (v : address) (st : State) : State :=
  mkState (_tokenIdCounter st) (nodeRights st) (nodeTypeConfigs st) (ownerNodes st)
    (crossChainBridges st) (lastPerformanceUpdate st) v
    (dpnTokenContract st) (contractOwner st) (_owners st) (_tokenApprovals st)
    (_operatorApprovals st).

Definition set_dpnTokenContract (v : address) (st : State) : State :=
  mkState (_tokenIdCounter st) (nodeRights st) (nodeTypeConfigs st) (ownerNodes st)
    (crossChainBridges st) (lastPerformanceUpdate st) (participationContract st)
    v (contractOwner st) (_owners st) (_tokenApprovals st)
    (_operatorApprovals st).

Definition set_contractOwner (v : address) (st : State) : State :=
  mkState (_tokenIdCounter st) (nodeRights st) (nodeTypeConfigs st) (ownerNodes st)
    (crossChainBridges st) (lastPerformanceUpdate st) (participationContract st)
    (dpnTokenContract st) v (_owners st) (_tokenApprovals st)
    (_operatorApprovals st).

Definition set_owners (tokenId : Z) (a : address) (st : State) : State :=
  mkState (_tokenIdCounter st) (nodeRights st) (nodeTypeConfigs st) (ownerNodes st)
    (crossChainBridges st) (lastPerformanceUpdate st) (participationContract st)
    (dpnTokenContract st) (contractOwner st) (<[tokenId := a]> (_owners st))
    (_tokenApprovals st) (_operatorApprovals st).

Definition set_tokenApprovals (tokenId : Z) (a : address) (st : State) : State :=
  mkState (_tokenIdCounter st) (nodeRights st) (nodeTypeConfigs st) (ownerNodes st)
    (crossChainBridges st) (lastPerformanceUpdate st) (participationContract st)
    (dpnTokenContract st) (contractOwner st) (_owners st)
    (<[tokenId := a]> (_tokenApprovals st)) (_operatorApprovals st).

Definition set_operatorApprovals (o p : address) (b : bool) (st : State) : State :=
  mkState (_tokenIdCounter st) (nodeRights st) (nodeTypeConfigs st) (ownerNodes st)
    (crossChainBridges st) (lastPerformanceUpdate st) (participationContract st)
    (dpnTokenContract st) (contractOwner st) (_owners st)
    (_tokenApprovals st) (<[(o, p) := b]> (_operatorApprovals st)).

(** *** Reading the mappings (zero value where nothing was written) *)

Definition NodeRights_zero : NodeRights :=
  mkNodeRights STORAGE 0 0 0 0 ACTIVE 0 0 EmptyString false.

Definition nodeRights_at (st : State) (tokenId : Z) : NodeRights :=
  default NodeRights_zero (nodeRights st !! tokenId).

Definition ownerNodes_at (st : State) (a : address) : list Z :=
  default [] (ownerNodes st !! a).

Definition crossChainBridges_at (st : State) (tokenId : Z) : string :=
  default EmptyString (crossChainBridges st !! tokenId).

Definition _ownerOf (st : State) (tokenId : Z) : address :=
  default 0 (_owners st !! tokenId).

Definition getApproved (st : State) (tokenId : Z) : address :=
  default 0 (_tokenApprovals st !! tokenId).

Definition isApprovedForAll (st : State) (o p : address) : bool :=
  default false (_operatorApprovals st !! (o, p)).

(** *** Updates of one member of [nodeRights[tokenId]] through a storage
    reference *)

Definition with_stakedETH (v : Z) (n : NodeRights) : NodeRights :=
  mkNodeRights (nodeType n) v (stakedDPN n) (mintedAt n) (lastRewardClaim n)
    (status n) (totalUptime n) (performanceScore n) (metadata n) (isUpgraded n).
Definition with_stakedDPN (v : Z) (n : NodeRights) : NodeRights :=
  mkNodeRights (nodeType n) (stakedETH n) v (mintedAt n) (lastRewardClaim n)
    (status n) (totalUptime n) (performanceScore n) (metadata n) (isUpgraded n).
Definition with_status (v : NodeStatus) (n : NodeRights) : NodeRights :=
  mkNodeRights (nodeType n) (stakedETH n) (stakedDPN n) (mintedAt n) (lastRewardClaim n)
    v (totalUptime n) (performanceScore n) (metadata n) (isUpgraded n).
Definition with_totalUptime (v : Z) (n : NodeRights) : NodeRights :=
  mkNodeRights (nodeType n) (stakedETH n) (stakedDPN n) (mintedAt n) (lastRewardClaim n)
    (status n) v (performanceScore n) (metadata n) (isUpgraded n).
Definition with_performanceScore (v : Z) (n : NodeRights) : NodeRights :=
  mkNodeRights (nodeType n) (stakedETH n) (stakedDPN n) (mintedAt n) (lastRewardClaim n)
    (status n) (totalUptime n) v (metadata n) (isUpgraded n).
Definition with_isUpgraded (v : bool) (n : NodeRights) : NodeRights :=
  mkNodeRights (nodeType n) (stakedETH n) (stakedDPN n) (mintedAt n) (lastRewardClaim n)
    (status n) (totalUptime n) (performanceScore n) (metadata n) v.

Definition update_node (tokenId : Z) (f : NodeRights -> NodeRights)
  : M Event State unit :=
  modify (fun st => set_nodeRights tokenId (f (nodeRights_at st tokenId)) st).

Definition read_node (tokenId : Z) : M Event State NodeRights :=
  gets (fun st => nodeRights_at st tokenId).

(** *** Base contracts (OpenZeppelin v5: Ownable, ERC721)

    The contract imports them; only the parts the contract's own functions
    go through are modelled: the owner table, approvals, and the
    authorisation check of a transfer. *)

Definition onlyOwner (c : Call) : M Event State unit :=
  o <- gets contractOwner ;;
  if o =? msg_sender c then ret tt else fail (CustomError "OwnableUnauthorizedAccount").

Definition _isAuthorized (st : State) (owner spender : address) (tokenId : Z) : bool :=
  negb (spender =? 0)
  && ((owner =? spender) || isApprovedForAll st owner spender
      || (getApproved st tokenId =? spender)).

Definition _checkAuthorized (owner spender : address) (tokenId : Z)
    : M Event State unit :=
  ok <- gets (fun st => _isAuthorized st owner spender tokenId) ;;
  if ok then ret tt
  else if owner =? 0 then fail (CustomError "ERC721NonexistentToken")
  else fail (CustomError "ERC721InsufficientApproval").

(** [ERC721._update]: the [super._update] of the contract's override. *)
Definition ERC721_update (to : address) (tokenId : Z) (auth : address)
    : M Event State address :=
  from <- gets (fun st => _ownerOf st tokenId) ;;
  (if auth =? 0 then ret tt else _checkAuthorized from auth tokenId) ;;
  (if from =? 0 then ret tt else modify (set_tokenApprovals tokenId 0)) ;;
  modify (set_owners tokenId to) ;;
  emit (Transfer from to tokenId) ;;
  ret from.

Definition approve (c : Call) (to : address) (tokenId : Z) : M Event State unit :=
  owner <- gets (fun st => _ownerOf st tokenId) ;;
  (if owner =? 0 then fail (CustomError "ERC721NonexistentToken") else ret tt) ;;
  opr <- gets (fun st => isApprovedForAll st owner (msg_sender c)) ;;
  (if negb (msg_sender c =? 0) && negb (owner =? msg_sender c) && negb opr
   then fail (CustomError "ERC721InvalidApprover") else ret tt) ;;
  emit (Approval owner to tokenId) ;;
  modify (set_tokenApprovals tokenId to).

Definition setApprovalForAll (c : Call) (operator : address) (approved : bool)
    : M Event State unit :=
  (if operator =? 0 then fail (CustomError "ERC721InvalidOperator") else ret tt) ;;
  modify (set_operatorApprovals (msg_sender c) operator approved) ;;
  emit (ApprovalForAll (msg_sender c) operator approved).

Definition transferOwnership (c : Call) (newOwner : address) : M Event State unit :=
  onlyOwner c ;;
  (if newOwner =? 0 then fail (CustomError "OwnableInvalidOwner") else ret tt) ;;
  old <- gets contractOwner ;;
  modify (set_contractOwner newOwner) ;;
  emit (OwnershipTransferred old newOwner).

Definition renounceOwnership (c : Call) : M Event State unit :=
  onlyOwner c ;;
  old <- gets contractOwner ;;
  modify (set_contractOwner 0) ;;
  emit (OwnershipTransferred old 0).

(** *** Internal functions of the contract *)

Definition _setupNodeTypes : Configs :=
  {| cfgSTORAGE := mkNodeTypeConfig (10 ^ 18) (1000 * 10 ^ 18) 11574074074074 1000 true;
     cfgCOMPUTE := mkNodeTypeConfig (2 * 10 ^ 18) (2000 * 10 ^ 18) 34722222222222 500 true;
     cfgBANDWIDTH := mkNodeTypeConfig (5 * 10 ^ 17) (500 * 10 ^ 18) 17361111111111 2000 true |}.

(** State after the constructor, deployed by [deployer]. *)
Definition initial (deployer : address) : State :=
  {| _tokenIdCounter := 0; nodeRights := ∅; nodeTypeConfigs := _setupNodeTypes;
     ownerNodes := ∅; crossChainBridges := ∅; lastPerformanceUpdate := ∅;
     participationContract := 0; dpnTokenContract := 0; contractOwner := deployer;
     _owners := ∅; _tokenApprovals := ∅; _operatorApprovals := ∅ |}.

Definition _evaluateNodeStatus (performanceScore : Z) : NodeStatus :=
  if 9000 <=? performanceScore then ACTIVE
  else if 5000 <=? performanceScore then SLASHED_MINOR
  else if 2000 <=? performanceScore then SLASHED_MAJOR
  else TERMINATED.

Definition _min (a b : Z) : Z := if a <? b then a else b.

Definition _applySlashing (tokenId : Z) (newStatus : NodeStatus) : M Event State unit :=
  update_node tokenId (with_status newStatus) ;;
  node <- read_node tokenId ;;
  rp <- match newStatus with
        | SLASHED_MINOR =>
            m <- checked_mul (stakedDPN node) 5 ;;
            p <- checked_div m 100 ;;
            ret ("Low performance (50-90%)"%string, p)
        | SLASHED_MAJOR =>
            m <- checked_mul (stakedDPN node) 15 ;;
            p <- checked_div m 100 ;;
            ret ("Poor performance (20-50%)"%string, p)
        | TERMINATED => ret ("Critical failure (<20%)"%string, stakedDPN node)
        | ACTIVE => ret (EmptyString, 0)
        end ;;
  (if 0 <? snd rp
   then d <- checked_sub (stakedDPN node) (snd rp) ;;
        update_node tokenId (with_stakedDPN d)
   else ret tt) ;;
  emit (NodeSlashed tokenId newStatus (snd rp) (fst rp)).

Definition _calculatePendingRewards (c : Call) (tokenId : Z) : M Event State Z :=
  node <- read_node tokenId ;;
  config <- gets (fun st => config_at (nodeTypeConfigs st) (nodeType node)) ;;
  if negb (NodeStatus_eqb (status node) ACTIVE) then ret 0
  else
    timeElapsed <- checked_sub (block_timestamp c) (lastRewardClaim node) ;;
    baseReward <- checked_mul (baseRewardRate config) timeElapsed ;;
    m <- checked_mul baseReward (performanceScore node) ;;
    adjustedReward <- checked_div m PERFORMANCE_DECIMALS ;;
    excess <- checked_sub (stakedETH node) (minETHStake config) ;;
    scaled <- checked_mul excess 1000 ;;
    bonus <- checked_div scaled (minETHStake config) ;;
    stakingMultiplier <- checked_add PERFORMANCE_DECIMALS bonus ;;
    r <- checked_mul adjustedReward stakingMultiplier ;;
    checked_div r PERFORMANCE_DECIMALS.

(** The removal loop of [_update]:
    [for (i = 0; i < fromNodes.length; i++)
       if (fromNodes[i] == tokenId) { fromNodes[i] = fromNodes[length - 1];
                                      fromNodes.pop(); break; }].
    [n] counts the iterations left, [i] is the loop index. *)
Fixpoint remove_scan (n i : nat) (fromNodes : list Z) (tokenId : Z) : list Z :=
  match n with
  | O => fromNodes
  | S n' =>
      match fromNodes !! i with
      | Some x =>
          if x =? tokenId
          then match last fromNodes with
               | Some y => removelast (<[i := y]> fromNodes)
               | None => fromNodes
               end
          else remove_scan n' (S i) fromNodes tokenId
      | None => fromNodes
      end
  end.

Definition remove_owned (fromNodes : list Z) (tokenId : Z) : list Z :=
  remove_scan (length fromNodes) 0 fromNodes tokenId.

Definition _update (to : address) (tokenId : Z) (auth : address)
    : M Event State address :=
  previousOwner <- ERC721_update to tokenId auth ;;
  (if negb (previousOwner =? 0) && negb (to =? 0) && negb (previousOwner =? to)
   then
     modify (fun st =>
       set_ownerNodes previousOwner
         (remove_owned (ownerNodes_at st previousOwner) tokenId) st) ;;
     modify (fun st => set_ownerNodes to (ownerNodes_at st to ++ [tokenId]) st)
   else ret tt) ;;
  ret previousOwner.

(** [ERC721._safeMint], which runs the contract's [_update]. *)
Definition _safeMint (c : Call) (to : address) (tokenId : Z) : M Event State unit :=
  (if to =? 0 then fail (CustomError "ERC721InvalidReceiver") else ret tt) ;;
  previousOwner <- _update to tokenId 0 ;;
  (if previousOwner =? 0 then ret tt else fail (CustomError "ERC721InvalidSender")) ;;
  if onReceived_ok c then ret tt else fail (CustomError "ERC721InvalidReceiver").

Definition transferFrom (c : Call) (from to : address) (tokenId : Z)
    : M Event State unit :=
  (if to =? 0 then fail (CustomError "ERC721InvalidReceiver") else ret tt) ;;
  previousOwner <- _update to tokenId (msg_sender c) ;;
  if previousOwner =? from then ret tt else fail (CustomError "ERC721IncorrectOwner").

Definition safeTransferFrom (c : Call) (from to : address) (tokenId : Z)
    : M Event State unit :=
  transferFrom c from to tokenId ;;
  if onReceived_ok c then ret tt else fail (CustomError "ERC721InvalidReceiver").

(** *** External functions *)

Definition mintNodeRights (c : Call) (nodeType : NodeType) (dpnStakeAmount : Z)
    (metadata : string) : M Event State unit :=
  config <- gets (fun st => config_at (nodeTypeConfigs st) nodeType) ;;
  require (isActive config) "Node type not active" ;;
  require (minETHStake config <=? msg_value c) "Insufficient ETH stake" ;;
  require (minDPNStake config <=? dpnStakeAmount) "Insufficient DPN stake" ;;
  tokenId <- gets _tokenIdCounter ;;
  next <- checked_add tokenId 1 ;;
  modify (set_tokenIdCounter next) ;;
  modify (set_nodeRights tokenId
    {| nodeType := nodeType; stakedETH := msg_value c; stakedDPN := dpnStakeAmount;
       mintedAt := block_timestamp c; lastRewardClaim := block_timestamp c;
       status := ACTIVE; totalUptime := 0; performanceScore := PERFORMANCE_DECIMALS;
       metadata := metadata; isUpgraded := false |}) ;;
  modify (fun st =>
    set_ownerNodes (msg_sender c) (ownerNodes_at st (msg_sender c) ++ [tokenId]) st) ;;
  _safeMint c (msg_sender c) tokenId ;;
  emit (NodeRightsMinted tokenId (msg_sender c) nodeType (msg_value c) dpnStakeAmount).

Definition upgradeNode (c : Call) (tokenId additionalDPN : Z) : M Event State unit :=
  o <- gets (fun st => _ownerOf st tokenId) ;;
  require (negb (o =? 0)) "Node does not exist" ;;
  require (o =? msg_sender c) "Not node owner" ;;
  node <- read_node tokenId ;;
  require (NodeStatus_eqb (status node) ACTIVE) "Node not active" ;;
  e <- checked_add (stakedETH node) (msg_value c) ;;
  update_node tokenId (with_stakedETH e) ;;
  d <- checked_add (stakedDPN node) additionalDPN ;;
  update_node tokenId (with_stakedDPN d) ;;
  update_node tokenId (with_isUpgraded true) ;;
  node <- read_node tokenId ;;
  m <- checked_mul (msg_value c) 100 ;;
  performanceBoost <- checked_div m (stakedETH node) ;;
  sum <- checked_add (performanceScore node) performanceBoost ;;
  update_node tokenId (with_performanceScore (_min sum (PERFORMANCE_DECIMALS * 12 / 10))) ;;
  node <- read_node tokenId ;;
  emit (NodeUpgraded tokenId (msg_value c) additionalDPN (performanceScore node)).

Definition updatePerformance (c : Call) (tokenId uptimeSeconds performanceScore : Z)
    : M Event State unit :=
  o <- gets (fun st => _ownerOf st tokenId) ;;
  require (negb (o =? 0)) "Node does not exist" ;;
  adm <- gets contractOwner ;;
  pc <- gets participationContract ;;
  require ((msg_sender c =? adm) || (msg_sender c =? pc)) "Unauthorized" ;;
  node <- read_node tokenId ;;
  require (negb (NodeStatus_eqb (status node) TERMINATED)) "Node terminated" ;;
  u <- checked_add (totalUptime node) uptimeSeconds ;;
  update_node tokenId (with_totalUptime u) ;;
  update_node tokenId (with_performanceScore performanceScore) ;;
  modify (set_lastPerformanceUpdate tokenId (block_timestamp c)) ;;
  node <- read_node tokenId ;;
  (if negb (NodeStatus_eqb (_evaluateNodeStatus performanceScore) (status node))
   then _applySlashing tokenId (_evaluateNodeStatus performanceScore)
   else ret tt) ;;
  node <- read_node tokenId ;;
  emit (PerformanceUpdated tokenId performanceScore uptimeSeconds (status node)).

Definition bridgeToChain (c : Call) (tokenId : Z) (destinationChain : string)
    : M Event State unit :=
  o <- gets (fun st => _ownerOf st tokenId) ;;
  require (negb (o =? 0)) "Node does not exist" ;;
  require (o =? msg_sender c) "Not node owner" ;;
  modify (set_crossChainBridges tokenId destinationChain) ;;
  emit (CrossChainBridge tokenId destinationChain (msg_sender c)).

Definition getNodeDetails (c : Call) (tokenId : Z)
    : M Event State (NodeRights * NodeTypeConfig * Z * Z) :=
  o <- gets (fun st => _ownerOf st tokenId) ;;
  require (negb (o =? 0)) "Node does not exist" ;;
  node <- read_node tokenId ;;
  config <- gets (fun st => config_at (nodeTypeConfigs st) (nodeType node)) ;;
  timeStaked <- checked_sub (block_timestamp c) (mintedAt node) ;;
  estimatedRewards <- _calculatePendingRewards c tokenId ;;
  ret (node, config, timeStaked, estimatedRewards).

Definition getOwnerNodes (owner : address) : M Event State (list Z) :=
  gets (fun st => ownerNodes_at st owner).

(** *** Admin functions *)

Definition setParticipationContract (c : Call) (_participation : address)
    : M Event State unit :=
  onlyOwner c ;; modify (set_participationContract _participation).

Definition setDPNTokenContract (c : Call) (_dpnToken : address) : M Event State unit :=
  onlyOwner c ;; modify (set_dpnTokenContract _dpnToken).

Definition updateNodeTypeConfig (c : Call) (nodeType : NodeType)
    (minETHStake minDPNStake baseRewardRate : Z) (isActive : bool) : M Event State unit :=
  onlyOwner c ;;
  modify (fun st =>
    set_nodeTypeConfigs
      (config_set nodeType
         (mkNodeTypeConfig minETHStake minDPNStake baseRewardRate
            (maxCapacity (config_at (nodeTypeConfigs st) nodeType)) isActive)
         (nodeTypeConfigs st)) st).

(** *** Transactions and reachable states *)

Inductive Op : Type :=
| MintNodeRights (nodeType : NodeType) (dpnStakeAmount : Z) (metadata : string)
| UpgradeNode (tokenId additionalDPN : Z)
| UpdatePerformance (tokenId uptimeSeconds performanceScore : Z)
| BridgeToChain (tokenId : Z) (destinationChain : string)
| TransferFrom (from to : address) (tokenId : Z)
| SafeTransferFrom (from to : address) (tokenId : Z)
| Approve (to : address) (tokenId : Z)
| SetApprovalForAll (operator : address) (approved : bool)
| SetParticipationContract (a : address)
| SetDPNTokenContract (a : address)
| UpdateNodeTypeConfig (nodeType : NodeType) (minETHStake minDPNStake baseRewardRate : Z)
    (isActive : bool)
| TransferOwnership (newOwner : address)
| RenounceOwnership.

Definition call (c : Call) (op : Op) : M Event State unit :=
  match op with
  | MintNodeRights t d m => mintNodeRights c t d m
  | UpgradeNode id d => upgradeNode c id d
  | UpdatePerformance id u p => updatePerformance c id u p
  | BridgeToChain id ch => bridgeToChain c id ch
  | TransferFrom f t id => transferFrom c f t id
  | SafeTransferFrom f t id => safeTransferFrom c f t id
  | Approve t id => approve c t id
  | SetApprovalForAll o b => setApprovalForAll c o b
  | SetParticipationContract a => setParticipationContract c a
  | SetDPNTokenContract a => setDPNTokenContract c a
  | UpdateNodeTypeConfig t e d r b => updateNodeTypeConfig c t e d r b
  | TransferOwnership a => transferOwnership c a
  | RenounceOwnership => renounceOwnership c
  end.

Definition is_uint256 (x : Z) : Prop := 0 <= x <= MAX_UINT256.

(** The caller of a transaction is never the zero address, and the value it
    attaches is a uint256. *)
Definition wf_call (c : Call) : Prop :=
  msg_sender c <> 0 /\ is_uint256 (msg_value c).

(** The numeric arguments of a call are uint256 values. *)
Definition wf_op (op : Op) : Prop :=
  match op with
  | MintNodeRights _ d _ => is_uint256 d
  | UpgradeNode id d => is_uint256 id /\ is_uint256 d
  | UpdatePerformance id u p => is_uint256 id /\ is_uint256 u /\ is_uint256 p
  | BridgeToChain id _ => is_uint256 id
  | TransferFrom _ _ id | SafeTransferFrom _ _ id | Approve _ id => is_uint256 id
  | UpdateNodeTypeConfig _ e d r _ => is_uint256 e /\ is_uint256 d /\ is_uint256 r
  | SetApprovalForAll _ _ | SetParticipationContract _ | SetDPNTokenContract _
  | TransferOwnership _ | RenounceOwnership => True
  end.

Definition step (c : Call) (op : Op) (st : State) : State :=
  fst (transact (call c op) st).

Inductive reachable : State -> Prop :=
| reachable_initial deployer : deployer <> 0 -> reachable (initial deployer)
| reachable_step st c op :
    reachable st -> wf_call c -> wf_op op -> reachable (step c op st).

Inductive steps : State -> State -> Prop :=
| steps_refl st : steps st st
| steps_next st st' c op :
    steps st st' -> wf_call c -> wf_op op -> steps st (step c op st').

(** *** The reward estimate of the design document *)

(** The estimate in the words of the design document, over the rationals:
    rate x seconds, scaled by score / 10000, scaled by
    1 + max(0, staked - minimum) / minimum. *)
Definition documented_estimate (rate seconds score staked minimum : Z) : Q :=
  (inject_Z (rate * seconds) * (inject_Z score / inject_Z 10000)
   * (1 + inject_Z (Z.max 0 (staked - minimum)) / inject_Z minimum))%Q.

(** The documented estimate for the node [tokenId] of a storage, at the time
    of the call [c]. *)
Definition documented_at (st : State) (c : Call) (tokenId : Z) : Q :=
  documented_estimate
    (baseRewardRate (config_at (nodeTypeConfigs st) (nodeType (nodeRights_at st tokenId))))
    (block_timestamp c - lastRewardClaim (nodeRights_at st tokenId))
    (performanceScore (nodeRights_at st tokenId))
    (stakedETH (nodeRights_at st tokenId))
    (minETHStake (config_at (nodeTypeConfigs st) (nodeType (nodeRights_at st tokenId)))).

(** The estimate the contract computes, in its integer arithmetic. *)
Definition computed_estimate (rate seconds score staked minimum : Z) : Z :=
  (rate * seconds * score / 10000)
  * (10000 + (staked - minimum) * 1000 / minimum) / 10000.

(** *** The states a mint and a transfer leave, and the invariants *)

(** What the removal loop leaves of the part of the array it has not yet
    scanned: the first occurrence of [tokenId] is overwritten with the last
    element, which is popped. *)
Fixpoint drop_first (suffix : list Z) (tokenId : Z) : list Z :=
  match suffix with
  | [] => []
  | x :: r =>
      if x =? tokenId
      then match last r with
           | Some y => y :: removelast r
           | None => []
           end
      else x :: drop_first r tokenId
  end.

(** State after a transfer of [tokenId] from [from] to another account. *)
Definition moved (st : State) (from to : address) (tokenId : Z) : State :=
  set_ownerNodes to (ownerNodes_at st to ++ [tokenId])
    (set_ownerNodes from (remove_owned (ownerNodes_at st from) tokenId)
       (set_owners tokenId to (set_tokenApprovals tokenId 0 st))).

(** State after a mint of token [_tokenIdCounter st] to [msg_sender c]. *)
Definition minted (st : State) (c : Call) (t : NodeType) (dpn : Z) (md : string) : State :=
  set_owners (_tokenIdCounter st) (msg_sender c)
    (set_ownerNodes (msg_sender c) (ownerNodes_at st (msg_sender c) ++ [_tokenIdCounter st])
       (set_nodeRights (_tokenIdCounter st)
          (mkNodeRights t (msg_value c) dpn (block_timestamp c) (block_timestamp c)
             ACTIVE 0 PERFORMANCE_DECIMALS md false)
          (set_tokenIdCounter (_tokenIdCounter st + 1) st))).

(** What holds of every reachable storage: the owner index mirrors the owner
    table and lists no id twice, minted ids lie below the counter, nobody is
    approved for an unminted token or on behalf of the zero address, and a
    TERMINATED node has no token stake left. *)
Record Inv (st : State) : Prop := mkInv {
  inv_index : forall a t, t ∈ ownerNodes_at st a <-> a <> 0 /\ _ownerOf st t = a;
  inv_nodup : forall a, NoDup (ownerNodes_at st a);
  inv_counter : forall t, _ownerOf st t <> 0 -> t < _tokenIdCounter st;
  inv_approved : forall t, _ownerOf st t = 0 -> getApproved st t = 0;
  inv_operator : forall a, isApprovedForAll st 0 a = false;
  inv_terminated : forall t,
    status (nodeRights_at st t) = TERMINATED -> stakedDPN (nodeRights_at st t) = 0;
  inv_stake : forall t, 0 <= stakedDPN (nodeRights_at st t)
}.

(** *** Scenarios of the test suite

    The contract is deployed by account 1000.  [st_minted] is the set-up of
    the "Node Upgrades" and "Performance Tracking & Slashing" tests: account
    2001 mints a STORAGE node, token 0, with 1 ETH and 1000 DPN staked.  The
    calls [deployer], [addr1_plain] and [addr2_plain] attach no value;
    [addr1_upgrade] and [addr2] attach 0.5 ETH. *)

Definition deployer : Call := mkCall 1000 0 1700000100 true.

Definition addr1 : Call := mkCall 2001 (10 ^ 18) 1700000000 true.

Definition addr1_upgrade : Call := mkCall 2001 (5 * 10 ^ 17) 1700000200 true.

Definition addr1_plain : Call := mkCall 2001 0 1700000300 true.

Definition addr2 : Call := mkCall 2002 (5 * 10 ^ 17) 1700000050 true.

Definition addr2_plain : Call := mkCall 2002 0 1700000400 true.

Definition st_minted : State :=
  step addr1 (MintNodeRights STORAGE (1000 * 10 ^ 18) "metadata") (initial 1000).

(** The minted token handed over by its owner to account 2002. *)
Definition st_transferred : State := step addr1_plain (TransferFrom 2001 2002 0) st_minted.

(** The "should terminate node" test, a report of 1000 on the minted node,
    followed by a transfer of the token. *)
Definition st_after_transfer_of_terminated : State :=
  step addr1_plain (TransferFrom 2001 2002 0)
    (step deployer (UpdatePerformance 0 60 1000) st_minted).

(** The calls of test "should generate all NodeRights events for subgraph
    testing", in their order: the deployer is account 1000, [addr1],
    [addr2] and [addr3] are accounts 2001 to 2003. *)
Definition st_subgraph : State :=
  let owner := mkCall 1000 0 1700000000 true in
  let a1 v := mkCall 2001 v 1700000000 true in
  let a2 v := mkCall 2002 v 1700000000 true in
  let a3 v := mkCall 2003 v 1700000000 true in
  step owner (UpdatePerformance 1 7200 8800)
  (step owner (UpdatePerformance 0 3600 9900)
  (step (a1 0) (BridgeToChain 3 "avalanche-subnet")
  (step (a2 0) (BridgeToChain 1 "polygon-matic")
  (step (a1 0) (BridgeToChain 0 "ethereum-mainnet")
  (step owner (UpdatePerformance 4 300 1500)
  (step (a3 (10 ^ 18)) (MintNodeRights STORAGE (1000 * 10 ^ 18) "ipfs://QmFailingNode")
  (step owner (UpdatePerformance 2 900 4500)
  (step owner (UpdatePerformance 3 10800 9600)
  (step owner (UpdatePerformance 2 1800 7500)
  (step owner (UpdatePerformance 1 5400 9200)
  (step owner (UpdatePerformance 0 7200 9800)
  (step (a2 (2 * 10 ^ 18)) (UpgradeNode 1 (1200 * 10 ^ 18))
  (step (a1 (8 * 10 ^ 17)) (UpgradeNode 0 (500 * 10 ^ 18))
  (step (a1 (55 * 10 ^ 17)) (MintNodeRights COMPUTE (3000 * 10 ^ 18) "ipfs://QmComputeDelta")
  (step (a3 (7 * 10 ^ 17)) (MintNodeRights BANDWIDTH (600 * 10 ^ 18) "ipfs://QmBandwidthGamma")
  (step (a2 (4 * 10 ^ 18)) (MintNodeRights COMPUTE (2800 * 10 ^ 18) "ipfs://QmComputeBeta")
  (step (a1 (15 * 10 ^ 17)) (MintNodeRights STORAGE (1200 * 10 ^ 18) "ipfs://QmStorageAlpha")
     (initial 1000)))))))))))))))))).

(** A STORAGE node minted with 2 ETH, twice the minimum of the type, and a
    look at it one day later. *)
Definition staker : Call := mkCall 2003 (2 * 10 ^ 18) 1700000000 true.

Definition day_later : Call := mkCall 2003 0 1700086400 true.

Definition st_double_stake : State :=
  step staker (MintNodeRights STORAGE (1000 * 10 ^ 18) "metadata") (initial 1000).

End NodeRightsNFT.

(** ** The core: both contracts and the eight operations of the design *)

Module Core.

Record State : Type := mkCore {
  ledger : Participation.State;
  rights : NodeRightsNFT.State
}.

Inductive Event : Type :=
| LedgerEvent (e : Participation.Event)
| RightsEvent (e : NodeRightsNFT.Event).

Inductive Op : Type :=
| RegisterNode (metadata : string)
| RecordUptime (nodeId minutesUp : Z)
| ClaimReward (nodeId : Z)
| StakeToNode (nodeId : Z)
| MintNodeRights (nodeType : NodeRightsNFT.NodeType) (dpnStakeAmount : Z) (metadata : string)
| UpgradeNode (tokenId additionalDPN : Z)
| UpdatePerformance (tokenId uptimeSeconds performanceScore : Z)
| BridgeToChain (tokenId : Z) (destinationChain : string).

(** The result of the call an operation makes, on the contract it addresses. *)
Definition on_ledger (m : M Participation.Event Participation.State unit) (w : State)
    : Outcome Event State unit :=
  match m (ledger w) [] with
  | Ok a s l => Ok a (mkCore s (rights w)) (map LedgerEvent l)
  | Err f => Err f
  end.

Definition on_rights (m : M NodeRightsNFT.Event NodeRightsNFT.State unit) (w : State)
    : Outcome Event State unit :=
  match m (rights w) [] with
  | Ok a s l => Ok a (mkCore (ledger w) s) (map RightsEvent l)
  | Err f => Err f
  end.

Definition run (c : Call) (op : Op) (w : State) : Outcome Event State unit :=
  match op with
  | RegisterNode md => on_ledger (Participation.registerNode c md) w
  | RecordUptime id m => on_ledger (Participation.recordUptime c id m) w
  | ClaimReward id => on_ledger (Participation.claimReward c id) w
  | StakeToNode id => on_ledger (Participation.stakeToNode c id) w
  | MintNodeRights t d md => on_rights (NodeRightsNFT.mintNodeRights c t d md) w
  | UpgradeNode id d => on_rights (NodeRightsNFT.upgradeNode c id d) w
  | UpdatePerformance id u p => on_rights (NodeRightsNFT.updatePerformance c id u p) w
  | BridgeToChain id ch => on_rights (NodeRightsNFT.bridgeToChain c id ch) w
  end.

(** The operation as a transaction: a reverted call changes nothing and
    logs nothing. *)
Definition apply_op (c : Call) (op : Op) (w : State) : State * list Event :=
  match run c op w with
  | Ok _ w' l => (w', l)
  | Err _ => (w, [])
  end.

(** The error taxonomy of the design document. *)
Inductive SpecError : Type :=
| NotFound | NotOwner | Unauthorized | InsufficientNativeStake | InsufficientTokenStake
| InvalidAmount | InactiveNodeType | NodeNotActive | AlreadyTerminated.

(** The preconditions the design document gives each operation. *)
Definition preconditions (c : Call) (op : Op) (w : State) : Prop :=
  match op with
  | RegisterNode _ | RecordUptime _ _ => True
  | ClaimReward id =>
      msg_sender c = Participation.owner (Participation.nodes_at (ledger w) id)
  | StakeToNode _ => 0 < msg_value c
  | MintNodeRights t d _ =>
      let cfg := NodeRightsNFT.config_at (NodeRightsNFT.nodeTypeConfigs (rights w)) t in
      NodeRightsNFT.isActive cfg = true /\
      NodeRightsNFT.minETHStake cfg <= msg_value c /\
      NodeRightsNFT.minDPNStake cfg <= d
  | UpgradeNode id _ =>
      NodeRightsNFT._ownerOf (rights w) id <> 0 /\
      NodeRightsNFT._ownerOf (rights w) id = msg_sender c /\
      NodeRightsNFT.status (NodeRightsNFT.nodeRights_at (rights w) id) = NodeRightsNFT.ACTIVE
  | UpdatePerformance id _ _ =>
      NodeRightsNFT._ownerOf (rights w) id <> 0 /\
      (msg_sender c = NodeRightsNFT.contractOwner (rights w) \/
       msg_sender c = NodeRightsNFT.participationContract (rights w)) /\
      NodeRightsNFT.status (NodeRightsNFT.nodeRights_at (rights w) id)
        <> NodeRightsNFT.TERMINATED
  | BridgeToChain id _ =>
      NodeRightsNFT._ownerOf (rights w) id <> 0 /\
      NodeRightsNFT._ownerOf (rights w) id = msg_sender c
  end.

(** The same list as a check, in the document's order: the first
    precondition the call violates, if any. *)
Definition violated_precondition (c : Call) (op : Op) (w : State) : option SpecError :=
  match op with
  | RegisterNode _ | RecordUptime _ _ => None
  | ClaimReward id =>
      if Participation.owner (Participation.nodes_at (ledger w) id) =? msg_sender c
      then None else Some Unauthorized
  | StakeToNode _ => if 0 <? msg_value c then None else Some InvalidAmount
  | MintNodeRights t d _ =>
      let cfg := NodeRightsNFT.config_at (NodeRightsNFT.nodeTypeConfigs (rights w)) t in
      if negb (NodeRightsNFT.isActive cfg) then Some InactiveNodeType
      else if msg_value c <? NodeRightsNFT.minETHStake cfg then Some InsufficientNativeStake
      else if d <? NodeRightsNFT.minDPNStake cfg then Some InsufficientTokenStake
      else None
  | UpgradeNode id _ =>
      if NodeRightsNFT._ownerOf (rights w) id =? 0 then Some NotFound
      else if negb (NodeRightsNFT._ownerOf (rights w) id =? msg_sender c) then Some NotOwner
      else match NodeRightsNFT.status (NodeRightsNFT.nodeRights_at (rights w) id) with
           | NodeRightsNFT.ACTIVE => None
           | _ => Some NodeNotActive
           end
  | UpdatePerformance id _ _ =>
      if NodeRightsNFT._ownerOf (rights w) id =? 0 then Some NotFound
      else if negb ((msg_sender c =? NodeRightsNFT.contractOwner (rights w))
                    || (msg_sender c =? NodeRightsNFT.participationContract (rights w)))
      then Some Unauthorized
      else match NodeRightsNFT.status (NodeRightsNFT.nodeRights_at (rights w) id) with
           | NodeRightsNFT.TERMINATED => Some AlreadyTerminated
           | _ => None
           end
  | BridgeToChain id _ =>
      if NodeRightsNFT._ownerOf (rights w) id =? 0 then Some NotFound
      else if negb (NodeRightsNFT._ownerOf (rights w) id =? msg_sender c) then Some NotOwner
      else None
  end.

(** The revert reason the contracts give for each error. *)
Definition revert_reason (op : Op) (e : SpecError) : string :=
  match e with
  | NotFound => "Node does not exist"
  | NotOwner => "Not node owner"
  | Unauthorized => match op with ClaimReward _ => "Not owner" | _ => "Unauthorized" end
  | InsufficientNativeStake => "Insufficient ETH stake"
  | InsufficientTokenStake => "Insufficient DPN stake"
  | InvalidAmount => "Send funds"
  | InactiveNodeType => "Node type not active"
  | NodeNotActive => "Node not active"
  | AlreadyTerminated => "Node terminated"
  end.

(** Scenarios D and E of the design document are played on the storage
    with token 0 minted by account 2001. *)
Definition world : State :=
  mkCore Participation.st_nodeA NodeRightsNFT.st_minted.

End Core.

(** ** Runs of the Participation contract *)

Module Ledger.
Import Participation.

Inductive Op : Type :=
| RegisterNode (metadata : string)
| RecordUptime (nodeId minutesUp : Z)
| ClaimReward (nodeId : Z)
| StakeToNode (nodeId : Z).

Definition call (c : Call) (op : Op) : M Event State unit :=
  match op with
  | RegisterNode md => registerNode c md
  | RecordUptime id m => recordUptime c id m
  | ClaimReward id => claimReward c id
  | StakeToNode id => stakeToNode c id
  end.

(** Only [stakeToNode] is payable. *)
Definition payable (op : Op) : bool :=
  match op with
  | StakeToNode _ => true
  | _ => false
  end.

(** The caller is not the zero address; the attached value and the numeric
    arguments are uint256 values. *)
Definition wf_call (c : Call) : Prop :=
  msg_sender c <> 0 /\ 0 <= msg_value c <= MAX_UINT256.

Definition wf_op (op : Op) : Prop :=
  match op with
  | RecordUptime _ m => 0 <= m <= MAX_UINT256
  | _ => True
  end.

(** The storage together with the events logged since deployment.  A
    transaction that reverts leaves both as they were. *)
Definition apply (tx : Call * Op) (h : State * list Event) : State * list Event :=
  match call (fst tx) (snd tx) (fst h) (snd h) with
  | Ok _ st' log' => (st', log')
  | Err _ => h
  end.

Fixpoint apply_all (txs : list (Call * Op)) (h : State * list Event)
    : State * list Event :=
  match txs with
  | [] => h
  | tx :: rest => apply_all rest (apply tx h)
  end.

(** What an indexer reads off the log for one node. *)
Definition minutes_in (nodeId : Z) (e : Event) : Z :=
  match e with
  | UptimeRecorded i m _ => if i =? nodeId then m else 0
  | _ => 0
  end.

Definition claim_in (nodeId : Z) (e : Event) : Z :=
  match e with
  | RewardClaimed i _ a _ => if i =? nodeId then a else 0
  | _ => 0
  end.

Definition stake_in (nodeId : Z) (e : Event) : Z :=
  match e with
  | StakeUpdated i _ a _ => if i =? nodeId then a else 0
  | _ => 0
  end.

Definition registration_in (e : Event) : Z :=
  match e with
  | NodeRegistered _ _ _ => 1
  | _ => 0
  end.

Definition total (f : Event -> Z) (log : list Event) : Z :=
  fold_right (fun e acc => f e + acc) 0 log.

(** The transactions considered: well-formed ones that attach value to a
    payable function only (the others are rejected before the function body
    runs and change nothing). *)
Definition wf_tx (tx : Call * Op) : Prop :=
  wf_call (fst tx) /\ wf_op (snd tx) /\
  (payable (snd tx) = false -> msg_value (fst tx) = 0).

Inductive history : State * list Event -> Prop :=
| history_initial : history (initial, [])
| history_apply h tx : history h -> wf_tx tx -> history (apply tx h).

(** What holds of the storage and the log after every history. *)
Record Accounted (h : State * list Event) : Prop := mkAccounted {
  acc_uptime : forall nodeId,
    uptime (stats_at (fst h) nodeId) = total (minutes_in nodeId) (snd h);
  acc_earned : forall nodeId,
    earned (stats_at (fst h) nodeId) =
    total (minutes_in nodeId) (snd h) - total (claim_in nodeId) (snd h);
  acc_stake : forall nodeId,
    nodeStakes_at (fst h) nodeId = total (stake_in nodeId) (snd h);
  acc_nextId : nextId (fst h) = total registration_in (snd h);
  acc_earned_range : forall nodeId,
    0 <= earned (stats_at (fst h) nodeId) <= uptime (stats_at (fst h) nodeId);
  acc_uptime_range : forall nodeId, uptime (stats_at (fst h) nodeId) <= MAX_UINT256;
  acc_stake_range : forall nodeId, 0 <= nodeStakes_at (fst h) nodeId <= MAX_UINT256;
  acc_nextId_range : 0 <= nextId (fst h) <= MAX_UINT256;
  acc_registered : forall nodeId,
    owner (nodes_at (fst h) nodeId) <> 0 <-> 0 <= nodeId < nextId (fst h)
}.

(** One transaction, by cases on what it did. *)
Inductive effect (c : Call) (st : State) (log : list Event)
    : Op -> State * list Event -> Prop :=
| effect_none op : effect c st log op (st, log)
| effect_register md :
    nextId st + 1 <= MAX_UINT256 ->
    effect c st log (RegisterNode md)
      (set_nextId (nextId st + 1)
         (set_node (nextId st) (mkNode (msg_sender c) md (block_timestamp c)) st),
       log ++ [NodeRegistered (nextId st) (msg_sender c) (block_timestamp c)])
| effect_uptime nodeId m :
    uptime (stats_at st nodeId) + m <= MAX_UINT256 ->
    earned (stats_at st nodeId) + m <= MAX_UINT256 ->
    effect c st log (RecordUptime nodeId m)
      (set_stats nodeId
         (mkStats (uptime (stats_at st nodeId) + m) (block_timestamp c)
            (earned (stats_at st nodeId) + m)) st,
       log ++ [UptimeRecorded nodeId m (block_timestamp c)])
| effect_claim nodeId :
    owner (nodes_at st nodeId) = msg_sender c ->
    effect c st log (ClaimReward nodeId)
      (set_stats nodeId (set_earned 0 (stats_at st nodeId)) st,
       log ++ [RewardClaimed nodeId (msg_sender c) (earned (stats_at st nodeId))
                 (block_timestamp c)])
| effect_stake nodeId :
    0 < msg_value c ->
    nodeStakes_at st nodeId + msg_value c <= MAX_UINT256 ->
    effect c st log (StakeToNode nodeId)
      (set_nodeStakes nodeId (nodeStakes_at st nodeId + msg_value c) st,
       log ++ [StakeUpdated nodeId (msg_sender c) (msg_value c) (block_timestamp c)]).

(** The calls of test "should generate all events for subgraph testing", in
    their order. *)
Definition subgraph_calls : list (Call * Op) :=
  let owner v := mkCall 1000 v 1700000000 true in
  let addr1 v := mkCall 1001 v 1700000000 true in
  let addr2 v := mkCall 1002 v 1700000000 true in
  [ (addr1 0, RegisterNode "DePIN Node Alpha");
    (addr2 0, RegisterNode "DePIN Node Beta");
    (owner 0, RegisterNode "DePIN Node Gamma");
    (addr1 0, RecordUptime 0 120);
    (addr2 0, RecordUptime 1 90);
    (owner 0, RecordUptime 2 180);
    (owner (25 * 10 ^ 17), StakeToNode 0);
    (addr1 (18 * 10 ^ 17), StakeToNode 1);
    (addr2 (32 * 10 ^ 17), StakeToNode 2);
    (addr1 0, RecordUptime 0 60);
    (addr2 0, RecordUptime 1 45);
    (addr1 0, ClaimReward 0);
    (addr2 0, ClaimReward 1);
    (addr2 (10 ^ 18), StakeToNode 0) ].

End Ledger.

(** ** Statistics and further invariants of NodeRightsNFT *)

Module NodeRegister.
Import NodeRightsNFT.

Definition NodeType_eqb (a b : NodeType) : bool :=
  match a, b with
  | STORAGE, STORAGE | COMPUTE, COMPUTE | BANDWIDTH, BANDWIDTH => true
  | _, _ => false
  end.

(** The named return values and the local [performanceSum] of
    [getNodeTypeStats]. *)
Record TypeStats : Type := mkTypeStats {
  totalNodes : Z;
  totalStakedETH : Z;
  performanceSum : Z;
  activeNodes : Z
}.

(** The loop of [getNodeTypeStats], over the token ids in the order
    [tokenByIndex] enumerates them: the contract inherits the enumeration
    from ERC721Enumerable, which lists every token that has an owner. *)
Fixpoint stats_loop (tokens : list Z) (t : NodeType) (acc : TypeStats)
    : M Event State TypeStats :=
  match tokens with
  | [] => ret acc
  | tokenId :: rest =>
      node <- read_node tokenId ;;
      acc' <- (if NodeType_eqb (nodeType node) t
               then
                 n <- checked_add (totalNodes acc) 1 ;;
                 e <- checked_add (totalStakedETH acc) (stakedETH node) ;;
                 p <- checked_add (performanceSum acc) (performanceScore node) ;;
                 a <- (if NodeStatus_eqb (status node) ACTIVE
                       then checked_add (activeNodes acc) 1
                       else ret (activeNodes acc)) ;;
                 ret (mkTypeStats n e p a)
               else ret acc) ;;
      stats_loop rest t acc'
  end.

(** Returns (totalNodes, totalStakedETH, averagePerformance, activeNodes). *)
Definition getNodeTypeStats (allTokens : list Z) (t : NodeType)
    : M Event State (Z * Z * Z * Z) :=
  acc <- stats_loop allTokens t (mkTypeStats 0 0 0 0) ;;
  averagePerformance <- (if 0 <? totalNodes acc
                         then checked_div (performanceSum acc) (totalNodes acc)
                         else ret 0) ;;
  ret (totalNodes acc, totalStakedETH acc, averagePerformance, activeNodes acc).

(** The nodes of a type among the enumerated tokens. *)
Definition of_type (st : State) (t : NodeType) (tokens : list Z) : list NodeRights :=
  filter (fun n => NodeType_eqb (nodeType n) t = true)
    (map (nodeRights_at st) tokens).

Definition sum_of (f : NodeRights -> Z) (l : list NodeRights) : Z :=
  fold_right (fun n acc => f n + acc) 0 l.

Definition active_count (l : list NodeRights) : Z :=
  sum_of (fun n => if NodeStatus_eqb (status n) ACTIVE then 1 else 0) l.

(** One transaction, by cases on what it did to the storage. *)
Inductive effect (c : Call) (st : State) : Op -> State -> Prop :=
| effect_none op : effect c st op st
| effect_mint t dpn md :
    isActive (config_at (nodeTypeConfigs st) t) = true ->
    minETHStake (config_at (nodeTypeConfigs st) t) <= msg_value c ->
    minDPNStake (config_at (nodeTypeConfigs st) t) <= dpn ->
    _tokenIdCounter st + 1 <= MAX_UINT256 ->
    _ownerOf st (_tokenIdCounter st) = 0 ->
    effect c st (MintNodeRights t dpn md) (minted st c t dpn md)
| effect_upgrade tokenId additionalDPN :
    _ownerOf st tokenId <> 0 ->
    _ownerOf st tokenId = msg_sender c ->
    status (nodeRights_at st tokenId) = ACTIVE ->
    stakedETH (nodeRights_at st tokenId) + msg_value c <= MAX_UINT256 ->
    stakedDPN (nodeRights_at st tokenId) + additionalDPN <= MAX_UINT256 ->
    stakedETH (nodeRights_at st tokenId) + msg_value c <> 0 ->
    effect c st (UpgradeNode tokenId additionalDPN)
      (set_nodeRights tokenId
         (let n := nodeRights_at st tokenId in
          mkNodeRights (nodeType n) (stakedETH n + msg_value c)
            (stakedDPN n + additionalDPN) (mintedAt n) (lastRewardClaim n)
            (status n) (totalUptime n)
            (_min (performanceScore n
                   + msg_value c * 100 / (stakedETH n + msg_value c)) 12000)
            (metadata n) true) st)
| effect_performance tokenId uptimeSeconds score d :
    _ownerOf st tokenId <> 0 ->
    msg_sender c = contractOwner st \/ msg_sender c = participationContract st ->
    status (nodeRights_at st tokenId) <> TERMINATED ->
    totalUptime (nodeRights_at st tokenId) + uptimeSeconds <= MAX_UINT256 ->
    (d = stakedDPN (nodeRights_at st tokenId) \/
     0 <= d < stakedDPN (nodeRights_at st tokenId)) ->
    effect c st (UpdatePerformance tokenId uptimeSeconds score)
      (set_nodeRights tokenId
         (let n := nodeRights_at st tokenId in
          mkNodeRights (nodeType n) (stakedETH n) d (mintedAt n) (lastRewardClaim n)
            (_evaluateNodeStatus score) (totalUptime n + uptimeSeconds) score
            (metadata n) (isUpgraded n))
         (set_lastPerformanceUpdate tokenId (block_timestamp c) st))
| effect_bridge tokenId chain :
    _ownerOf st tokenId <> 0 ->
    _ownerOf st tokenId = msg_sender c ->
    effect c st (BridgeToChain tokenId chain) (set_crossChainBridges tokenId chain st)
| effect_transfer_to_self op tokenId :
    op = TransferFrom (_ownerOf st tokenId) (_ownerOf st tokenId) tokenId \/
    op = SafeTransferFrom (_ownerOf st tokenId) (_ownerOf st tokenId) tokenId ->
    _ownerOf st tokenId <> 0 ->
    _isAuthorized st (_ownerOf st tokenId) (msg_sender c) tokenId = true ->
    effect c st op
      (set_owners tokenId (_ownerOf st tokenId) (set_tokenApprovals tokenId 0 st))
| effect_transfer op to tokenId :
    op = TransferFrom (_ownerOf st tokenId) to tokenId \/
    op = SafeTransferFrom (_ownerOf st tokenId) to tokenId ->
    _ownerOf st tokenId <> 0 ->
    to <> 0 ->
    _ownerOf st tokenId <> to ->
    _isAuthorized st (_ownerOf st tokenId) (msg_sender c) tokenId = true ->
    effect c st op (moved st (_ownerOf st tokenId) to tokenId)
| effect_approve to tokenId :
    _ownerOf st tokenId <> 0 ->
    effect c st (Approve to tokenId) (set_tokenApprovals tokenId to st)
| effect_setApprovalForAll operator approved :
    operator <> 0 ->
    effect c st (SetApprovalForAll operator approved)
      (set_operatorApprovals (msg_sender c) operator approved st)
| effect_setParticipationContract a :
    contractOwner st = msg_sender c ->
    effect c st (SetParticipationContract a) (set_participationContract a st)
| effect_setDPNTokenContract a :
    contractOwner st = msg_sender c ->
    effect c st (SetDPNTokenContract a) (set_dpnTokenContract a st)
| effect_updateNodeTypeConfig t e d r b :
    contractOwner st = msg_sender c ->
    effect c st (UpdateNodeTypeConfig t e d r b)
      (set_nodeTypeConfigs
         (config_set t
            (mkNodeTypeConfig e d r (maxCapacity (config_at (nodeTypeConfigs st) t)) b)
            (nodeTypeConfigs st)) st)
| effect_transferOwnership newOwner :
    contractOwner st = msg_sender c ->
    newOwner <> 0 ->
    effect c st (TransferOwnership newOwner) (set_contractOwner newOwner st)
| effect_renounceOwnership :
    contractOwner st = msg_sender c ->
    effect c st RenounceOwnership (set_contractOwner 0 st).

(** What a transaction can do to the record of one node: create it at the
    mint of a fresh id, or rewrite it at an upgrade by the owner or at a
    performance report by the administrator or the participation
    contract. *)
Inductive node_change (c : Call) (st : State) (tokenId : Z)
    : Op -> NodeRights -> Prop :=
| change_mint t dpn md :
    tokenId = _tokenIdCounter st ->
    _ownerOf st tokenId = 0 ->
    msg_sender c <> 0 ->
    node_change c st tokenId (MintNodeRights t dpn md)
      (mkNodeRights t (msg_value c) dpn (block_timestamp c) (block_timestamp c)
         ACTIVE 0 PERFORMANCE_DECIMALS md false)
| change_upgrade additionalDPN :
    _ownerOf st tokenId <> 0 ->
    _ownerOf st tokenId = msg_sender c ->
    status (nodeRights_at st tokenId) = ACTIVE ->
    stakedETH (nodeRights_at st tokenId) + msg_value c <= MAX_UINT256 ->
    stakedDPN (nodeRights_at st tokenId) + additionalDPN <= MAX_UINT256 ->
    stakedETH (nodeRights_at st tokenId) + msg_value c <> 0 ->
    node_change c st tokenId (UpgradeNode tokenId additionalDPN)
      (let n := nodeRights_at st tokenId in
       mkNodeRights (nodeType n) (stakedETH n + msg_value c)
         (stakedDPN n + additionalDPN) (mintedAt n) (lastRewardClaim n)
         (status n) (totalUptime n)
         (_min (performanceScore n
                + msg_value c * 100 / (stakedETH n + msg_value c)) 12000)
         (metadata n) true)
| change_performance uptimeSeconds score d :
    _ownerOf st tokenId <> 0 ->
    msg_sender c = contractOwner st \/ msg_sender c = participationContract st ->
    status (nodeRights_at st tokenId) <> TERMINATED ->
    totalUptime (nodeRights_at st tokenId) + uptimeSeconds <= MAX_UINT256 ->
    (d = stakedDPN (nodeRights_at st tokenId) \/
     0 <= d < stakedDPN (nodeRights_at st tokenId)) ->
    node_change c st tokenId (UpdatePerformance tokenId uptimeSeconds score)
      (let n := nodeRights_at st tokenId in
       mkNodeRights (nodeType n) (stakedETH n) d (mintedAt n) (lastRewardClaim n)
         (_evaluateNodeStatus score) (totalUptime n + uptimeSeconds) score
         (metadata n) (isUpgraded n)).

(** What holds of every reachable storage besides [Inv]: the minted ids are
    the ids below the counter, nothing is stored for an unminted id, the
    status of a minted node is the one its score evaluates to, and the
    numbers stored for a node are uint256 values. *)
Record Register (st : State) : Prop := mkRegister {
  reg_minted : forall t, _ownerOf st t <> 0 <-> 0 <= t < _tokenIdCounter st;
  reg_counter : 0 <= _tokenIdCounter st <= MAX_UINT256;
  reg_blank : forall t, _ownerOf st t = 0 ->
    nodeRights st !! t = None /\ crossChainBridges st !! t = None /\
    lastPerformanceUpdate st !! t = None;
  reg_status : forall t, _ownerOf st t <> 0 ->
    status (nodeRights_at st t)
    = _evaluateNodeStatus (performanceScore (nodeRights_at st t));
  reg_uint : forall t,
    is_uint256 (stakedETH (nodeRights_at st t)) /\
    is_uint256 (stakedDPN (nodeRights_at st t)) /\
    is_uint256 (totalUptime (nodeRights_at st t)) /\
    is_uint256 (performanceScore (nodeRights_at st t))
}.

(** What the transactions leave of a minted node. *)
Definition keeps_node (st st' : State) (tokenId : Z) : Prop :=
  let n := nodeRights_at st tokenId in
  let n' := nodeRights_at st' tokenId in
  _ownerOf st' tokenId <> 0 /\
  nodeType n' = nodeType n /\ mintedAt n' = mintedAt n /\
  lastRewardClaim n' = lastRewardClaim n /\ metadata n' = metadata n /\
  stakedETH n <= stakedETH n' /\ totalUptime n <= totalUptime n' /\
  (isUpgraded n = true -> isUpgraded n' = true).

(** The fields only the administrator writes. *)
Definition admin_fields (st : State) : Configs * address * address * address :=
  (nodeTypeConfigs st, participationContract st, dpnTokenContract st, contractOwner st).

(** The accumulator of the loop after the nodes [l] of the requested type. *)
Definition acc_plus (acc : TypeStats) (l : list NodeRights) : TypeStats :=
  mkTypeStats (totalNodes acc + Z.of_nat (length l))
    (totalStakedETH acc + sum_of stakedETH l)
    (performanceSum acc + sum_of performanceScore l)
    (activeNodes acc + active_count l).

Definition fits (acc : TypeStats) : bool :=
  (totalNodes acc <=? MAX_UINT256) && (totalStakedETH acc <=? MAX_UINT256)
  && (performanceSum acc <=? MAX_UINT256).

(** The set-up of the "Analytics & View Functions" tests: accounts 2001 to
    2003 mint a STORAGE, a COMPUTE and a BANDWIDTH node. *)
Definition st_analytics : State :=
  step (mkCall 2003 (8 * 10 ^ 17) 1700000000 true)
    (MintNodeRights BANDWIDTH (800 * 10 ^ 18) "bandwidth-metadata")
  (step (mkCall 2002 (35 * 10 ^ 17) 1700000000 true)
     (MintNodeRights COMPUTE (2500 * 10 ^ 18) "compute-metadata")
  (step (mkCall 2001 (12 * 10 ^ 17) 1700000000 true)
     (MintNodeRights STORAGE (1000 * 10 ^ 18) "storage-metadata") (initial 1000))).

(** The administrator raises the STORAGE minimum to 2 ETH (test "should
    allow owner to update node type configs") after the mint of
    [st_minted]. *)
Definition st_minimum_raised : State :=
  step deployer (UpdateNodeTypeConfig STORAGE (2 * 10 ^ 18) (2000 * 10 ^ 18)
                   23148148148148 true) st_minted.

(** The administrator sets the STORAGE minimum to zero. *)
Definition st_minimum_zero : State :=
  step deployer (UpdateNodeTypeConfig STORAGE 0 0 11574074074074 true) st_minted.

(** The minted node after a report of 7000, which slashes it (test "should
    apply minor slashing for poor performance"). *)
Definition st_slashed : State := step deployer (UpdatePerformance 0 1800 7000) st_minted.



(** The administrator gives up the contract after the mint. *)
Definition st_renounced : State := step deployer RenounceOwnership st_minted.

End NodeRegister.

(** * Properties *)

(** Unfolding the monad one statement at a time. *)
Ltac munfold :=
  cbv beta iota delta [bind ret fail require gets modify emit
    checked_add checked_sub checked_mul checked_div].

Ltac mred :=
  cbv beta iota delta [bind ret fail require gets modify emit
    checked_add checked_sub checked_mul checked_div negb andb orb].

Module ParticipationProofs.
Import Participation.

Lemma stats_at_set_same st nodeId s :
  stats_at (set_stats nodeId s st) nodeId = s.
Proof. unfold stats_at, set_stats; simpl. by rewrite lookup_insert_eq. Qed.

Lemma stats_at_set_other st nodeId nodeId' s :
  nodeId <> nodeId' -> stats_at (set_stats nodeId s st) nodeId' = stats_at st nodeId'.
Proof. intros H. unfold stats_at, set_stats; simpl. by rewrite lookup_insert_ne. Qed.

Lemma nodes_at_set_stats st nodeId s k :
  nodes_at (set_stats nodeId s st) k = nodes_at st k.
Proof. reflexivity. Qed.

(** What a claim by the registered owner does. *)
Lemma claimReward_owner st c nodeId log :
  owner (nodes_at st nodeId) = msg_sender c ->
  claimReward c nodeId st log =
    Ok tt (set_stats nodeId (set_earned 0 (stats_at st nodeId)) st)
       (log ++ [RewardClaimed nodeId (msg_sender c) (earned (stats_at st nodeId))
                  (block_timestamp c)]).
Proof.
  intros Ho. unfold claimReward, update_stats. munfold.
  rewrite Ho, Z.eqb_refl. reflexivity.
Qed.

Lemma claimReward_stranger st c nodeId log :
  owner (nodes_at st nodeId) <> msg_sender c ->
  claimReward c nodeId st log = Err (Revert "Not owner").
Proof.
  intros Ho. unfold claimReward. munfold.
  apply Z.eqb_neq in Ho. rewrite Ho. reflexivity.
Qed.

Lemma recordUptime_ok st c nodeId minutesUp log :
  uptime (stats_at st nodeId) + minutesUp <= MAX_UINT256 ->
  earned (stats_at st nodeId) + minutesUp <= MAX_UINT256 ->
  recordUptime c nodeId minutesUp st log =
    Ok tt
      (set_stats nodeId
         (mkStats (uptime (stats_at st nodeId) + minutesUp) (block_timestamp c)
            (earned (stats_at st nodeId) + minutesUp)) st)
      (log ++ [UptimeRecorded nodeId minutesUp (block_timestamp c)]).
Proof.
  intros Hu He. unfold recordUptime, update_stats. munfold.
  apply Z.leb_le in Hu. rewrite Hu. munfold.
  rewrite !stats_at_set_same. simpl.
  apply Z.leb_le in He. rewrite He. munfold.
  rewrite !stats_at_set_same.
  unfold set_stats, set_earned, set_lastUpdate, set_uptime; simpl.
  rewrite !insert_insert_eq. reflexivity.
Qed.

Lemma stakeToNode_ok st c nodeId log :
  0 < msg_value c ->
  nodeStakes_at st nodeId + msg_value c <= MAX_UINT256 ->
  stakeToNode c nodeId st log =
    Ok tt (set_nodeStakes nodeId (nodeStakes_at st nodeId + msg_value c) st)
      (log ++ [StakeUpdated nodeId (msg_sender c) (msg_value c) (block_timestamp c)]).
Proof.
  intros Hv Hs. unfold stakeToNode. munfold.
  apply Z.ltb_lt in Hv. rewrite Hv. munfold.
  apply Z.leb_le in Hs. rewrite Hs. reflexivity.
Qed.

Lemma stakeToNode_no_value st c nodeId log :
  msg_value c <= 0 ->
  stakeToNode c nodeId st log = Err (Revert "Send funds").
Proof.
  intros Hv. unfold stakeToNode. munfold.
  destruct (Z.ltb_spec 0 (msg_value c)); [lia | reflexivity].
Qed.

(** ** The test suite on the model *)

(** The final assertions of test "should generate all events for subgraph
    testing" hold of the model. *)
Example participation_subgraph_test :
  (uptime (stats_at st_subgraph 0), earned (stats_at st_subgraph 0)) = (180, 0) /\
  (uptime (stats_at st_subgraph 1), earned (stats_at st_subgraph 1)) = (135, 0) /\
  (uptime (stats_at st_subgraph 2), earned (stats_at st_subgraph 2)) = (180, 180) /\
  nodeStakes_at st_subgraph 0 = 35 * 10 ^ 17 /\
  nodeStakes_at st_subgraph 1 = 18 * 10 ^ 17 /\
  nodeStakes_at st_subgraph 2 = 32 * 10 ^ 17 /\
  owner (nodes_at st_subgraph 0) = 1001 /\
  owner (nodes_at st_subgraph 1) = 1002.
Proof. vm_compute. repeat split. Qed.

(** ** C9 *)

(** C9. [claimReward] reverts ("Not owner", the Unauthorized of the design) unless
    the caller is the owner recorded for the node.  Called by the owner it
    emits [RewardClaimed] with the current [earned] balance and sets that
    balance to zero, so a second claim by the owner right after it succeeds
    as well and emits amount zero, leaving the balance at zero. *)
Theorem claimReward_reads_and_zeroes (st : State) (c : Call) (nodeId : Z)
    (log : list Event) :
  (owner (nodes_at st nodeId) <> msg_sender c ->
     claimReward c nodeId st log = Err (Revert "Not owner")) /\
  (owner (nodes_at st nodeId) = msg_sender c ->
     exists st',
       claimReward c nodeId st log =
         Ok tt st'
           (log ++ [RewardClaimed nodeId (msg_sender c) (earned (stats_at st nodeId))
                      (block_timestamp c)]) /\
       earned (stats_at st' nodeId) = 0 /\
       forall (c2 : Call) (log2 : list Event),
         msg_sender c2 = msg_sender c ->
         exists st'',
           claimReward c2 nodeId st' log2 =
             Ok tt st''
               (log2 ++ [RewardClaimed nodeId (msg_sender c2) 0 (block_timestamp c2)]) /\
           earned (stats_at st'' nodeId) = 0).
Proof.
  split.
  - apply claimReward_stranger.
  - intros Ho. eexists. split; [apply claimReward_owner; exact Ho|].
    split; [rewrite stats_at_set_same; reflexivity|].
    intros c2 log2 Hc2. eexists. split.
    + rewrite claimReward_owner.
      * rewrite stats_at_set_same. simpl. reflexivity.
      * rewrite nodes_at_set_stats. congruence.
    + rewrite stats_at_set_same. reflexivity.
Qed.

(** Scenario A of the design document: node 0 registered by its owner, 15
    minutes recorded; the owner claims 15, a stranger is refused. *)
Lemma claimReward_reads_and_zeroes_witness :
  claimReward bob 0 st_nodeA [] = Err (Revert "Not owner") /\
  exists st',
    claimReward alice 0 st_nodeA [] =
      Ok tt st' [RewardClaimed 0 1001 15 1700000000] /\
    earned (stats_at st' 0) = 0.
Proof.
  split.
  - apply (proj1 (claimReward_reads_and_zeroes st_nodeA bob 0 [])).
    vm_compute. discriminate.
  - destruct (proj2 (claimReward_reads_and_zeroes st_nodeA alice 0 []))
      as (st' & H1 & H2 & _).
    + vm_compute. reflexivity.
    + exists st'. split; [exact H1 | exact H2].
Defined.

(** ** C10 *)

(** C10, as the contract has it.  Neither [recordUptime] nor [stakeToNode]
    looks at the registry or at the caller.  For every node id, registered or not, and every caller:
    [recordUptime] succeeds whenever the two sums it forms fit a uint256, in
    particular on an id whose stats were never written, where it creates
    them from zero; [stakeToNode] succeeds whenever the attached value is
    strictly positive and the accumulated stake fits a uint256. *)
Theorem uptime_and_stake_ignore_registration (st : State) (c : Call)
    (nodeId minutesUp : Z) (log : list Event) :
  (uptime (stats_at st nodeId) + minutesUp <= MAX_UINT256 ->
   earned (stats_at st nodeId) + minutesUp <= MAX_UINT256 ->
     exists st',
       recordUptime c nodeId minutesUp st log =
         Ok tt st' (log ++ [UptimeRecorded nodeId minutesUp (block_timestamp c)]) /\
       stats_at st' nodeId =
         mkStats (uptime (stats_at st nodeId) + minutesUp) (block_timestamp c)
           (earned (stats_at st nodeId) + minutesUp) /\
       nodes st' = nodes st /\ nextId st' = nextId st) /\
  (stats st !! nodeId = None -> minutesUp <= MAX_UINT256 ->
     exists st',
       recordUptime c nodeId minutesUp st log =
         Ok tt st' (log ++ [UptimeRecorded nodeId minutesUp (block_timestamp c)]) /\
       stats_at st' nodeId = mkStats minutesUp (block_timestamp c) minutesUp) /\
  (0 < msg_value c -> nodeStakes_at st nodeId + msg_value c <= MAX_UINT256 ->
     exists st',
       stakeToNode c nodeId st log =
         Ok tt st'
           (log ++ [StakeUpdated nodeId (msg_sender c) (msg_value c)
                      (block_timestamp c)]) /\
       nodeStakes_at st' nodeId = nodeStakes_at st nodeId + msg_value c /\
       nodes st' = nodes st /\ nextId st' = nextId st).
Proof.
  split; [|split].
  - intros Hu He. eexists. split; [apply recordUptime_ok; assumption|].
    rewrite stats_at_set_same. auto.
  - intros Hnone Hm.
    assert (Hz : stats_at st nodeId = mkStats 0 0 0)
      by (unfold stats_at; rewrite Hnone; reflexivity).
    eexists. split.
    + apply recordUptime_ok; rewrite Hz; simpl; lia.
    + rewrite stats_at_set_same, Hz. reflexivity.
  - intros Hv Hs. eexists. split; [apply stakeToNode_ok; assumption|].
    split; [|auto].
    unfold nodeStakes_at at 1, set_nodeStakes; simpl.
    rewrite lookup_insert_eq. reflexivity.
Qed.

(** On the freshly deployed contract no node is registered; uptime and stake
    are accepted for node 7 all the same. *)
Lemma uptime_and_stake_ignore_registration_witness :
  nodes initial !! 7 = None /\
  (exists st',
     recordUptime bob 7 42 initial [] = Ok tt st' [UptimeRecorded 7 42 1700000060] /\
     stats_at st' 7 = mkStats 42 1700000060 42) /\
  (exists st',
     stakeToNode carol 7 initial [] = Ok tt st' [StakeUpdated 7 1003 5 1700000120] /\
     nodeStakes_at st' 7 = 5).
Proof.
  destruct (uptime_and_stake_ignore_registration initial bob 7 42 [])
    as (_ & Hrec & _).
  destruct (uptime_and_stake_ignore_registration initial carol 7 42 [])
    as (_ & _ & Hstk).
  split; [reflexivity|]. split.
  - apply Hrec; [reflexivity | vm_compute; discriminate].
  - destruct Hstk as (st' & H1 & H2 & _).
    + vm_compute. reflexivity.
    + vm_compute. discriminate.
    + exists st'. split; [exact H1 | exact H2].
Defined.

(** C10 as documented fails on the contract: the two calls do not succeed
    unconditionally.  On the id 7, which no [registerNode] ever assigned, a
    first report of 2^256 - 1 minutes goes through, and the next report of
    a single minute aborts with the arithmetic-overflow panic, as does
    every later one. *)
Lemma second_report_on_unregistered_id_overflows :
  nodes (fst (transact (recordUptime bob 7 MAX_UINT256) initial)) !! 7 = None /\
  uptime (stats_at (fst (transact (recordUptime bob 7 MAX_UINT256) initial)) 7)
  = MAX_UINT256 /\
  recordUptime alice 7 1 (fst (transact (recordUptime bob 7 MAX_UINT256) initial)) []
  = Err (Panic 17) /\
  (forall st' log',
     recordUptime alice 7 1 (fst (transact (recordUptime bob 7 MAX_UINT256) initial)) []
     <> Ok tt st' log').
Proof.
  split; [vm_compute; reflexivity|].
  split; [vm_compute; reflexivity|].
  assert (H : recordUptime alice 7 1
                (fst (transact (recordUptime bob 7 MAX_UINT256) initial)) []
              = Err (Panic 17)) by (vm_compute; reflexivity).
  split; [exact H|]. intros st' log'. rewrite H. discriminate.
Qed.

End ParticipationProofs.

Module NodeRightsProofs.
Import NodeRightsNFT.

(** ** Reading back what was written *)

Lemma nodeRights_at_set_same st tokenId n :
  nodeRights_at (set_nodeRights tokenId n st) tokenId = n.
Proof. unfold nodeRights_at, set_nodeRights; simpl. by rewrite lookup_insert_eq. Qed.

Lemma nodeRights_at_set_other st tokenId tokenId' n :
  tokenId <> tokenId' ->
  nodeRights_at (set_nodeRights tokenId n st) tokenId' = nodeRights_at st tokenId'.
Proof.
  intros H. unfold nodeRights_at, set_nodeRights; simpl. by rewrite lookup_insert_ne.
Qed.

Lemma set_nodeRights_twice st tokenId n1 n2 :
  set_nodeRights tokenId n2 (set_nodeRights tokenId n1 st) = set_nodeRights tokenId n2 st.
Proof. unfold set_nodeRights; simpl. by rewrite insert_insert_eq. Qed.

Lemma nodeRights_at_set_lpu st tokenId k tokenId' :
  nodeRights_at (set_lastPerformanceUpdate tokenId k st) tokenId' = nodeRights_at st tokenId'.
Proof. reflexivity. Qed.

Lemma set_lpu_set_nodeRights st tokenId k tokenId' n :
  set_lastPerformanceUpdate tokenId k (set_nodeRights tokenId' n st) =
  set_nodeRights tokenId' n (set_lastPerformanceUpdate tokenId k st).
Proof. reflexivity. Qed.

Create Rewrite HintDb storage.
#[local] Hint Rewrite nodeRights_at_set_same nodeRights_at_set_lpu
  set_lpu_set_nodeRights set_nodeRights_twice : storage.

Lemma NodeStatus_eqb_eq a b : NodeStatus_eqb a b = true <-> a = b.
Proof. destruct a, b; simpl; split; congruence. Qed.

Lemma NodeStatus_eqb_neq a b : NodeStatus_eqb a b = false <-> a <> b.
Proof. destruct a, b; simpl; split; congruence. Qed.

Lemma _evaluateNodeStatus_cases score :
  _evaluateNodeStatus score =
    if 9000 <=? score then ACTIVE
    else if 5000 <=? score then SLASHED_MINOR
    else if 2000 <=? score then SLASHED_MAJOR
    else TERMINATED.
Proof. reflexivity. Qed.

(** Case analysis of a successful [updatePerformance]: the checks it passed
    and the record it leaves at [tokenId]. *)
Lemma updatePerformance_inv st c tokenId uptimeSeconds score log st' log' :
  updatePerformance c tokenId uptimeSeconds score st log = Ok tt st' log' ->
  let n := nodeRights_at st tokenId in
  let new := _evaluateNodeStatus score in
  _ownerOf st tokenId <> 0 /\
  (msg_sender c = contractOwner st \/ msg_sender c = participationContract st) /\
  status n <> TERMINATED /\
  totalUptime n + uptimeSeconds <= MAX_UINT256 /\
  exists d,
    st' = set_nodeRights tokenId
            (mkNodeRights (nodeType n) (stakedETH n) d (mintedAt n) (lastRewardClaim n)
               new (totalUptime n + uptimeSeconds) score (metadata n) (isUpgraded n))
            (set_lastPerformanceUpdate tokenId (block_timestamp c) st) /\
    ((new = status n /\ d = stakedDPN n /\
      log' = log ++ [PerformanceUpdated tokenId score uptimeSeconds new]) \/
     (new <> status n /\
      exists penalty reason,
        log' = log ++ [NodeSlashed tokenId new penalty reason;
                       PerformanceUpdated tokenId score uptimeSeconds new] /\
        match new with
        | ACTIVE => penalty = 0
        | SLASHED_MINOR =>
            stakedDPN n * 5 <= MAX_UINT256 /\ penalty = stakedDPN n * 5 / 100
        | SLASHED_MAJOR =>
            stakedDPN n * 15 <= MAX_UINT256 /\ penalty = stakedDPN n * 15 / 100
        | TERMINATED => penalty = stakedDPN n
        end /\
        ((0 < penalty /\ penalty <= stakedDPN n /\ d = stakedDPN n - penalty) \/
         (penalty <= 0 /\ d = stakedDPN n)))).
Proof.
  intros H n new. unfold updatePerformance in H. revert H. munfold.
  destruct (Z.eqb_spec (_ownerOf st tokenId) 0) as [|Hown]; simpl; [discriminate|].
  destruct ((msg_sender c =? contractOwner st) || (msg_sender c =? participationContract st))
    eqn:Hauth; simpl; [|discriminate].
  unfold read_node, update_node. munfold. fold n.
  destruct (NodeStatus_eqb (status n) TERMINATED) eqn:Hterm; simpl; [discriminate|].
  destruct (Z.leb_spec (totalUptime n + uptimeSeconds) MAX_UINT256) as [Hup|];
    [|discriminate].
  munfold. autorewrite with storage. simpl.
  change (nodeRights_at st tokenId) with n. fold new.
  intros H. split; [exact Hown|]. split.
  { apply orb_true_iff in Hauth. destruct Hauth as [Ha|Ha]; apply Z.eqb_eq in Ha; auto. }
  split; [apply NodeStatus_eqb_neq; exact Hterm|]. split; [exact Hup|].
  revert H. destruct (NodeStatus_eqb new (status n)) eqn:Hsame; simpl.
  - autorewrite with storage. simpl. intros H. inversion H; subst. clear H.
    apply NodeStatus_eqb_eq in Hsame.
    exists (stakedDPN n). split.
    + unfold with_performanceScore, with_totalUptime; simpl. rewrite Hsame. reflexivity.
    + left. rewrite <- Hsame. auto.
  - apply NodeStatus_eqb_neq in Hsame.
    unfold _applySlashing, read_node, update_node. munfold.
    autorewrite with storage. simpl.
    destruct new eqn:Hnew; munfold; simpl.
    + intros H. inversion H; subst; clear H.
      exists (stakedDPN n). split.
      * autorewrite with storage. reflexivity.
      * right. split; [exact Hsame|]. exists 0, EmptyString.
        autorewrite with storage. simpl. split; [rewrite <- app_assoc; reflexivity|].
        split; [reflexivity|]. right. split; [lia | reflexivity].
    + destruct (Z.leb_spec (stakedDPN n * 5) MAX_UINT256) as [Hm|]; [|discriminate].
      munfold. simpl.
      destruct (Z.ltb_spec 0 (stakedDPN n * 5 / 100)) as [Hp|Hp]; munfold.
      * destruct (Z.leb_spec (stakedDPN n * 5 / 100) (stakedDPN n)) as [Hle|];
          [|discriminate].
        munfold. intros H. inversion H; subst; clear H.
        exists (stakedDPN n - stakedDPN n * 5 / 100). split.
        -- autorewrite with storage. reflexivity.
        -- right. split; [exact Hsame|]. eexists _, _.
           autorewrite with storage. simpl. split; [rewrite <- app_assoc; reflexivity|].
           split; [split; [exact Hm | reflexivity]|]. left. auto.
      * intros H. inversion H; subst; clear H.
        exists (stakedDPN n). split.
        -- autorewrite with storage. reflexivity.
        -- right. split; [exact Hsame|]. eexists _, _.
           autorewrite with storage. simpl. split; [rewrite <- app_assoc; reflexivity|].
           split; [split; [exact Hm | reflexivity]|]. right. auto.
    + destruct (Z.leb_spec (stakedDPN n * 15) MAX_UINT256) as [Hm|]; [|discriminate].
      munfold. simpl.
      destruct (Z.ltb_spec 0 (stakedDPN n * 15 / 100)) as [Hp|Hp]; munfold.
      * destruct (Z.leb_spec (stakedDPN n * 15 / 100) (stakedDPN n)) as [Hle|];
          [|discriminate].
        munfold. intros H. inversion H; subst; clear H.
        exists (stakedDPN n - stakedDPN n * 15 / 100). split.
        -- autorewrite with storage. reflexivity.
        -- right. split; [exact Hsame|]. eexists _, _.
           autorewrite with storage. simpl. split; [rewrite <- app_assoc; reflexivity|].
           split; [split; [exact Hm | reflexivity]|]. left. auto.
      * intros H. inversion H; subst; clear H.
        exists (stakedDPN n). split.
        -- autorewrite with storage. reflexivity.
        -- right. split; [exact Hsame|]. eexists _, _.
           autorewrite with storage. simpl. split; [rewrite <- app_assoc; reflexivity|].
           split; [split; [exact Hm | reflexivity]|]. right. auto.
    + destruct (Z.ltb_spec 0 (stakedDPN n)) as [Hp|Hp]; munfold.
      * destruct (Z.leb_spec (stakedDPN n) (stakedDPN n)) as [Hle|]; [|lia].
        munfold. intros H. inversion H; subst; clear H.
        exists (stakedDPN n - stakedDPN n). split.
        -- autorewrite with storage. reflexivity.
        -- right. split; [exact Hsame|]. eexists _, _.
           autorewrite with storage. simpl. split; [rewrite <- app_assoc; reflexivity|].
           split; [reflexivity|]. left. auto.
      * intros H. inversion H; subst; clear H.
        exists (stakedDPN n). split.
        -- autorewrite with storage. reflexivity.
        -- right. split; [exact Hsame|]. eexists _, _.
           autorewrite with storage. simpl. split; [rewrite <- app_assoc; reflexivity|].
           split; [reflexivity|]. right. auto.
Qed.

Lemma updatePerformance_unminted st c tokenId uptimeSeconds score log :
  _ownerOf st tokenId = 0 ->
  updatePerformance c tokenId uptimeSeconds score st log
  = Err (Revert "Node does not exist").
Proof. intros H. unfold updatePerformance. munfold. rewrite H. reflexivity. Qed.

Lemma updatePerformance_unauthorized st c tokenId uptimeSeconds score log :
  _ownerOf st tokenId <> 0 ->
  msg_sender c <> contractOwner st ->
  msg_sender c <> participationContract st ->
  updatePerformance c tokenId uptimeSeconds score st log = Err (Revert "Unauthorized").
Proof.
  intros H Ha Hp. unfold updatePerformance. munfold.
  apply Z.eqb_neq in H, Ha, Hp. rewrite H. simpl. rewrite Ha, Hp. reflexivity.
Qed.

Lemma updatePerformance_terminated st c tokenId uptimeSeconds score log :
  _ownerOf st tokenId <> 0 ->
  msg_sender c = contractOwner st \/ msg_sender c = participationContract st ->
  status (nodeRights_at st tokenId) = TERMINATED ->
  updatePerformance c tokenId uptimeSeconds score st log = Err (Revert "Node terminated").
Proof.
  intros H Ha Ht. unfold updatePerformance, read_node. munfold.
  apply Z.eqb_neq in H. rewrite H. simpl.
  assert (Hb : (msg_sender c =? contractOwner st)
               || (msg_sender c =? participationContract st) = true).
  { apply orb_true_iff. destruct Ha as [Ha|Ha]; [left|right]; apply Z.eqb_eq; exact Ha. }
  rewrite Hb. simpl. rewrite Ht. reflexivity.
Qed.

Lemma updatePerformance_succeeds st c tokenId uptimeSeconds score log :
  let n := nodeRights_at st tokenId in
  _ownerOf st tokenId <> 0 ->
  msg_sender c = contractOwner st \/ msg_sender c = participationContract st ->
  status n <> TERMINATED ->
  totalUptime n + uptimeSeconds <= MAX_UINT256 ->
  0 <= stakedDPN n ->
  stakedDPN n * 15 <= MAX_UINT256 ->
  exists st' log', updatePerformance c tokenId uptimeSeconds score st log = Ok tt st' log'.
Proof.
  intros n H Ha Ht Hu H0 H15. unfold updatePerformance, read_node, update_node. munfold.
  apply Z.eqb_neq in H. rewrite H. simpl.
  assert (Hb : (msg_sender c =? contractOwner st)
               || (msg_sender c =? participationContract st) = true).
  { apply orb_true_iff. destruct Ha as [Ha|Ha]; [left|right]; apply Z.eqb_eq; exact Ha. }
  rewrite Hb. simpl. change (nodeRights_at st tokenId) with n.
  apply NodeStatus_eqb_neq in Ht. rewrite Ht. simpl.
  apply Z.leb_le in Hu. rewrite Hu. munfold.
  autorewrite with storage. simpl. change (nodeRights_at st tokenId) with n.
  destruct (NodeStatus_eqb (_evaluateNodeStatus score) (status n)); simpl;
    [eexists _, _; reflexivity|].
  unfold _applySlashing, read_node, update_node. munfold.
  autorewrite with storage. simpl.
  assert (H5 : stakedDPN n * 5 <= MAX_UINT256) by lia.
  assert (Hq5 : stakedDPN n * 5 / 100 <= stakedDPN n)
    by (apply Z.div_le_upper_bound; lia).
  assert (Hq15 : stakedDPN n * 15 / 100 <= stakedDPN n)
    by (apply Z.div_le_upper_bound; lia).
  apply Z.leb_le in H5, H15, Hq5, Hq15.
  destruct (_evaluateNodeStatus score); munfold; simpl.
  - eexists _, _; reflexivity.
  - rewrite H5. munfold. simpl.
    destruct (0 <? stakedDPN n * 5 / 100); munfold;
      [rewrite Hq5|]; eexists _, _; reflexivity.
  - rewrite H15. munfold. simpl.
    destruct (0 <? stakedDPN n * 15 / 100); munfold;
      [rewrite Hq15|]; eexists _, _; reflexivity.
  - destruct (0 <? stakedDPN n); munfold;
      [rewrite Z.leb_refl|]; eexists _, _; reflexivity.
Qed.

(** ** The test suite on the model *)

(** The final assertions of test "should generate all NodeRights events for
    subgraph testing" hold of the model, and so do the stakes the slashing
    tiers leave: node 2 (600 DPN) lost 5% and then 15% of the rest, node 4
    lost everything, node 1 (4000 DPN after its upgrade) lost 5%. *)
Example node_rights_subgraph_test :
  _tokenIdCounter st_subgraph = 5 /\
  status (nodeRights_at st_subgraph 0) = ACTIVE /\
  isUpgraded (nodeRights_at st_subgraph 0) = true /\
  status (nodeRights_at st_subgraph 2) = SLASHED_MAJOR /\
  status (nodeRights_at st_subgraph 4) = TERMINATED /\
  stakedDPN (nodeRights_at st_subgraph 2) = 4845 * 10 ^ 17 /\
  stakedDPN (nodeRights_at st_subgraph 4) = 0 /\
  (status (nodeRights_at st_subgraph 1), stakedDPN (nodeRights_at st_subgraph 1))
    = (SLASHED_MINOR, 3800 * 10 ^ 18) /\
  ownerNodes_at st_subgraph 2001 = [0; 3] /\
  crossChainBridges_at st_subgraph 1 = "polygon-matic"%string.
Proof. vm_compute. repeat split. Qed.

(** ** C5 *)

(** C5. The status evaluated on a performance update depends on the reported
    score alone, with inclusive lower bounds: at least 9000 is ACTIVE, 5000
    to 8999 is SLASHED_MINOR, 2000 to 4999 is SLASHED_MAJOR, below 2000 is
    TERMINATED; the scores 9000, 5000 and 2000 fall in the better tier.
    After every successful [updatePerformance] the stored status is that
    evaluation of the reported score, whatever the status was before. *)
Theorem status_is_a_function_of_the_score (score : Z) :
  (9000 <= score -> _evaluateNodeStatus score = ACTIVE) /\
  (5000 <= score <= 8999 -> _evaluateNodeStatus score = SLASHED_MINOR) /\
  (2000 <= score <= 4999 -> _evaluateNodeStatus score = SLASHED_MAJOR) /\
  (score < 2000 -> _evaluateNodeStatus score = TERMINATED) /\
  _evaluateNodeStatus 9000 = ACTIVE /\
  _evaluateNodeStatus 5000 = SLASHED_MINOR /\
  _evaluateNodeStatus 2000 = SLASHED_MAJOR /\
  (forall st c tokenId uptimeSeconds log st' log',
     updatePerformance c tokenId uptimeSeconds score st log = Ok tt st' log' ->
     status (nodeRights_at st' tokenId) = _evaluateNodeStatus score).
Proof.
  unfold _evaluateNodeStatus.
  repeat split; try reflexivity.
  - intros H. destruct (Z.leb_spec 9000 score); [reflexivity | lia].
  - intros [H1 H2].
    destruct (Z.leb_spec 9000 score); [lia|].
    destruct (Z.leb_spec 5000 score); [reflexivity | lia].
  - intros [H1 H2].
    destruct (Z.leb_spec 9000 score); [lia|].
    destruct (Z.leb_spec 5000 score); [lia|].
    destruct (Z.leb_spec 2000 score); [reflexivity | lia].
  - intros H.
    destruct (Z.leb_spec 9000 score); [lia|].
    destruct (Z.leb_spec 5000 score); [lia|].
    destruct (Z.leb_spec 2000 score); [lia | reflexivity].
  - intros st c tokenId uptimeSeconds log st' log' H.
    apply updatePerformance_inv in H.
    destruct H as (_ & _ & _ & _ & d & Hst & _).
    rewrite Hst, nodeRights_at_set_same. reflexivity.
Qed.

(** A report of 7000 on the freshly minted (ACTIVE) node of the tests. *)
Lemma status_is_a_function_of_the_score_witness :
  _evaluateNodeStatus 7000 = SLASHED_MINOR /\
  exists st' log',
    updatePerformance deployer 0 1800 7000 st_minted [] = Ok tt st' log' /\
    status (nodeRights_at st' 0) = SLASHED_MINOR.
Proof.
  destruct (status_is_a_function_of_the_score 7000) as (_ & Hminor & _ & _ & _ & _ & _ & Hupd).
  split; [apply Hminor; lia|].
  destruct (updatePerformance deployer 0 1800 7000 st_minted []) as [[] st' log'|f] eqn:E.
  - exists st', log'. split; [reflexivity|].
    rewrite (Hupd _ _ _ _ _ _ _ E). apply Hminor; lia.
  - exfalso. revert E. vm_compute. discriminate.
Defined.

(** ** C3 *)

(** C3. When [updatePerformance] evaluates a status that differs from the
    stored one, the call that goes through sets the new status, leaves the
    native stake as it was, and takes from the token stake floor(5%) of its
    previous amount on a change to SLASHED_MINOR, floor(15%) on a change to
    SLASHED_MAJOR and all of it on a change to TERMINATED.  The call does go
    through for an authorised caller on a minted, non-terminated node whose
    uptime sum and penalty product fit a uint256. *)
Theorem slashing_takes_the_tier_share (st : State) (c : Call)
    (tokenId uptimeSeconds score : Z) (log : list Event) :
  let n := nodeRights_at st tokenId in
  let new := _evaluateNodeStatus score in
  0 <= stakedDPN n ->
  new <> status n ->
  (forall st' log',
     updatePerformance c tokenId uptimeSeconds score st log = Ok tt st' log' ->
     let n' := nodeRights_at st' tokenId in
     status n' = new /\
     stakedETH n' = stakedETH n /\
     (new = SLASHED_MINOR -> stakedDPN n - stakedDPN n' = stakedDPN n * 5 / 100) /\
     (new = SLASHED_MAJOR -> stakedDPN n - stakedDPN n' = stakedDPN n * 15 / 100) /\
     (new = TERMINATED -> stakedDPN n - stakedDPN n' = stakedDPN n)) /\
  (_ownerOf st tokenId <> 0 ->
   msg_sender c = contractOwner st \/ msg_sender c = participationContract st ->
   status n <> TERMINATED ->
   totalUptime n + uptimeSeconds <= MAX_UINT256 ->
   stakedDPN n * 15 <= MAX_UINT256 ->
   exists st' log',
     updatePerformance c tokenId uptimeSeconds score st log = Ok tt st' log').
Proof.
  intros n new Hpos Hdiff. split.
  - intros st' log' H n'.
    apply updatePerformance_inv in H.
    destruct H as (_ & _ & _ & _ & d & Hst & Hcases).
    fold n new in Hst, Hcases.
    assert (Hn' : n' = mkNodeRights (nodeType n) (stakedETH n) d (mintedAt n)
                         (lastRewardClaim n) new (totalUptime n + uptimeSeconds) score
                         (metadata n) (isUpgraded n)).
    { unfold n'. rewrite Hst, nodeRights_at_set_same. reflexivity. }
    rewrite Hn'. simpl.
    split; [reflexivity|]. split; [reflexivity|].
    destruct Hcases as [(Hsame & _) | (_ & penalty & reason & _ & Hpen & Hd)];
      [contradiction|].
    repeat split; intros Hnew; rewrite Hnew in Hpen.
    + destruct Hpen as [_ ->].
      destruct Hd as [(_ & _ & ->) | (Hle & ->)]; [lia|].
      assert (0 <= stakedDPN n * 5 / 100) by (apply Z.div_pos; lia). lia.
    + destruct Hpen as [_ ->].
      destruct Hd as [(_ & _ & ->) | (Hle & ->)]; [lia|].
      assert (0 <= stakedDPN n * 15 / 100) by (apply Z.div_pos; lia). lia.
    + subst penalty. destruct Hd as [(_ & _ & ->) | (Hle & ->)]; lia.
  - intros Hown Hauth Hterm Hup H15.
    apply updatePerformance_succeeds; assumption.
Qed.

(** Scenario B: a report of 7000 on the freshly minted node takes exactly 5%
    of the 1000 staked tokens. *)
Lemma slashing_takes_the_tier_share_witness :
  exists st' log',
    updatePerformance deployer 0 1800 7000 st_minted [] = Ok tt st' log' /\
    status (nodeRights_at st' 0) = SLASHED_MINOR /\
    stakedETH (nodeRights_at st' 0) = 10 ^ 18 /\
    stakedDPN (nodeRights_at st' 0) = 950 * 10 ^ 18.
Proof.
  assert (Hpos : 0 <= stakedDPN (nodeRights_at st_minted 0))
    by (vm_compute; discriminate).
  assert (Hdiff : _evaluateNodeStatus 7000 <> status (nodeRights_at st_minted 0))
    by (vm_compute; discriminate).
  destruct (slashing_takes_the_tier_share st_minted deployer 0 1800 7000 [] Hpos Hdiff)
    as [Heff Hok].
  destruct Hok as (st' & log' & E).
  - vm_compute. discriminate.
  - left. reflexivity.
  - vm_compute. discriminate.
  - vm_compute. discriminate.
  - vm_compute. discriminate.
  - exists st', log'. split; [exact E|].
    destruct (Heff st' log' E) as (Hs & He & Hminor & _).
    split; [exact Hs|]. split; [rewrite He; reflexivity|].
    specialize (Hminor eq_refl).
    change (stakedDPN (nodeRights_at st_minted 0)) with (1000 * 10 ^ 18) in Hminor.
    change (1000 * 10 ^ 18 * 5 / 100) with (50 * 10 ^ 18) in Hminor.
    change (1000 * 10 ^ 18) with 1000000000000000000000 in Hminor.
    change (50 * 10 ^ 18) with 50000000000000000000 in Hminor.
    change (950 * 10 ^ 18) with 950000000000000000000.
    lia.
Defined.

(** ** C6 *)

Lemma _min_is_min a b : _min a b = Z.min a b.
Proof. unfold _min. destruct (Z.ltb_spec a b); lia. Qed.

(** Case analysis of a successful [upgradeNode]. *)
Lemma upgradeNode_inv st c tokenId additionalDPN log st' log' :
  upgradeNode c tokenId additionalDPN st log = Ok tt st' log' ->
  let n := nodeRights_at st tokenId in
  let total := stakedETH n + msg_value c in
  let score' := _min (performanceScore n + msg_value c * 100 / total) 12000 in
  _ownerOf st tokenId <> 0 /\
  _ownerOf st tokenId = msg_sender c /\
  status n = ACTIVE /\
  total <= MAX_UINT256 /\
  stakedDPN n + additionalDPN <= MAX_UINT256 /\
  msg_value c * 100 <= MAX_UINT256 /\
  total <> 0 /\
  performanceScore n + msg_value c * 100 / total <= MAX_UINT256 /\
  st' = set_nodeRights tokenId
          (mkNodeRights (nodeType n) total (stakedDPN n + additionalDPN) (mintedAt n)
             (lastRewardClaim n) (status n) (totalUptime n) score' (metadata n) true) st /\
  log' = log ++ [NodeUpgraded tokenId (msg_value c) additionalDPN score'].
Proof.
  intros H n total score'. unfold upgradeNode, read_node, update_node in H.
  revert H. munfold.
  destruct (Z.eqb_spec (_ownerOf st tokenId) 0) as [|Hown]; simpl; [discriminate|].
  destruct (Z.eqb_spec (_ownerOf st tokenId) (msg_sender c)) as [Hsender|]; simpl;
    [|discriminate].
  change (nodeRights_at st tokenId) with n.
  destruct (NodeStatus_eqb (status n) ACTIVE) eqn:Hact; simpl; [|discriminate].
  destruct (Z.leb_spec (stakedETH n + msg_value c) MAX_UINT256) as [He|]; [|discriminate].
  munfold.
  destruct (Z.leb_spec (stakedDPN n + additionalDPN) MAX_UINT256) as [Hd|]; [|discriminate].
  munfold. autorewrite with storage. simpl.
  change (nodeRights_at st tokenId) with n.
  destruct (Z.leb_spec (msg_value c * 100) MAX_UINT256) as [Hm|]; [|discriminate].
  munfold. fold total.
  destruct (Z.eqb_spec total 0) as [|Hz]; [discriminate|].
  munfold.
  destruct (Z.leb_spec (performanceScore n + msg_value c * 100 / total) MAX_UINT256)
    as [Hs|]; [|discriminate].
  munfold. autorewrite with storage. simpl.
  change (PERFORMANCE_DECIMALS * 12 / 10) with 12000. fold score'.
  intros H. inversion H; subst st' log'; clear H.
  apply NodeStatus_eqb_eq in Hact.
  repeat (split; [assumption|]). split; reflexivity.
Qed.

Lemma upgradeNode_ok st c tokenId additionalDPN log :
  let n := nodeRights_at st tokenId in
  let total := stakedETH n + msg_value c in
  let score' := _min (performanceScore n + msg_value c * 100 / total) 12000 in
  _ownerOf st tokenId <> 0 ->
  _ownerOf st tokenId = msg_sender c ->
  status n = ACTIVE ->
  total <= MAX_UINT256 ->
  stakedDPN n + additionalDPN <= MAX_UINT256 ->
  msg_value c * 100 <= MAX_UINT256 ->
  total <> 0 ->
  performanceScore n + msg_value c * 100 / total <= MAX_UINT256 ->
  upgradeNode c tokenId additionalDPN st log =
    Ok tt
      (set_nodeRights tokenId
         (mkNodeRights (nodeType n) total (stakedDPN n + additionalDPN) (mintedAt n)
            (lastRewardClaim n) (status n) (totalUptime n) score' (metadata n) true) st)
      (log ++ [NodeUpgraded tokenId (msg_value c) additionalDPN score']).
Proof.
  intros n total score' Hown Hsender Hact He Hd Hm Hz Hs.
  unfold upgradeNode, read_node, update_node. munfold.
  apply Z.eqb_neq in Hown. rewrite Hown. simpl.
  apply Z.eqb_eq in Hsender. rewrite Hsender. simpl.
  change (nodeRights_at st tokenId) with n. rewrite Hact. simpl.
  apply Z.leb_le in He. fold total. rewrite He. munfold.
  apply Z.leb_le in Hd. rewrite Hd. munfold.
  autorewrite with storage. simpl. change (nodeRights_at st tokenId) with n.
  apply Z.leb_le in Hm. rewrite Hm. munfold.
  apply Z.eqb_neq in Hz. rewrite Hz. munfold.
  apply Z.leb_le in Hs. rewrite Hs. munfold.
  autorewrite with storage. simpl.
  unfold with_performanceScore, with_isUpgraded, with_stakedDPN, with_stakedETH. simpl.
  rewrite Hact. reflexivity.
Qed.

Lemma upgradeNode_unminted st c tokenId additionalDPN log :
  _ownerOf st tokenId = 0 ->
  upgradeNode c tokenId additionalDPN st log = Err (Revert "Node does not exist").
Proof. intros H. unfold upgradeNode. munfold. rewrite H. reflexivity. Qed.

Lemma upgradeNode_not_owner st c tokenId additionalDPN log :
  _ownerOf st tokenId <> 0 ->
  _ownerOf st tokenId <> msg_sender c ->
  upgradeNode c tokenId additionalDPN st log = Err (Revert "Not node owner").
Proof.
  intros H Hs. unfold upgradeNode. munfold.
  apply Z.eqb_neq in H, Hs. rewrite H. simpl. rewrite Hs. reflexivity.
Qed.

Lemma upgradeNode_not_active st c tokenId additionalDPN log :
  _ownerOf st tokenId <> 0 ->
  _ownerOf st tokenId = msg_sender c ->
  status (nodeRights_at st tokenId) <> ACTIVE ->
  upgradeNode c tokenId additionalDPN st log = Err (Revert "Node not active").
Proof.
  intros H Hs Ha. unfold upgradeNode, read_node. munfold.
  apply Z.eqb_neq in H. apply Z.eqb_eq in Hs. rewrite H. simpl. rewrite Hs. simpl.
  apply NodeStatus_eqb_neq in Ha. rewrite Ha. reflexivity.
Qed.

(** C6. [upgradeNode] reverts with "Node does not exist" (NotFound) on an
    unminted token, with "Not node owner" (NotOwner) when the caller is not
    the owner of the minted token, and with "Node not active"
    (NodeNotActive) when the owner calls it on a node that is not ACTIVE.
    A call that goes through adds the attached value to the native stake
    and [additionalDPN] to the token stake, sets [isUpgraded], and sets the
    score to min(old score + (value * 100) / new native stake, 12000), the
    quotient truncated; nothing else in the record changes.  The owner's
    call on an ACTIVE node goes through whenever the new native stake is
    not zero and the sums and the product fit a uint256. *)
Theorem upgradeNode_checks_and_effect (st : State) (c : Call)
    (tokenId additionalDPN : Z) (log : list Event) :
  let n := nodeRights_at st tokenId in
  let total := stakedETH n + msg_value c in
  let boost := msg_value c * 100 / total in
  (_ownerOf st tokenId = 0 ->
     upgradeNode c tokenId additionalDPN st log = Err (Revert "Node does not exist")) /\
  (_ownerOf st tokenId <> 0 -> _ownerOf st tokenId <> msg_sender c ->
     upgradeNode c tokenId additionalDPN st log = Err (Revert "Not node owner")) /\
  (_ownerOf st tokenId <> 0 -> _ownerOf st tokenId = msg_sender c ->
   status n <> ACTIVE ->
     upgradeNode c tokenId additionalDPN st log = Err (Revert "Node not active")) /\
  (forall st' log',
     upgradeNode c tokenId additionalDPN st log = Ok tt st' log' ->
     nodeRights_at st' tokenId =
       mkNodeRights (nodeType n) (stakedETH n + msg_value c) (stakedDPN n + additionalDPN)
         (mintedAt n) (lastRewardClaim n) (status n) (totalUptime n)
         (Z.min (performanceScore n + boost) 12000) (metadata n) true /\
     log' = log ++ [NodeUpgraded tokenId (msg_value c) additionalDPN
                      (Z.min (performanceScore n + boost) 12000)]) /\
  (_ownerOf st tokenId <> 0 -> _ownerOf st tokenId = msg_sender c ->
   status n = ACTIVE ->
   total <> 0 ->
   total <= MAX_UINT256 ->
   stakedDPN n + additionalDPN <= MAX_UINT256 ->
   msg_value c * 100 <= MAX_UINT256 ->
   performanceScore n + boost <= MAX_UINT256 ->
     exists st' log', upgradeNode c tokenId additionalDPN st log = Ok tt st' log') /\
  (0 <= msg_value c -> 0 < total -> boost = Z.quot (msg_value c * 100) total).
Proof.
  intros n total boost.
  split; [apply upgradeNode_unminted|].
  split; [apply upgradeNode_not_owner|].
  split; [apply upgradeNode_not_active|].
  split; [|split].
  - intros st' log' H. apply upgradeNode_inv in H.
    destruct H as (_ & _ & _ & _ & _ & _ & _ & _ & Hst & Hlog).
    fold n total in Hst, Hlog. rewrite _min_is_min in Hst, Hlog.
    rewrite Hst, nodeRights_at_set_same. split; [reflexivity | exact Hlog].
  - intros Hown Hsender Hact Hz He Hd Hm Hs.
    eexists _, _. apply upgradeNode_ok; assumption.
  - intros Hv Ht. unfold boost. symmetry. apply Z.quot_div_nonneg; lia.
Qed.

(** The "Node Upgrades" tests: the owner adds 0.5 ETH and 500 DPN to the
    node minted with 1 ETH, and 0.5 * 100 / 1.5 = 33 points are added to the
    score; another account is refused, and so is an upgrade of token 5,
    which was never minted. *)
Lemma upgradeNode_checks_and_effect_witness :
  upgradeNode addr2 0 (500 * 10 ^ 18) st_minted [] = Err (Revert "Not node owner") /\
  upgradeNode addr1_upgrade 5 (500 * 10 ^ 18) st_minted []
    = Err (Revert "Node does not exist") /\
  exists st' log',
    upgradeNode addr1_upgrade 0 (500 * 10 ^ 18) st_minted [] = Ok tt st' log' /\
    performanceScore (nodeRights_at st' 0) = 10033 /\
    stakedETH (nodeRights_at st' 0) = 15 * 10 ^ 17 /\
    stakedDPN (nodeRights_at st' 0) = 1500 * 10 ^ 18 /\
    isUpgraded (nodeRights_at st' 0) = true.
Proof.
  split; [|split].
  - destruct (upgradeNode_checks_and_effect st_minted addr2 0 (500 * 10 ^ 18) [])
      as (_ & Hno & _).
    apply Hno; vm_compute; discriminate.
  - destruct (upgradeNode_checks_and_effect st_minted addr1_upgrade 5 (500 * 10 ^ 18) [])
      as (Hnone & _).
    apply Hnone. vm_compute. reflexivity.
  - destruct (upgradeNode_checks_and_effect st_minted addr1_upgrade 0 (500 * 10 ^ 18) [])
      as (_ & _ & _ & Heff & Hok & _).
    destruct Hok as (st' & log' & E).
    + vm_compute. discriminate.
    + vm_compute. reflexivity.
    + vm_compute. reflexivity.
    + vm_compute. discriminate.
    + vm_compute. discriminate.
    + vm_compute. discriminate.
    + vm_compute. discriminate.
    + vm_compute. discriminate.
    + exists st', log'. split; [exact E|].
      destruct (Heff st' log' E) as [Hn _]. rewrite Hn.
      repeat split; vm_compute; reflexivity.
Defined.

(** ** C1 *)

Lemma _calculatePendingRewards_inactive st c tokenId log :
  status (nodeRights_at st tokenId) <> ACTIVE ->
  _calculatePendingRewards c tokenId st log = Ok 0 st log.
Proof.
  intros H. unfold _calculatePendingRewards, read_node. munfold.
  apply NodeStatus_eqb_neq in H. rewrite H. reflexivity.
Qed.

(** Case analysis of [_calculatePendingRewards] on an ACTIVE node: it
    returns exactly when none of its checked operations overflows, and then
    it returns [computed_estimate]. *)
Lemma _calculatePendingRewards_active st c tokenId log :
  let n := nodeRights_at st tokenId in
  let cfg := config_at (nodeTypeConfigs st) (nodeType n) in
  let dt := block_timestamp c - lastRewardClaim n in
  let adjusted := baseRewardRate cfg * dt * performanceScore n / 10000 in
  let mult := 10000 + (stakedETH n - minETHStake cfg) * 1000 / minETHStake cfg in
  status n = ACTIVE ->
  (lastRewardClaim n <= block_timestamp c /\
   baseRewardRate cfg * dt <= MAX_UINT256 /\
   baseRewardRate cfg * dt * performanceScore n <= MAX_UINT256 /\
   minETHStake cfg <= stakedETH n /\
   (stakedETH n - minETHStake cfg) * 1000 <= MAX_UINT256 /\
   minETHStake cfg <> 0 /\
   mult <= MAX_UINT256 /\
   adjusted * mult <= MAX_UINT256 /\
   _calculatePendingRewards c tokenId st log =
     Ok (computed_estimate (baseRewardRate cfg) dt (performanceScore n) (stakedETH n)
           (minETHStake cfg)) st log)
  \/ exists code, _calculatePendingRewards c tokenId st log = Err (Panic code).
Proof.
  intros n cfg dt adjusted mult Hact.
  unfold _calculatePendingRewards, read_node. munfold.
  change (nodeRights_at st tokenId) with n.
  change (config_at (nodeTypeConfigs st) (nodeType n)) with cfg.
  rewrite Hact. simpl.
  destruct (Z.leb_spec (lastRewardClaim n) (block_timestamp c)) as [H1|];
    [|right; eexists; reflexivity].
  munfold. fold dt.
  destruct (Z.leb_spec (baseRewardRate cfg * dt) MAX_UINT256) as [H2|];
    [|right; eexists; reflexivity].
  munfold.
  destruct (Z.leb_spec (baseRewardRate cfg * dt * performanceScore n) MAX_UINT256) as [H3|];
    [|right; eexists; reflexivity].
  munfold. change (PERFORMANCE_DECIMALS =? 0) with false. munfold.
  destruct (Z.leb_spec (minETHStake cfg) (stakedETH n)) as [H4|];
    [|right; eexists; reflexivity].
  munfold.
  destruct (Z.leb_spec ((stakedETH n - minETHStake cfg) * 1000) MAX_UINT256) as [H5|];
    [|right; eexists; reflexivity].
  munfold.
  destruct (Z.eqb_spec (minETHStake cfg) 0) as [|H6]; [right; eexists; reflexivity|].
  munfold. change PERFORMANCE_DECIMALS with 10000. fold mult.
  destruct (Z.leb_spec mult MAX_UINT256) as [H7|]; [|right; eexists; reflexivity].
  munfold. fold adjusted.
  destruct (Z.leb_spec (adjusted * mult) MAX_UINT256) as [H8|];
    [|right; eexists; reflexivity].
  munfold. left. repeat (split; [assumption|]). reflexivity.
Qed.

Lemma getNodeDetails_estimate st c tokenId log :
  let n := nodeRights_at st tokenId in
  let cfg := config_at (nodeTypeConfigs st) (nodeType n) in
  _ownerOf st tokenId <> 0 ->
  mintedAt n <= block_timestamp c ->
  getNodeDetails c tokenId st log =
    match _calculatePendingRewards c tokenId st log with
    | Ok r st' log' => Ok (n, cfg, block_timestamp c - mintedAt n, r) st' log'
    | Err f => Err f
    end.
Proof.
  intros n cfg Hown Hm. unfold getNodeDetails, read_node. munfold.
  apply Z.eqb_neq in Hown. rewrite Hown. simpl.
  change (nodeRights_at st tokenId) with n.
  apply Z.leb_le in Hm. rewrite Hm. munfold.
  destruct (_calculatePendingRewards c tokenId st log); reflexivity.
Qed.

(** C1, as the contract has it.  The estimate of a node that is not ACTIVE is
    zero.  For an ACTIVE node whose native stake is at least the (non-zero)
    minimum of its type, the estimate is
    floor(floor(rate * seconds * score / 10000) * m / 10000) with the
    multiplier m = 10000 + floor((staked - minimum) * 1000 / minimum) in
    basis points, that is 1 + (staked - minimum) / (10 * minimum): one tenth
    of the relative excess stake, and exactly 1.0x at the minimum.  The call
    returns whenever these products fit a uint256, it never returns anything
    else, and [getNodeDetails] reports the same number for a minted node. *)
Theorem pending_rewards_estimate (st : State) (c : Call) (tokenId : Z)
    (log : list Event) :
  let n := nodeRights_at st tokenId in
  let cfg := config_at (nodeTypeConfigs st) (nodeType n) in
  let dt := block_timestamp c - lastRewardClaim n in
  let adjusted := baseRewardRate cfg * dt * performanceScore n / 10000 in
  let mult := 10000 + (stakedETH n - minETHStake cfg) * 1000 / minETHStake cfg in
  (status n <> ACTIVE -> _calculatePendingRewards c tokenId st log = Ok 0 st log) /\
  (status n = ACTIVE ->
   lastRewardClaim n <= block_timestamp c ->
   0 < minETHStake cfg <= stakedETH n ->
   baseRewardRate cfg * dt <= MAX_UINT256 ->
   baseRewardRate cfg * dt * performanceScore n <= MAX_UINT256 ->
   (stakedETH n - minETHStake cfg) * 1000 <= MAX_UINT256 ->
   mult <= MAX_UINT256 ->
   adjusted * mult <= MAX_UINT256 ->
     _calculatePendingRewards c tokenId st log = Ok (adjusted * mult / 10000) st log /\
     (stakedETH n = minETHStake cfg -> mult = 10000 /\ adjusted * mult / 10000 = adjusted)) /\
  (forall r st' log',
     _calculatePendingRewards c tokenId st log = Ok r st' log' ->
     st' = st /\ log' = log /\
     r = if NodeStatus_eqb (status n) ACTIVE then adjusted * mult / 10000 else 0) /\
  (_ownerOf st tokenId <> 0 -> mintedAt n <= block_timestamp c ->
   forall r,
     _calculatePendingRewards c tokenId st log = Ok r st log ->
     getNodeDetails c tokenId st log = Ok (n, cfg, block_timestamp c - mintedAt n, r) st log).
Proof.
  intros n cfg dt adjusted mult.
  split; [apply _calculatePendingRewards_inactive|].
  split; [|split].
  - intros Hact H1 [H6 H4] H2 H3 H5 H7 H8.
    destruct (_calculatePendingRewards_active st c tokenId log Hact)
      as [(_ & _ & _ & _ & _ & _ & _ & _ & E) | (code & E)].
    + split; [exact E|].
      intros Heq. fold n cfg in Heq |- *.
      assert (Hm : mult = 10000).
      { unfold mult. fold n cfg. rewrite Heq, Z.sub_diag. simpl.
        rewrite Z.div_0_l by lia. reflexivity. }
      split; [exact Hm|]. rewrite Hm. apply Z.div_mul. lia.
    + exfalso. revert E. unfold _calculatePendingRewards, read_node. munfold.
      change (nodeRights_at st tokenId) with n.
      change (config_at (nodeTypeConfigs st) (nodeType n)) with cfg.
      rewrite Hact. simpl.
      apply Z.leb_le in H1. rewrite H1. munfold. fold dt.
      apply Z.leb_le in H2. rewrite H2. munfold.
      apply Z.leb_le in H3. rewrite H3. munfold.
      change (PERFORMANCE_DECIMALS =? 0) with false. munfold.
      apply Z.leb_le in H4. rewrite H4. munfold.
      apply Z.leb_le in H5. rewrite H5. munfold.
      assert (H6' : (minETHStake cfg =? 0) = false) by (apply Z.eqb_neq; lia).
      rewrite H6'. munfold. change PERFORMANCE_DECIMALS with 10000. fold mult.
      apply Z.leb_le in H7. rewrite H7. munfold. fold adjusted.
      apply Z.leb_le in H8. rewrite H8. munfold. discriminate.
  - intros r st' log' E.
    destruct (NodeStatus_eqb (status n) ACTIVE) eqn:Hact.
    + apply NodeStatus_eqb_eq in Hact.
      destruct (_calculatePendingRewards_active st c tokenId log Hact)
        as [(_ & _ & _ & _ & _ & _ & _ & _ & E') | (code & E')];
        rewrite E' in E; [|discriminate].
      inversion E; subst. auto.
    + apply NodeStatus_eqb_neq in Hact.
      rewrite (_calculatePendingRewards_inactive st c tokenId log Hact) in E.
      inversion E; subst. auto.
  - intros Hown Hm r E.
    rewrite (getNodeDetails_estimate st c tokenId log Hown Hm), E. reflexivity.
Qed.

(** One day of rewards of a STORAGE node holding twice the minimum stake:
    the multiplier is 11000 basis points. *)
Lemma pending_rewards_estimate_witness :
  _calculatePendingRewards day_later 0 st_double_stake []
  = Ok 1099999999999992960 st_double_stake [].
Proof.
  destruct (pending_rewards_estimate st_double_stake day_later 0 []) as (_ & H & _).
  destruct H as [E _].
  - vm_compute. reflexivity.
  - vm_compute. discriminate.
  - split; vm_compute; [reflexivity | discriminate].
  - vm_compute. discriminate.
  - vm_compute. discriminate.
  - vm_compute. discriminate.
  - vm_compute. discriminate.
  - vm_compute. discriminate.
  - rewrite E. vm_compute. reflexivity.
Defined.

(** C1 as documented fails on the contract.  At twice the minimum stake the
    documented multiplier is 2.0x, the contract's is 1.1x: for this minted,
    ACTIVE node the contract reports 1099999999999992960 where the
    documented formula gives 1999999999999987200. *)
Lemma documented_estimate_is_not_computed :
  _ownerOf st_double_stake 0 <> 0 /\
  status (nodeRights_at st_double_stake 0) = ACTIVE /\
  getNodeDetails day_later 0 st_double_stake []
    = Ok (nodeRights_at st_double_stake 0, cfgSTORAGE _setupNodeTypes, 86400,
          1099999999999992960) st_double_stake [] /\
  (documented_at st_double_stake day_later 0 == inject_Z 1999999999999987200)%Q /\
  ~ (inject_Z 1099999999999992960 == documented_at st_double_stake day_later 0)%Q.
Proof.
  split; [vm_compute; discriminate|].
  split; [vm_compute; reflexivity|].
  split; [vm_compute; reflexivity|].
  split.
  - vm_compute. reflexivity.
  - intros H. vm_compute in H. discriminate H.
Qed.

(** ** The owned-token index *)

Lemma remove_scan_drop_first tokenId suffix : forall scanned,
  remove_scan (length suffix) (length scanned) (scanned ++ suffix) tokenId
  = scanned ++ drop_first suffix tokenId.
Proof.
  induction suffix as [|x r IH]; intros scanned; simpl.
  - reflexivity.
  - rewrite list_lookup_middle by reflexivity.
    destruct (Z.eqb_spec x tokenId) as [->|Hne].
    + rewrite last_app. simpl. rewrite last_cons.
      destruct (last r) as [y|] eqn:Hlast.
      * replace (length scanned) with (length scanned + 0)%nat by lia.
        rewrite insert_app_r. simpl.
        apply last_Some in Hlast. destruct Hlast as [r' ->].
        rewrite removelast_last.
        change (scanned ++ y :: r' ++ [y]) with (scanned ++ (y :: r') ++ [y]).
        rewrite app_assoc, removelast_last. reflexivity.
      * apply last_None in Hlast. subst r.
        replace (length scanned) with (length scanned + 0)%nat by lia.
        rewrite insert_app_r. simpl. rewrite removelast_last, app_nil_r. reflexivity.
    + specialize (IH (scanned ++ [x])).
      rewrite length_app in IH. simpl in IH.
      replace (length scanned + 1)%nat with (S (length scanned)) in IH by lia.
      rewrite <- app_assoc in IH. simpl in IH. rewrite IH.
      rewrite <- app_assoc. reflexivity.
Qed.

Lemma remove_owned_drop_first l tokenId : remove_owned l tokenId = drop_first l tokenId.
Proof. apply (remove_scan_drop_first tokenId l []). Qed.

Lemma drop_first_absent l tokenId : tokenId ∉ l -> drop_first l tokenId = l.
Proof.
  induction l as [|x r IH]; simpl; intros H; [reflexivity|].
  apply not_elem_of_cons in H. destruct H as [Hne Hr].
  destruct (Z.eqb_spec x tokenId); [congruence|]. rewrite IH by assumption. reflexivity.
Qed.

Lemma drop_first_present l tokenId :
  tokenId ∈ l -> tokenId :: drop_first l tokenId ≡ₚ l.
Proof.
  induction l as [|x r IH]; simpl; intros H.
  - apply elem_of_nil in H. contradiction.
  - destruct (Z.eqb_spec x tokenId) as [->|Hne].
    + destruct (last r) as [y|] eqn:Hlast.
      * apply last_Some in Hlast. destruct Hlast as [r' ->].
        rewrite removelast_last. constructor.
        change (y :: r') with ([y] ++ r'). apply Permutation_app_comm.
      * apply last_None in Hlast. subst r. reflexivity.
    + apply elem_of_cons in H. destruct H as [->|H]; [congruence|].
      rewrite Permutation_swap. constructor. apply IH. exact H.
Qed.

(** On an array without duplicates the loop removes exactly [tokenId]. *)
Lemma remove_owned_spec l tokenId :
  NoDup l ->
  NoDup (remove_owned l tokenId) /\
  forall x, x ∈ remove_owned l tokenId <-> x ∈ l /\ x <> tokenId.
Proof.
  intros Hnd. rewrite remove_owned_drop_first.
  destruct (decide (tokenId ∈ l)) as [Hin|Hnin].
  - pose proof (drop_first_present l tokenId Hin) as Hp.
    rewrite <- Hp in Hnd. apply NoDup_cons in Hnd. destruct Hnd as [Hnot Hnd'].
    split; [exact Hnd'|].
    intros x. rewrite <- Hp at 2. rewrite elem_of_cons.
    split.
    + intros Hx. split; [right; exact Hx|]. intros ->. contradiction.
    + intros [[->|Hx] Hne]; [congruence | exact Hx].
  - rewrite drop_first_absent by exact Hnin.
    split; [exact Hnd|].
    intros x. split; [|intros [Hx _]; exact Hx].
    intros Hx. split; [exact Hx|]. intros ->. contradiction.
Qed.

(** ** What the state-changing calls leave behind *)

Lemma ownerNodes_at_set_other_fields st a tokenId to :
  ownerNodes_at (set_owners tokenId to (set_tokenApprovals tokenId 0 st)) a
  = ownerNodes_at st a.
Proof. reflexivity. Qed.

Lemma ownerNodes_at_set_same st a l : ownerNodes_at (set_ownerNodes a l st) a = l.
Proof. unfold ownerNodes_at, set_ownerNodes; simpl. by rewrite lookup_insert_eq. Qed.

Lemma ownerNodes_at_set_other st a b l :
  a <> b -> ownerNodes_at (set_ownerNodes a l st) b = ownerNodes_at st b.
Proof. intros H. unfold ownerNodes_at, set_ownerNodes; simpl. by rewrite lookup_insert_ne. Qed.

Lemma transferFrom_inv st c from to tokenId log st' log' :
  transferFrom c from to tokenId st log = Ok tt st' log' ->
  msg_sender c <> 0 ->
  to <> 0 /\ _ownerOf st tokenId = from /\
  _isAuthorized st from (msg_sender c) tokenId = true /\
  log' = log ++ [Transfer from to tokenId] /\
  ((from = 0 /\ st' = set_owners tokenId to st) \/
   (from <> 0 /\ from = to /\ st' = set_owners tokenId to (set_tokenApprovals tokenId 0 st)) \/
   (from <> 0 /\ from <> to /\ st' = moved st from to tokenId)).
Proof.
  intros H Hs. unfold transferFrom, _update, ERC721_update, _checkAuthorized in H.
  revert H. munfold.
  destruct (Z.eqb_spec to 0) as [|Hto]; [discriminate|].
  apply Z.eqb_neq in Hs. rewrite Hs.
  destruct (_isAuthorized st (_ownerOf st tokenId) (msg_sender c) tokenId) eqn:Hauth;
    [|destruct (_ownerOf st tokenId =? 0); discriminate].
  destruct (_ownerOf st tokenId =? 0) eqn:Ez; mred; rewrite ?Ez; mred.
  - apply Z.eqb_eq in Ez.
    destruct (Z.eqb_spec (_ownerOf st tokenId) from) as [Hfrom|]; [|discriminate].
    intros H. inversion H; subst st' log'; clear H.
    do 4 (split; [congruence|]).
    left. split; [congruence | reflexivity].
  - apply Z.eqb_neq in Ez.
    destruct (Z.eqb_spec (_ownerOf st tokenId) to) as [Hsame|Hdiff]; mred.
    + destruct (Z.eqb_spec (_ownerOf st tokenId) from) as [Hfrom|]; [|discriminate].
      intros H. inversion H; subst st' log'; clear H.
      do 4 (split; [congruence|]).
      right. left. repeat split; congruence.
    + destruct (Z.eqb_spec (_ownerOf st tokenId) from) as [Hfrom|]; [|discriminate].
      intros H. inversion H; subst st' log'; clear H.
      do 4 (split; [congruence|]).
      right. right. split; [congruence|]. split; [congruence|].
      rewrite <- Hfrom. unfold moved. rewrite ownerNodes_at_set_other by exact Hdiff.
      rewrite !ownerNodes_at_set_other_fields. reflexivity.
Qed.

Lemma safeTransferFrom_inv st c from to tokenId log st' log' :
  safeTransferFrom c from to tokenId st log = Ok tt st' log' ->
  transferFrom c from to tokenId st log = Ok tt st' log'.
Proof.
  unfold safeTransferFrom. munfold.
  destruct (transferFrom c from to tokenId st log) as [[] s l|]; [|discriminate].
  destruct (onReceived_ok c); [|discriminate]. intros H. inversion H. reflexivity.
Qed.

Lemma mintNodeRights_inv st c t dpn md log st' log' :
  mintNodeRights c t dpn md st log = Ok tt st' log' ->
  let cfg := config_at (nodeTypeConfigs st) t in
  isActive cfg = true /\ minETHStake cfg <= msg_value c /\ minDPNStake cfg <= dpn /\
  _tokenIdCounter st + 1 <= MAX_UINT256 /\
  msg_sender c <> 0 /\ _ownerOf st (_tokenIdCounter st) = 0 /\
  st' = minted st c t dpn md /\
  log' = log ++ [Transfer 0 (msg_sender c) (_tokenIdCounter st);
                 NodeRightsMinted (_tokenIdCounter st) (msg_sender c) t (msg_value c) dpn].
Proof.
  intros H cfg. unfold mintNodeRights, _safeMint, _update, ERC721_update in H.
  revert H. munfold. fold cfg.
  destruct (isActive cfg); simpl; [|discriminate].
  destruct (Z.leb_spec (minETHStake cfg) (msg_value c)) as [He|]; simpl; [|discriminate].
  destruct (Z.leb_spec (minDPNStake cfg) dpn) as [Hd|]; simpl; [|discriminate].
  destruct (Z.leb_spec (_tokenIdCounter st + 1) MAX_UINT256) as [Hc|]; [|discriminate].
  munfold.
  destruct (Z.eqb_spec (msg_sender c) 0) as [|Hs]; [discriminate|].
  change (0 =? 0) with true. cbv iota.
  match goal with
  | |- context [_ownerOf ?s (_tokenIdCounter st)] =>
      change (_ownerOf s (_tokenIdCounter st)) with (_ownerOf st (_tokenIdCounter st))
  end.
  destruct (Z.eqb_spec (_ownerOf st (_tokenIdCounter st)) 0) as [Hfresh|Hused].
  - rewrite Hfresh. simpl.
    destruct (onReceived_ok c); [|discriminate].
    intros H. inversion H; subst st' log'; clear H.
    do 7 (split; [auto|]).
    rewrite <- app_assoc. reflexivity.
  - apply Z.eqb_neq in Hused. rewrite ?Hused.
    destruct (_ownerOf st (_tokenIdCounter st) =? msg_sender c); mred;
      rewrite ?Hused; discriminate.
Qed.

Lemma approve_inv st c to tokenId log st' log' :
  approve c to tokenId st log = Ok tt st' log' ->
  _ownerOf st tokenId <> 0 /\ st' = set_tokenApprovals tokenId to st.
Proof.
  unfold approve. munfold.
  destruct (Z.eqb_spec (_ownerOf st tokenId) 0) as [|Hown]; [discriminate|].
  destruct (negb (msg_sender c =? 0) && negb (_ownerOf st tokenId =? msg_sender c)
            && negb (isApprovedForAll st (_ownerOf st tokenId) (msg_sender c)));
    [discriminate|].
  intros H. inversion H. auto.
Qed.

Lemma setApprovalForAll_inv st c operator approved log st' log' :
  setApprovalForAll c operator approved st log = Ok tt st' log' ->
  st' = set_operatorApprovals (msg_sender c) operator approved st.
Proof.
  unfold setApprovalForAll. munfold.
  destruct (operator =? 0); [discriminate|]. intros H. inversion H. reflexivity.
Qed.

Lemma bridgeToChain_inv st c tokenId chain log st' log' :
  bridgeToChain c tokenId chain st log = Ok tt st' log' ->
  _ownerOf st tokenId <> 0 /\ _ownerOf st tokenId = msg_sender c /\
  st' = set_crossChainBridges tokenId chain st /\
  log' = log ++ [CrossChainBridge tokenId chain (msg_sender c)].
Proof.
  unfold bridgeToChain. munfold.
  destruct (Z.eqb_spec (_ownerOf st tokenId) 0) as [|Hown]; simpl; [discriminate|].
  destruct (Z.eqb_spec (_ownerOf st tokenId) (msg_sender c)) as [Hs|]; simpl;
    [|discriminate].
  intros H. inversion H. auto.
Qed.

Lemma admin_inv st c op log st' log' :
  match op with
  | SetParticipationContract _ | SetDPNTokenContract _ | UpdateNodeTypeConfig _ _ _ _ _
  | TransferOwnership _ | RenounceOwnership => True
  | _ => False
  end ->
  call c op st log = Ok tt st' log' ->
  _owners st' = _owners st /\ ownerNodes st' = ownerNodes st /\
  _tokenIdCounter st' = _tokenIdCounter st /\ _tokenApprovals st' = _tokenApprovals st /\
  _operatorApprovals st' = _operatorApprovals st /\ nodeRights st' = nodeRights st.
Proof.
  destruct op; simpl; try contradiction; intros _;
    unfold setParticipationContract, setDPNTokenContract, updateNodeTypeConfig,
      transferOwnership, renounceOwnership, onlyOwner; munfold;
    destruct (contractOwner st =? msg_sender c); try discriminate.
  - intros H; inversion H; auto 10.
  - intros H; inversion H; auto 10.
  - intros H; inversion H; auto 10.
  - destruct (newOwner =? 0); [discriminate|]. intros H; inversion H; auto 10.
  - intros H; inversion H; auto 10.
Qed.

(** ** Invariants of the reachable states *)

Lemma Inv_initial deployer : Inv (initial deployer).
Proof.
  constructor; intros; try reflexivity; try discriminate;
    unfold ownerNodes_at, _ownerOf, nodeRights_at, initial in *; simpl in *;
    rewrite ?lookup_empty in *; simpl in *.
  all: try solve [constructor | congruence | lia].
  split; [intros H; apply elem_of_nil in H; contradiction | intros [? ?]; congruence].
Qed.

(** A call that writes none of the owner table, the index, the counter, the
    approvals and the node records keeps the invariants. *)
Lemma Inv_frame st st' :
  _owners st' = _owners st -> ownerNodes st' = ownerNodes st ->
  _tokenIdCounter st' = _tokenIdCounter st -> _tokenApprovals st' = _tokenApprovals st ->
  _operatorApprovals st' = _operatorApprovals st -> nodeRights st' = nodeRights st ->
  Inv st -> Inv st'.
Proof.
  intros H1 H2 H3 H4 H5 H6 [i1 i2 i3 i4 i5 i6 i7].
  constructor;
    unfold ownerNodes_at, _ownerOf, getApproved, isApprovedForAll, nodeRights_at in *;
    rewrite ?H1, ?H2, ?H3, ?H4, ?H5, ?H6; assumption.
Qed.

(** A call that rewrites one node record, keeping TERMINATED nodes without
    token stake, keeps the invariants. *)
Lemma Inv_set_node st tokenId n :
  Inv st -> 0 <= stakedDPN n -> (status n = TERMINATED -> stakedDPN n = 0) ->
  Inv (set_nodeRights tokenId n st).
Proof.
  intros [i1 i2 i3 i4 i5 i6 i7] Hpos Hterm.
  constructor; try assumption.
  - intros t. destruct (decide (tokenId = t)) as [->|Hne].
    + rewrite nodeRights_at_set_same. exact Hterm.
    + rewrite nodeRights_at_set_other by exact Hne. apply i6.
  - intros t. destruct (decide (tokenId = t)) as [->|Hne].
    + rewrite nodeRights_at_set_same. exact Hpos.
    + rewrite nodeRights_at_set_other by exact Hne. apply i7.
Qed.

Lemma _ownerOf_set_owners st tokenId a t :
  _ownerOf (set_owners tokenId a st) t = if decide (tokenId = t) then a else _ownerOf st t.
Proof. unfold _ownerOf, set_owners; simpl. rewrite lookup_insert. by case_decide. Qed.

Lemma ownerNodes_at_set_ownerNodes st a l b :
  ownerNodes_at (set_ownerNodes a l st) b = if decide (a = b) then l else ownerNodes_at st b.
Proof. unfold ownerNodes_at, set_ownerNodes; simpl. rewrite lookup_insert. by case_decide. Qed.

Lemma getApproved_set_tokenApprovals st tokenId a t :
  getApproved (set_tokenApprovals tokenId a st) t
  = if decide (tokenId = t) then a else getApproved st t.
Proof.
  unfold getApproved, set_tokenApprovals; simpl. rewrite lookup_insert. by case_decide.
Qed.

Lemma isApprovedForAll_set_operatorApprovals st o p b o' p' :
  isApprovedForAll (set_operatorApprovals o p b st) o' p'
  = if decide ((o, p) = (o', p')) then b else isApprovedForAll st o' p'.
Proof.
  unfold isApprovedForAll, set_operatorApprovals; simpl. rewrite lookup_insert.
  by case_decide.
Qed.

Lemma Inv_minted st c t dpn md :
  Inv st -> msg_sender c <> 0 -> _ownerOf st (_tokenIdCounter st) = 0 -> 0 <= dpn ->
  Inv (minted st c t dpn md).
Proof.
  intros [i1 i2 i3 i4 i5 i6 i7] Hs Hfresh Hdpn.
  set (k := _tokenIdCounter st) in *.
  assert (Hown : forall x, _ownerOf (minted st c t dpn md) x
                           = if decide (k = x) then msg_sender c else _ownerOf st x).
  { intros x. unfold minted. rewrite _ownerOf_set_owners. reflexivity. }
  assert (Hidx : forall a, ownerNodes_at (minted st c t dpn md) a
                           = if decide (msg_sender c = a)
                             then ownerNodes_at st (msg_sender c) ++ [k]
                             else ownerNodes_at st a).
  { intros a. unfold minted, ownerNodes_at, set_owners, set_ownerNodes; simpl.
    rewrite lookup_insert. by case_decide. }
  assert (Hnode : forall x, nodeRights_at (minted st c t dpn md) x
                            = if decide (k = x)
                              then mkNodeRights t (msg_value c) dpn (block_timestamp c)
                                     (block_timestamp c) ACTIVE 0 PERFORMANCE_DECIMALS md false
                              else nodeRights_at st x).
  { intros x. unfold minted, nodeRights_at, set_owners, set_ownerNodes, set_nodeRights; simpl.
    fold k. rewrite lookup_insert. by case_decide. }
  assert (Hnotin : forall a, k ∉ ownerNodes_at st a).
  { intros a Hin. apply i1 in Hin. destruct Hin as [Ha Ho]. congruence. }
  constructor.
  - intros a x. rewrite Hown, Hidx.
    destruct (decide (msg_sender c = a)) as [<-|Hna]; destruct (decide (k = x)) as [<-|Hnk].
    + rewrite elem_of_app, list_elem_of_singleton. tauto.
    + rewrite elem_of_app, list_elem_of_singleton, i1. split.
      * intros [H|H]; [exact H | congruence].
      * intros H. left. exact H.
    + split; [intros H; exfalso; exact (Hnotin a H) | intros [_ H]; congruence].
    + apply i1.
  - intros a. rewrite Hidx. destruct (decide (msg_sender c = a)) as [<-|Hna]; [|apply i2].
    apply NoDup_app. split; [apply i2|]. split; [|apply NoDup_singleton].
    intros x Hx Hk. apply list_elem_of_singleton in Hk. subst x. exact (Hnotin _ Hx).
  - intros x. rewrite Hown. unfold minted; simpl. fold k.
    destruct (decide (k = x)) as [<-|Hnk]; [lia|]. intros H. specialize (i3 x H). lia.
  - intros x. rewrite Hown.
    destruct (decide (k = x)) as [<-|Hnk]; [congruence|]. apply i4.
  - exact i5.
  - intros x. rewrite Hnode. destruct (decide (k = x)); [discriminate | apply i6].
  - intros x. rewrite Hnode. destruct (decide (k = x)); [exact Hdpn | apply i7].
Qed.

Lemma Inv_moved st from to tokenId :
  Inv st -> from <> 0 -> to <> 0 -> from <> to -> _ownerOf st tokenId = from ->
  Inv (moved st from to tokenId).
Proof.
  intros [i1 i2 i3 i4 i5 i6 i7] Hfrom Hto Hne Hown.
  assert (Ho : forall x, _ownerOf (moved st from to tokenId) x
                         = if decide (tokenId = x) then to else _ownerOf st x).
  { intros x. unfold moved, _ownerOf, set_owners, set_ownerNodes, set_tokenApprovals; simpl.
    rewrite lookup_insert. by case_decide. }
  assert (Hidx : forall a, ownerNodes_at (moved st from to tokenId) a
                           = if decide (to = a) then ownerNodes_at st to ++ [tokenId]
                             else if decide (from = a)
                                  then remove_owned (ownerNodes_at st from) tokenId
                                  else ownerNodes_at st a).
  { intros a. unfold moved. rewrite !ownerNodes_at_set_ownerNodes.
    repeat case_decide; try reflexivity; congruence. }
  assert (Happ : forall x, getApproved (moved st from to tokenId) x
                           = if decide (tokenId = x) then 0 else getApproved st x).
  { intros x. unfold moved, getApproved, set_owners, set_ownerNodes, set_tokenApprovals; simpl.
    rewrite lookup_insert. by case_decide. }
  destruct (remove_owned_spec (ownerNodes_at st from) tokenId (i2 from)) as [Hnd Hrem].
  assert (Hnotin : tokenId ∉ ownerNodes_at st to).
  { intros Hin. apply i1 in Hin. destruct Hin as [_ Hin]. congruence. }
  constructor.
  - intros a x. rewrite Ho, Hidx.
    destruct (decide (to = a)) as [<-|Hna].
    + rewrite elem_of_app, list_elem_of_singleton, i1.
      destruct (decide (tokenId = x)) as [<-|Hnx]; [tauto|].
      split; [intros [H|H]; [exact H | congruence] | intros H; left; exact H].
    + destruct (decide (from = a)) as [<-|Hnf].
      * rewrite Hrem, i1. destruct (decide (tokenId = x)) as [<-|Hnx].
        -- split; [intros [_ H]; congruence | intros [_ H]; congruence].
        -- split; [intros [H _]; exact H | intros H; split; [exact H | congruence]].
      * rewrite i1. destruct (decide (tokenId = x)) as [<-|Hnx]; [|reflexivity].
        split; [intros [_ H]; congruence | intros [_ H]; congruence].
  - intros a. rewrite Hidx.
    destruct (decide (to = a)) as [<-|Hna].
    + apply NoDup_app. split; [apply i2|]. split; [|apply NoDup_singleton].
      intros x Hx Hk. apply list_elem_of_singleton in Hk. subst x. contradiction.
    + destruct (decide (from = a)); [exact Hnd | apply i2].
  - intros x. rewrite Ho. unfold moved; simpl.
    destruct (decide (tokenId = x)) as [<-|Hnx]; [|apply i3].
    intros _. apply i3. congruence.
  - intros x. rewrite Ho, Happ.
    destruct (decide (tokenId = x)) as [<-|Hnx]; [reflexivity | apply i4].
  - exact i5.
  - exact i6.
  - exact i7.
Qed.

Lemma Inv_set_owner_same st tokenId a :
  Inv st -> _ownerOf st tokenId = a -> a <> 0 ->
  Inv (set_owners tokenId a (set_tokenApprovals tokenId 0 st)).
Proof.
  intros [i1 i2 i3 i4 i5 i6 i7] Hown Ha.
  assert (Ho : forall x, _ownerOf (set_owners tokenId a (set_tokenApprovals tokenId 0 st)) x
                         = _ownerOf st x).
  { intros x. rewrite _ownerOf_set_owners. destruct (decide (tokenId = x)) as [<-|];
      [symmetry; exact Hown | reflexivity]. }
  constructor; try assumption.
  - intros b x. rewrite Ho. apply i1.
  - intros x. rewrite Ho. apply i3.
  - intros x. rewrite Ho. intros Hx.
    change (getApproved (set_owners tokenId a ?s) x) with (getApproved s x).
    unfold getApproved, set_owners, set_tokenApprovals; simpl.
    rewrite lookup_insert. case_decide; [reflexivity | apply i4; exact Hx].
Qed.

Lemma Inv_approve st tokenId a :
  Inv st -> _ownerOf st tokenId <> 0 -> Inv (set_tokenApprovals tokenId a st).
Proof.
  intros [i1 i2 i3 i4 i5 i6 i7] Hown.
  constructor; try assumption.
  intros x Hx. rewrite getApproved_set_tokenApprovals.
  destruct (decide (tokenId = x)) as [<-|]; [contradiction | apply i4; exact Hx].
Qed.

Lemma Inv_setApprovalForAll st o p b :
  Inv st -> o <> 0 -> Inv (set_operatorApprovals o p b st).
Proof.
  intros [i1 i2 i3 i4 i5 i6 i7] Ho.
  constructor; try assumption.
  intros a. rewrite isApprovedForAll_set_operatorApprovals.
  case_decide as E; [congruence | apply i5].
Qed.

(** A token nobody owns cannot be moved: no account is authorised for it. *)
Lemma unminted_not_authorized st spender tokenId :
  Inv st -> spender <> 0 -> _ownerOf st tokenId = 0 ->
  _isAuthorized st 0 spender tokenId = false.
Proof.
  intros [i1 i2 i3 i4 i5 i6 i7] Hs Hown. unfold _isAuthorized.
  rewrite i5, (i4 _ Hown).
  destruct (Z.eqb_spec spender 0); [contradiction|].
  destruct (Z.eqb_spec 0 spender); [congruence|]. reflexivity.
Qed.

Lemma Inv_transferFrom st c from to tokenId log st' log' :
  Inv st -> wf_call c ->
  transferFrom c from to tokenId st log = Ok tt st' log' -> Inv st'.
Proof.
  intros HI [Hs _] E.
  apply transferFrom_inv in E; [|exact Hs].
  destruct E as (Hto & Hown & Hauth & _ & [(Hz & ->) | [(Hnz & Hsame & ->) | (Hnz & Hdiff & ->)]]).
  - rewrite Hz in Hauth, Hown.
    rewrite unminted_not_authorized in Hauth by assumption. discriminate.
  - apply Inv_set_owner_same; [assumption | congruence | assumption].
  - apply Inv_moved; assumption.
Qed.

Theorem Inv_step st c op : Inv st -> wf_call c -> wf_op op -> Inv (step c op st).
Proof.
  intros HI Hc Hop. unfold step, transact.
  destruct (call c op st []) as [[] st' log'|f] eqn:E; simpl; [|exact HI].
  destruct op; simpl in E.
  - apply mintNodeRights_inv in E.
    destruct E as (_ & _ & _ & _ & Hs & Hfresh & -> & _).
    apply Inv_minted; try assumption. apply Hop.
  - apply upgradeNode_inv in E.
    destruct E as (_ & _ & Hact & _ & _ & _ & _ & _ & -> & _).
    apply Inv_set_node; [exact HI | | simpl; congruence].
    simpl. pose proof (inv_stake st HI tokenId). destruct Hop as [_ [? _]]. lia.
  - apply updatePerformance_inv in E.
    destruct E as (_ & _ & Hterm & _ & d & -> & Hcases).
    pose proof (inv_stake st HI tokenId) as Hpos.
    apply Inv_set_node.
    + eapply Inv_frame; [..|exact HI]; reflexivity.
    + simpl. destruct Hcases as [(_ & -> & _) | (_ & p & r & _ & _ & [(_ & ? & ->) | (_ & ->)])];
        lia.
    + simpl. intros Hnew.
      destruct Hcases as [(Hsame & _ & _) | (_ & p & r & _ & Hpen & Hd)]; [congruence|].
      rewrite Hnew in Hpen. subst p.
      destruct Hd as [(_ & _ & ->) | (? & ->)]; lia.
  - apply bridgeToChain_inv in E. destruct E as (_ & _ & -> & _).
    eapply Inv_frame; [..|exact HI]; reflexivity.
  - eapply Inv_transferFrom; eassumption.
  - apply safeTransferFrom_inv in E. eapply Inv_transferFrom; eassumption.
  - apply approve_inv in E. destruct E as [Hown ->]. apply Inv_approve; assumption.
  - apply setApprovalForAll_inv in E. subst st'.
    apply Inv_setApprovalForAll; [assumption | apply Hc].
  - eapply (admin_inv st c (SetParticipationContract a)) in E; [|exact I].
    destruct E as (?&?&?&?&?&?). eapply Inv_frame; eassumption.
  - eapply (admin_inv st c (SetDPNTokenContract a)) in E; [|exact I].
    destruct E as (?&?&?&?&?&?). eapply Inv_frame; eassumption.
  - eapply (admin_inv st c (UpdateNodeTypeConfig _ _ _ _ _)) in E; [|exact I].
    destruct E as (?&?&?&?&?&?). eapply Inv_frame; eassumption.
  - eapply (admin_inv st c (TransferOwnership _)) in E; [|exact I].
    destruct E as (?&?&?&?&?&?). eapply Inv_frame; eassumption.
  - eapply (admin_inv st c RenounceOwnership) in E; [|exact I].
    destruct E as (?&?&?&?&?&?). eapply Inv_frame; eassumption.
Qed.

Lemma reachable_Inv st : reachable st -> Inv st.
Proof.
  induction 1 as [deployer Hd | st c op Hr IH Hc Hop].
  - apply Inv_initial.
  - apply Inv_step; assumption.
Qed.

Lemma steps_Inv st st' : Inv st -> steps st st' -> Inv st'.
Proof.
  intros HI. induction 1 as [| st st' c op Hs IH Hc Hop]; [exact HI|].
  apply Inv_step; auto.
Qed.

(** ** C8 *)

Lemma st_minted_reachable : reachable st_minted.
Proof.
  apply reachable_step.
  - apply reachable_initial. discriminate.
  - split; [discriminate | split; vm_compute; discriminate].
  - split; vm_compute; discriminate.
Qed.

Lemma st_transferred_reachable : reachable st_transferred.
Proof.
  apply reachable_step.
  - apply st_minted_reachable.
  - split; [discriminate | split; vm_compute; discriminate].
  - split; vm_compute; discriminate.
Qed.

(** C8. In every reachable state the owner index is exactly the inverse of
    the owner table: a token id is listed under an account if and only if
    that account (never the zero address) is its owner, and no list holds an
    id twice.  A transfer between two different accounts that goes through
    makes the recipient the owner, removes the id from the previous owner's
    list, whose other ids stay, and appends it to the recipient's list, all
    in the one call; a mint appends the new id to the list of the caller,
    who becomes its owner. *)
Theorem owner_index_is_inverse_of_owner_table (st : State) :
  reachable st ->
  (forall a t, t ∈ ownerNodes_at st a <-> a <> 0 /\ _ownerOf st t = a) /\
  (forall a, NoDup (ownerNodes_at st a)) /\
  (forall c from to tokenId log st' log',
     wf_call c -> from <> to ->
     transferFrom c from to tokenId st log = Ok tt st' log' ->
     _ownerOf st tokenId = from /\
     _ownerOf st' tokenId = to /\
     ownerNodes_at st' from = remove_owned (ownerNodes_at st from) tokenId /\
     (forall x, x ∈ ownerNodes_at st' from <-> x ∈ ownerNodes_at st from /\ x <> tokenId) /\
     ownerNodes_at st' to = ownerNodes_at st to ++ [tokenId] /\
     (forall a, a <> from -> a <> to -> ownerNodes_at st' a = ownerNodes_at st a)) /\
  (forall c t dpn md log st' log',
     mintNodeRights c t dpn md st log = Ok tt st' log' ->
     _ownerOf st (_tokenIdCounter st) = 0 /\
     _ownerOf st' (_tokenIdCounter st) = msg_sender c /\
     ownerNodes_at st' (msg_sender c)
       = ownerNodes_at st (msg_sender c) ++ [_tokenIdCounter st]).
Proof.
  intros Hr. pose proof (reachable_Inv st Hr) as HI.
  split; [apply (inv_index st HI)|]. split; [apply (inv_nodup st HI)|].
  split; [|intros c t dpn md log st' log' E;
           apply mintNodeRights_inv in E;
           destruct E as (_ & _ & _ & _ & _ & Hfresh & -> & _);
           split; [exact Hfresh|]; split;
           [unfold minted; rewrite _ownerOf_set_owners; case_decide; congruence
           |unfold minted, ownerNodes_at, set_owners, set_ownerNodes; simpl;
            rewrite lookup_insert_eq; reflexivity]].
  intros c from to tokenId log st' log' Hc Hne E.
  pose proof Hc as [Hs _].
  apply transferFrom_inv in E; [|exact Hs].
  destruct E as (Hto & Hown & Hauth & _ & [(Hz & ->) | [(Hnz & Hsame & ->) | (Hnz & _ & ->)]]).
  - rewrite Hz in Hauth, Hown.
    rewrite unminted_not_authorized in Hauth by assumption. discriminate.
  - contradiction.
  - split; [exact Hown|].
    assert (Hidx : forall a, ownerNodes_at (moved st from to tokenId) a
                             = if decide (to = a) then ownerNodes_at st to ++ [tokenId]
                               else if decide (from = a)
                                    then remove_owned (ownerNodes_at st from) tokenId
                                    else ownerNodes_at st a).
    { intros a. unfold moved. rewrite !ownerNodes_at_set_ownerNodes.
      repeat case_decide; try reflexivity; congruence. }
    split.
    { unfold moved, _ownerOf, set_owners, set_ownerNodes, set_tokenApprovals; simpl.
      rewrite lookup_insert_eq. reflexivity. }
    assert (Hf : ownerNodes_at (moved st from to tokenId) from
                 = remove_owned (ownerNodes_at st from) tokenId).
    { rewrite Hidx. repeat case_decide; try reflexivity; congruence. }
    split; [exact Hf|]. split.
    { intros x. rewrite Hf.
      apply (remove_owned_spec (ownerNodes_at st from) tokenId (inv_nodup st HI from)). }
    split.
    { rewrite Hidx. repeat case_decide; try reflexivity; congruence. }
    intros a Hf' Ht'. rewrite Hidx. repeat case_decide; try reflexivity; congruence.
Qed.

(** Token 0 is listed under its minter; once handed over it is listed under
    the recipient only. *)
Lemma owner_index_is_inverse_of_owner_table_witness :
  ownerNodes_at st_minted 2001 = [0] /\
  _ownerOf st_transferred 0 = 2002 /\
  ownerNodes_at st_transferred 2001 = [] /\
  ownerNodes_at st_transferred 2002 = [0] /\
  (0 ∈ ownerNodes_at st_transferred 2002 <-> 2002 <> 0 /\ _ownerOf st_transferred 0 = 2002).
Proof.
  destruct (owner_index_is_inverse_of_owner_table st_transferred st_transferred_reachable)
    as (Hinv & _).
  destruct (owner_index_is_inverse_of_owner_table st_minted st_minted_reachable)
    as (_ & _ & Hmove & _).
  split; [vm_compute; reflexivity|].
  destruct (Hmove addr1_plain 2001 2002 0 [] st_transferred [Transfer 2001 2002 0])
    as (_ & Hto & Hfrom & _ & Hnew & _).
  - split; [discriminate | split; vm_compute; discriminate].
  - discriminate.
  - vm_compute. reflexivity.
  - split; [exact Hto|]. split; [rewrite Hfrom; vm_compute; reflexivity|].
    split; [rewrite Hnew; vm_compute; reflexivity|]. apply Hinv.
Defined.

(** ** C4 *)

(** A minted node stays minted, and a TERMINATED one stays TERMINATED. *)
Lemma terminated_step st c op tokenId :
  Inv st -> wf_call c ->
  _ownerOf st tokenId <> 0 -> status (nodeRights_at st tokenId) = TERMINATED ->
  _ownerOf (step c op st) tokenId <> 0 /\
  status (nodeRights_at (step c op st) tokenId) = TERMINATED.
Proof.
  intros HI Hc Hown Hterm. unfold step, transact.
  destruct (call c op st []) as [[] st' log'|f] eqn:E; simpl; [|auto].
  destruct op; simpl in E.
  - apply mintNodeRights_inv in E.
    destruct E as (_ & _ & _ & _ & Hs & Hfresh & -> & _).
    assert (Hne : _tokenIdCounter st <> tokenId).
    { pose proof (inv_counter st HI tokenId Hown). lia. }
    split.
    + unfold minted. rewrite _ownerOf_set_owners.
      destruct (decide (_tokenIdCounter st = tokenId)); [contradiction | exact Hown].
    + unfold minted, nodeRights_at, set_owners, set_ownerNodes, set_nodeRights; simpl.
      rewrite lookup_insert_ne by exact Hne. exact Hterm.
  - apply upgradeNode_inv in E.
    destruct E as (_ & _ & Hact & _ & _ & _ & _ & _ & -> & _).
    split; [exact Hown|].
    destruct (decide (tokenId0 = tokenId)) as [->|Hne]; [congruence|].
    rewrite nodeRights_at_set_other by exact Hne. exact Hterm.
  - apply updatePerformance_inv in E.
    destruct E as (_ & _ & Hnt & _ & d & -> & _).
    split; [exact Hown|].
    destruct (decide (tokenId0 = tokenId)) as [->|Hne]; [congruence|].
    rewrite nodeRights_at_set_other by exact Hne. exact Hterm.
  - apply bridgeToChain_inv in E. destruct E as (_ & _ & -> & _). auto.
  - apply transferFrom_inv in E; [|apply Hc].
    destruct E as (Hto & Ho & _ & _ & [(_ & ->) | [(_ & _ & ->) | (_ & _ & ->)]]);
      (split; [|exact Hterm]).
    + rewrite _ownerOf_set_owners. case_decide; assumption.
    + rewrite _ownerOf_set_owners. case_decide; assumption.
    + unfold moved, _ownerOf, set_owners, set_ownerNodes, set_tokenApprovals; simpl.
      rewrite lookup_insert. case_decide; [exact Hto | exact Hown].
  - apply safeTransferFrom_inv in E. apply transferFrom_inv in E; [|apply Hc].
    destruct E as (Hto & Ho & _ & _ & [(_ & ->) | [(_ & _ & ->) | (_ & _ & ->)]]);
      (split; [|exact Hterm]).
    + rewrite _ownerOf_set_owners. case_decide; assumption.
    + rewrite _ownerOf_set_owners. case_decide; assumption.
    + unfold moved, _ownerOf, set_owners, set_ownerNodes, set_tokenApprovals; simpl.
      rewrite lookup_insert. case_decide; [exact Hto | exact Hown].
  - apply approve_inv in E. destruct E as [_ ->]. auto.
  - apply setApprovalForAll_inv in E. subst st'. auto.
  - eapply (admin_inv st c (SetParticipationContract a)) in E; [|exact I].
    destruct E as (Ho&_&_&_&_&Hn). unfold _ownerOf, nodeRights_at. rewrite Ho, Hn. auto.
  - eapply (admin_inv st c (SetDPNTokenContract a)) in E; [|exact I].
    destruct E as (Ho&_&_&_&_&Hn). unfold _ownerOf, nodeRights_at. rewrite Ho, Hn. auto.
  - eapply (admin_inv st c (UpdateNodeTypeConfig _ _ _ _ _)) in E; [|exact I].
    destruct E as (Ho&_&_&_&_&Hn). unfold _ownerOf, nodeRights_at. rewrite Ho, Hn. auto.
  - eapply (admin_inv st c (TransferOwnership _)) in E; [|exact I].
    destruct E as (Ho&_&_&_&_&Hn). unfold _ownerOf, nodeRights_at. rewrite Ho, Hn. auto.
  - eapply (admin_inv st c RenounceOwnership) in E; [|exact I].
    destruct E as (Ho&_&_&_&_&Hn). unfold _ownerOf, nodeRights_at. rewrite Ho, Hn. auto.
Qed.

Lemma terminated_steps st st' tokenId :
  Inv st -> steps st st' ->
  _ownerOf st tokenId <> 0 -> status (nodeRights_at st tokenId) = TERMINATED ->
  Inv st' /\ _ownerOf st' tokenId <> 0 /\ status (nodeRights_at st' tokenId) = TERMINATED.
Proof.
  intros HI Hs Hown Hterm.
  induction Hs as [| st st' c op Hs IH Hc Hop]; [auto|].
  destruct (IH HI Hown Hterm) as (HI' & Hown' & Hterm').
  split; [apply Inv_step; assumption|].
  apply terminated_step; assumption.
Qed.

(** C4, as the contract has it.  Let a performance update on a reachable
    state leave a minted node TERMINATED.  Then, in that state and in every
    state reached from it, the node is TERMINATED and its token stake is
    zero, and every further [updatePerformance] on it reverts: with
    "Node terminated" (AlreadyTerminated) when the caller is the
    administrator or the participation contract, with "Unauthorized" for any
    other caller, whose authorisation is checked first. *)
Theorem terminated_node_is_inert (st0 : State) (c0 : Call) (tokenId u0 p0 : Z)
    (st2 : State) :
  reachable st0 -> wf_call c0 -> wf_op (UpdatePerformance tokenId u0 p0) ->
  _ownerOf st0 tokenId <> 0 ->
  status (nodeRights_at (step c0 (UpdatePerformance tokenId u0 p0) st0) tokenId)
    = TERMINATED ->
  steps (step c0 (UpdatePerformance tokenId u0 p0) st0) st2 ->
  status (nodeRights_at st2 tokenId) = TERMINATED /\
  stakedDPN (nodeRights_at st2 tokenId) = 0 /\
  forall c u p log,
    (msg_sender c = contractOwner st2 \/ msg_sender c = participationContract st2 ->
       updatePerformance c tokenId u p st2 log = Err (Revert "Node terminated")) /\
    (msg_sender c <> contractOwner st2 -> msg_sender c <> participationContract st2 ->
       updatePerformance c tokenId u p st2 log = Err (Revert "Unauthorized")) /\
    step c (UpdatePerformance tokenId u p) st2 = st2.
Proof.
  intros Hr Hc Hop Hown Hterm Hsteps.
  set (st1 := step c0 (UpdatePerformance tokenId u0 p0) st0) in *.
  assert (HI1 : Inv st1) by (apply reachable_Inv, reachable_step; assumption).
  assert (Hown1 : _ownerOf st1 tokenId <> 0).
  { unfold st1, step, transact.
    destruct (call c0 (UpdatePerformance tokenId u0 p0) st0 []) as [[] s l|f] eqn:E; simpl;
      [|exact Hown].
    simpl in E. apply updatePerformance_inv in E.
    destruct E as (_ & _ & _ & _ & d & -> & _). exact Hown. }
  destruct (terminated_steps st1 st2 tokenId HI1 Hsteps Hown1 Hterm) as (HI2 & Hown2 & Hterm2).
  split; [exact Hterm2|]. split; [apply (inv_terminated st2 HI2); exact Hterm2|].
  intros c u p log.
  assert (Hauth : msg_sender c = contractOwner st2 \/ msg_sender c = participationContract st2 ->
                  updatePerformance c tokenId u p st2 log = Err (Revert "Node terminated")).
  { intros Ha. apply updatePerformance_terminated; assumption. }
  assert (Hun : msg_sender c <> contractOwner st2 ->
                msg_sender c <> participationContract st2 ->
                updatePerformance c tokenId u p st2 log = Err (Revert "Unauthorized")).
  { intros Ha Hp. apply updatePerformance_unauthorized; assumption. }
  split; [exact Hauth|]. split; [exact Hun|].
  unfold step, transact. simpl.
  destruct (updatePerformance c tokenId u p st2 []) as [[] s l|f] eqn:E; [|reflexivity].
  exfalso. apply updatePerformance_inv in E. destruct E as (_ & _ & Hnt & _). contradiction.
Qed.

(** After the report of 1000 and a transfer of the token, the node is still
    TERMINATED with no token stake; the administrator's next report is
    refused with "Node terminated", that of another account with
    "Unauthorized". *)
Lemma terminated_node_is_inert_witness :
  status (nodeRights_at st_after_transfer_of_terminated 0) = TERMINATED /\
  stakedDPN (nodeRights_at st_after_transfer_of_terminated 0) = 0 /\
  updatePerformance deployer 0 3600 9500 st_after_transfer_of_terminated []
    = Err (Revert "Node terminated") /\
  updatePerformance addr2_plain 0 3600 9500 st_after_transfer_of_terminated []
    = Err (Revert "Unauthorized").
Proof.
  assert (Hsteps : steps (step deployer (UpdatePerformance 0 60 1000) st_minted)
                     st_after_transfer_of_terminated).
  { apply steps_next; [apply steps_refl | |].
    - split; [discriminate | split; vm_compute; discriminate].
    - split; vm_compute; discriminate. }
  destruct (terminated_node_is_inert st_minted deployer 0 60 1000
              st_after_transfer_of_terminated) as (Hs & Hd & Hcalls).
  - apply st_minted_reachable.
  - split; [discriminate | split; vm_compute; discriminate].
  - repeat split; vm_compute; discriminate.
  - vm_compute. discriminate.
  - vm_compute. reflexivity.
  - exact Hsteps.
  - split; [exact Hs|]. split; [exact Hd|]. split.
    + apply (Hcalls deployer 3600 9500 []). left. vm_compute. reflexivity.
    + apply (Hcalls addr2_plain 3600 9500 []); vm_compute; discriminate.
Defined.

(** C4 as documented fails on the contract.  A further report on a
    terminated node by an account that is neither the administrator nor the
    participation contract fails with "Unauthorized", not with
    "Node terminated". *)
Lemma stranger_on_terminated_node_is_unauthorized :
  reachable (step deployer (UpdatePerformance 0 60 1000) st_minted) /\
  _ownerOf (step deployer (UpdatePerformance 0 60 1000) st_minted) 0 <> 0 /\
  status (nodeRights_at (step deployer (UpdatePerformance 0 60 1000) st_minted) 0)
    = TERMINATED /\
  updatePerformance addr2_plain 0 3600 9500
    (step deployer (UpdatePerformance 0 60 1000) st_minted) []
    = Err (Revert "Unauthorized") /\
  updatePerformance addr2_plain 0 3600 9500
    (step deployer (UpdatePerformance 0 60 1000) st_minted) []
    <> Err (Revert "Node terminated").
Proof.
  split.
  { apply reachable_step.
    - apply st_minted_reachable.
    - split; [discriminate | split; vm_compute; discriminate].
    - repeat split; vm_compute; discriminate. }
  split; [vm_compute; discriminate|].
  split; [vm_compute; reflexivity|].
  split; [vm_compute; reflexivity|].
  vm_compute. discriminate.
Qed.

(** ** C2 *)

(** Everything but a performance report keeps the score at or below 12000,
    and so does a report that is itself at most 12000. *)
Lemma score_ceiling_step st c op :
  (forall t, performanceScore (nodeRights_at st t) <= 12000) ->
  match op with UpdatePerformance _ _ p => p <= 12000 | _ => True end ->
  forall t, performanceScore (nodeRights_at (step c op st) t) <= 12000.
Proof.
  intros Hb Hop. unfold step, transact.
  destruct (call c op st []) as [[] st' log'|f] eqn:E; simpl; [|exact Hb].
  destruct op; simpl in E.
  - apply mintNodeRights_inv in E. destruct E as (_ & _ & _ & _ & _ & _ & -> & _).
    intros x. unfold minted, nodeRights_at, set_owners, set_ownerNodes, set_nodeRights; simpl.
    rewrite lookup_insert. case_decide; [vm_compute; discriminate | apply Hb].
  - apply upgradeNode_inv in E. destruct E as (_ & _ & _ & _ & _ & _ & _ & _ & -> & _).
    intros x. destruct (decide (tokenId = x)) as [->|Hne].
    + rewrite nodeRights_at_set_same. simpl. rewrite _min_is_min. lia.
    + rewrite nodeRights_at_set_other by exact Hne. apply Hb.
  - apply updatePerformance_inv in E. destruct E as (_ & _ & _ & _ & d & -> & _).
    intros x. destruct (decide (tokenId = x)) as [->|Hne].
    + rewrite nodeRights_at_set_same. simpl. exact Hop.
    + rewrite nodeRights_at_set_other by exact Hne. apply Hb.
  - apply bridgeToChain_inv in E. destruct E as (_ & _ & -> & _). exact Hb.
  - unfold transferFrom, _update, ERC721_update, _checkAuthorized in E.
    assert (Hn : nodeRights st' = nodeRights st).
    { revert E. munfold.
      repeat match goal with
             | |- context [if ?b then _ else _] => destruct b; mred
             end; intros E; inversion E; reflexivity. }
    intros x. unfold nodeRights_at. rewrite Hn. apply Hb.
  - apply safeTransferFrom_inv in E.
    unfold transferFrom, _update, ERC721_update, _checkAuthorized in E.
    assert (Hn : nodeRights st' = nodeRights st).
    { revert E. munfold.
      repeat match goal with
             | |- context [if ?b then _ else _] => destruct b; mred
             end; intros E; inversion E; reflexivity. }
    intros x. unfold nodeRights_at. rewrite Hn. apply Hb.
  - apply approve_inv in E. destruct E as [_ ->]. exact Hb.
  - apply setApprovalForAll_inv in E. subst st'. exact Hb.
  - eapply (admin_inv st c (SetParticipationContract a)) in E; [|exact I].
    destruct E as (_&_&_&_&_&Hn). intros x. unfold nodeRights_at. rewrite Hn. apply Hb.
  - eapply (admin_inv st c (SetDPNTokenContract a)) in E; [|exact I].
    destruct E as (_&_&_&_&_&Hn). intros x. unfold nodeRights_at. rewrite Hn. apply Hb.
  - eapply (admin_inv st c (UpdateNodeTypeConfig _ _ _ _ _)) in E; [|exact I].
    destruct E as (_&_&_&_&_&Hn). intros x. unfold nodeRights_at. rewrite Hn. apply Hb.
  - eapply (admin_inv st c (TransferOwnership _)) in E; [|exact I].
    destruct E as (_&_&_&_&_&Hn). intros x. unfold nodeRights_at. rewrite Hn. apply Hb.
  - eapply (admin_inv st c RenounceOwnership) in E; [|exact I].
    destruct E as (_&_&_&_&_&Hn). intros x. unfold nodeRights_at. rewrite Hn. apply Hb.
Qed.

(** C2 fails on the contract: the administrator's report of 12001 on the
    freshly minted node is stored as it is, which leaves a minted, ACTIVE
    node with a score above 12000 in a reachable state. *)
Theorem report_above_ceiling_is_stored :
  reachable (step deployer (UpdatePerformance 0 0 12001) st_minted) /\
  msg_sender deployer = contractOwner st_minted /\
  _ownerOf (step deployer (UpdatePerformance 0 0 12001) st_minted) 0 <> 0 /\
  status (nodeRights_at (step deployer (UpdatePerformance 0 0 12001) st_minted) 0)
    = ACTIVE /\
  performanceScore (nodeRights_at (step deployer (UpdatePerformance 0 0 12001) st_minted) 0)
    = 12001.
Proof.
  split.
  { apply reachable_step.
    - apply st_minted_reachable.
    - split; [discriminate | split; vm_compute; discriminate].
    - repeat split; vm_compute; discriminate. }
  split; [vm_compute; reflexivity|].
  split; [vm_compute; discriminate|].
  split; vm_compute; reflexivity.
Qed.

End NodeRightsProofs.

Module CoreProofs.
Import Core.

Lemma run_failure_changes_nothing c op w f :
  run c op w = Err f -> apply_op c op w = (w, []).
Proof. intros H. unfold apply_op. rewrite H. reflexivity. Qed.

Lemma violated_precondition_reverts c op w e :
  violated_precondition c op w = Some e ->
  run c op w = Err (Revert (revert_reason op e)).
Proof.
  destruct op; simpl; unfold on_ledger, on_rights.
  - discriminate.
  - discriminate.
  - destruct (Z.eqb_spec (Participation.owner (Participation.nodes_at (ledger w) nodeId))
                (msg_sender c)) as [|Hne]; [discriminate|].
    intros H; inversion H; subst e; simpl.
    rewrite ParticipationProofs.claimReward_stranger by exact Hne. reflexivity.
  - destruct (Z.ltb_spec 0 (msg_value c)) as [|Hle]; [discriminate|].
    intros H; inversion H; subst e; simpl.
    rewrite ParticipationProofs.stakeToNode_no_value by exact Hle. reflexivity.
  - unfold NodeRightsNFT.mintNodeRights. munfold.
    destruct (NodeRightsNFT.isActive _); simpl;
      [|intros H; inversion H; subst e; reflexivity].
    destruct (Z.ltb_spec (msg_value c) (NodeRightsNFT.minETHStake
               (NodeRightsNFT.config_at (NodeRightsNFT.nodeTypeConfigs (rights w)) nodeType)))
      as [Hlt|Hge].
    { intros H; inversion H; subst e.
      destruct (Z.leb_spec (NodeRightsNFT.minETHStake
                 (NodeRightsNFT.config_at (NodeRightsNFT.nodeTypeConfigs (rights w)) nodeType))
                 (msg_value c)); [lia | reflexivity]. }
    destruct (Z.leb_spec (NodeRightsNFT.minETHStake
               (NodeRightsNFT.config_at (NodeRightsNFT.nodeTypeConfigs (rights w)) nodeType))
               (msg_value c)); [|lia].
    simpl.
    destruct (Z.ltb_spec dpnStakeAmount (NodeRightsNFT.minDPNStake
               (NodeRightsNFT.config_at (NodeRightsNFT.nodeTypeConfigs (rights w)) nodeType)))
      as [Hlt|Hge']; [|discriminate].
    intros Hv; inversion Hv; subst e.
    destruct (Z.leb_spec (NodeRightsNFT.minDPNStake
               (NodeRightsNFT.config_at (NodeRightsNFT.nodeTypeConfigs (rights w)) nodeType))
               dpnStakeAmount); [lia | reflexivity].
  - destruct (Z.eqb_spec (NodeRightsNFT._ownerOf (rights w) tokenId) 0) as [Hz|Hnz].
    { intros H; inversion H; subst e; simpl.
      rewrite NodeRightsProofs.upgradeNode_unminted by exact Hz. reflexivity. }
    destruct (Z.eqb_spec (NodeRightsNFT._ownerOf (rights w) tokenId) (msg_sender c))
      as [Hs|Hns]; simpl.
    + destruct (NodeRightsNFT.status (NodeRightsNFT.nodeRights_at (rights w) tokenId)) eqn:Hst;
        [discriminate| | |];
        intros H; inversion H; subst e; simpl;
        rewrite NodeRightsProofs.upgradeNode_not_active by (try assumption; congruence);
        reflexivity.
    + intros H; inversion H; subst e; simpl.
      rewrite NodeRightsProofs.upgradeNode_not_owner by assumption. reflexivity.
  - destruct (Z.eqb_spec (NodeRightsNFT._ownerOf (rights w) tokenId) 0) as [Hz|Hnz].
    { intros H; inversion H; subst e; simpl.
      rewrite NodeRightsProofs.updatePerformance_unminted by exact Hz. reflexivity. }
    destruct (Z.eqb_spec (msg_sender c) (NodeRightsNFT.contractOwner (rights w))) as [Ha|Hna];
      simpl.
    + destruct (NodeRightsNFT.status (NodeRightsNFT.nodeRights_at (rights w) tokenId)) eqn:Hst;
        try discriminate.
      intros H; inversion H; subst e; simpl.
      rewrite NodeRightsProofs.updatePerformance_terminated by auto. reflexivity.
    + destruct (Z.eqb_spec (msg_sender c) (NodeRightsNFT.participationContract (rights w)))
        as [Hp|Hnp]; simpl.
      * destruct (NodeRightsNFT.status (NodeRightsNFT.nodeRights_at (rights w) tokenId))
          eqn:Hst; try discriminate.
        intros H; inversion H; subst e; simpl.
        rewrite NodeRightsProofs.updatePerformance_terminated by auto. reflexivity.
      * intros H; inversion H; subst e; simpl.
        rewrite NodeRightsProofs.updatePerformance_unauthorized by assumption. reflexivity.
  - unfold NodeRightsNFT.bridgeToChain. munfold.
    destruct (Z.eqb_spec (NodeRightsNFT._ownerOf (rights w) tokenId) 0) as [Hz|Hnz]; simpl.
    { intros H; inversion H; subst e; reflexivity. }
    destruct (Z.eqb_spec (NodeRightsNFT._ownerOf (rights w) tokenId) (msg_sender c))
      as [Hs|Hns]; simpl; [discriminate|].
    intros H; inversion H; subst e; reflexivity.
Qed.

Lemma no_violation_means_preconditions c op w :
  violated_precondition c op w = None -> preconditions c op w.
Proof.
  destruct op; simpl; auto.
  - destruct (Z.eqb_spec (Participation.owner (Participation.nodes_at (ledger w) nodeId))
                (msg_sender c)); [congruence | discriminate].
  - destruct (Z.ltb_spec 0 (msg_value c)); [auto | discriminate].
  - destruct (NodeRightsNFT.isActive _); simpl; [|discriminate].
    destruct (Z.ltb_spec (msg_value c) (NodeRightsNFT.minETHStake
               (NodeRightsNFT.config_at (NodeRightsNFT.nodeTypeConfigs (rights w)) nodeType)));
      [discriminate|].
    destruct (Z.ltb_spec dpnStakeAmount (NodeRightsNFT.minDPNStake
               (NodeRightsNFT.config_at (NodeRightsNFT.nodeTypeConfigs (rights w)) nodeType)));
      [discriminate|].
    auto.
  - destruct (Z.eqb_spec (NodeRightsNFT._ownerOf (rights w) tokenId) 0); [discriminate|].
    destruct (Z.eqb_spec (NodeRightsNFT._ownerOf (rights w) tokenId) (msg_sender c)); simpl;
      [|discriminate].
    destruct (NodeRightsNFT.status _); try discriminate. auto.
  - destruct (Z.eqb_spec (NodeRightsNFT._ownerOf (rights w) tokenId) 0); [discriminate|].
    destruct (Z.eqb_spec (msg_sender c) (NodeRightsNFT.contractOwner (rights w))); simpl.
    + destruct (NodeRightsNFT.status _); try discriminate;
        intros _; repeat split; auto; discriminate.
    + destruct (Z.eqb_spec (msg_sender c) (NodeRightsNFT.participationContract (rights w)));
        simpl; [|discriminate].
      destruct (NodeRightsNFT.status _); try discriminate;
        intros _; repeat split; auto; discriminate.
  - destruct (Z.eqb_spec (NodeRightsNFT._ownerOf (rights w) tokenId) 0); [discriminate|].
    destruct (Z.eqb_spec (NodeRightsNFT._ownerOf (rights w) tokenId) (msg_sender c)); simpl;
      [auto | discriminate].
Qed.

(** ** C7 *)

(** C7. For each of the eight operations of the core and every state: when
    a precondition the design gives the operation does not hold, the call
    reverts, with the reason of the first precondition it violates, the
    whole state (both contracts) is as it was, and no event is logged.  The
    same holds for a call that fails for any other reason, however late in
    the function. *)
Theorem rejection_is_all_or_nothing (c : Call) (op : Op) (w : State) :
  (~ preconditions c op w ->
     exists e,
       violated_precondition c op w = Some e /\
       run c op w = Err (Revert (revert_reason op e)) /\
       apply_op c op w = (w, [])) /\
  (forall f, run c op w = Err f -> apply_op c op w = (w, [])).
Proof.
  split.
  - intros Hnot.
    destruct (violated_precondition c op w) as [e|] eqn:Hv.
    + exists e. split; [reflexivity|].
      apply violated_precondition_reverts in Hv.
      split; [exact Hv | apply (run_failure_changes_nothing _ _ _ _ Hv)].
    + exfalso. apply Hnot. apply no_violation_means_preconditions. exact Hv.
  - apply run_failure_changes_nothing.
Qed.

(** A stranger's upgrade of token 0 and a mint with half the minimum native
    stake are rejected and leave both contracts as they were. *)
Lemma rejection_is_all_or_nothing_witness :
  apply_op NodeRightsNFT.addr2 (UpgradeNode 0 (500 * 10 ^ 18)) world = (world, []) /\
  run NodeRightsNFT.addr2 (UpgradeNode 0 (500 * 10 ^ 18)) world
    = Err (Revert "Not node owner") /\
  apply_op NodeRightsNFT.addr2
    (MintNodeRights NodeRightsNFT.STORAGE (1000 * 10 ^ 18) "metadata") world = (world, []) /\
  run NodeRightsNFT.addr2
    (MintNodeRights NodeRightsNFT.STORAGE (1000 * 10 ^ 18) "metadata") world
    = Err (Revert "Insufficient ETH stake").
Proof.
  destruct (rejection_is_all_or_nothing NodeRightsNFT.addr2
              (UpgradeNode 0 (500 * 10 ^ 18)) world) as [Hup _].
  destruct Hup as (e & Hv & Hr & Ha).
  { intros (_ & Hs & _). revert Hs. vm_compute. discriminate. }
  assert (e = NotOwner) by (revert Hv; vm_compute; congruence). subst e.
  destruct (rejection_is_all_or_nothing NodeRightsNFT.addr2
              (MintNodeRights NodeRightsNFT.STORAGE (1000 * 10 ^ 18) "metadata") world)
    as [Hmint _].
  destruct Hmint as (e & Hv' & Hr' & Ha').
  { intros (_ & Hs & _). revert Hs. vm_compute. intros Hs. apply Hs. reflexivity. }
  assert (e = InsufficientNativeStake) by (revert Hv'; vm_compute; congruence). subst e.
  split; [exact Ha|]. split; [exact Hr|]. split; [exact Ha' | exact Hr'].
Defined.

End CoreProofs.

(** * Further properties of the contracts *)

(** ** The Participation contract over its histories *)

Module LedgerProofs.
Import Participation Ledger ParticipationProofs.

Lemma total_snoc f log e : total f (log ++ [e]) = total f log + f e.
Proof.
  unfold total. induction log as [|x l IH]; simpl; [lia|]. rewrite IH. lia.
Qed.

(** *** What each successful call leaves *)

Lemma registerNode_inv st c md log st' log' :
  registerNode c md st log = Ok tt st' log' ->
  nextId st + 1 <= MAX_UINT256 /\
  st' = set_nextId (nextId st + 1)
          (set_node (nextId st) (mkNode (msg_sender c) md (block_timestamp c)) st) /\
  log' = log ++ [NodeRegistered (nextId st) (msg_sender c) (block_timestamp c)].
Proof.
  unfold registerNode. munfold.
  change (nextId (set_node ?i ?n st)) with (nextId st).
  destruct (Z.leb_spec (nextId st + 1) MAX_UINT256) as [H|]; [|discriminate].
  intros E. inversion E. auto.
Qed.

Lemma recordUptime_inv st c nodeId m log st' log' :
  recordUptime c nodeId m st log = Ok tt st' log' ->
  uptime (stats_at st nodeId) + m <= MAX_UINT256 /\
  earned (stats_at st nodeId) + m <= MAX_UINT256 /\
  st' = set_stats nodeId
          (mkStats (uptime (stats_at st nodeId) + m) (block_timestamp c)
             (earned (stats_at st nodeId) + m)) st /\
  log' = log ++ [UptimeRecorded nodeId m (block_timestamp c)].
Proof.
  intros E.
  destruct (Z.leb_spec (uptime (stats_at st nodeId) + m) MAX_UINT256) as [Hu|Hu].
  - destruct (Z.leb_spec (earned (stats_at st nodeId) + m) MAX_UINT256) as [He|He].
    + rewrite recordUptime_ok in E by assumption. inversion E. auto.
    + exfalso. revert E. unfold recordUptime, update_stats. munfold.
      apply Z.leb_le in Hu. rewrite Hu. munfold.
      rewrite !stats_at_set_same. simpl.
      apply Z.leb_gt in He. rewrite He. discriminate.
  - exfalso. revert E. unfold recordUptime. munfold.
    apply Z.leb_gt in Hu. rewrite Hu. discriminate.
Qed.

Lemma claimReward_inv st c nodeId log st' log' :
  claimReward c nodeId st log = Ok tt st' log' ->
  owner (nodes_at st nodeId) = msg_sender c /\
  st' = set_stats nodeId (set_earned 0 (stats_at st nodeId)) st /\
  log' = log ++ [RewardClaimed nodeId (msg_sender c) (earned (stats_at st nodeId))
                   (block_timestamp c)].
Proof.
  intros E.
  destruct (Z.eq_dec (owner (nodes_at st nodeId)) (msg_sender c)) as [Ho|Ho].
  - rewrite claimReward_owner in E by exact Ho. inversion E. auto.
  - rewrite claimReward_stranger in E by exact Ho. discriminate.
Qed.

Lemma stakeToNode_inv st c nodeId log st' log' :
  stakeToNode c nodeId st log = Ok tt st' log' ->
  0 < msg_value c /\
  nodeStakes_at st nodeId + msg_value c <= MAX_UINT256 /\
  st' = set_nodeStakes nodeId (nodeStakes_at st nodeId + msg_value c) st /\
  log' = log ++ [StakeUpdated nodeId (msg_sender c) (msg_value c) (block_timestamp c)].
Proof.
  unfold stakeToNode. munfold.
  destruct (Z.ltb_spec 0 (msg_value c)) as [Hv|]; [|discriminate]. munfold.
  destruct (Z.leb_spec (nodeStakes_at st nodeId + msg_value c) MAX_UINT256) as [Hs|];
    [|discriminate].
  intros E. inversion E. auto.
Qed.

(** *** Reading the storage after a write *)

Lemma nodes_at_set_node_same st nodeId n : nodes_at (set_node nodeId n st) nodeId = n.
Proof. unfold nodes_at, set_node; simpl. by rewrite lookup_insert_eq. Qed.

Lemma nodes_at_set_node_other st nodeId nodeId' n :
  nodeId <> nodeId' -> nodes_at (set_node nodeId n st) nodeId' = nodes_at st nodeId'.
Proof. intros H. unfold nodes_at, set_node; simpl. by rewrite lookup_insert_ne. Qed.

Lemma nodeStakes_at_set_same st nodeId v :
  nodeStakes_at (set_nodeStakes nodeId v st) nodeId = v.
Proof. unfold nodeStakes_at, set_nodeStakes; simpl. by rewrite lookup_insert_eq. Qed.

Lemma nodeStakes_at_set_other st nodeId nodeId' v :
  nodeId <> nodeId' ->
  nodeStakes_at (set_nodeStakes nodeId v st) nodeId' = nodeStakes_at st nodeId'.
Proof. intros H. unfold nodeStakes_at, set_nodeStakes; simpl. by rewrite lookup_insert_ne. Qed.

Lemma apply_effect c op st log : effect c st log op (apply (c, op) (st, log)).
Proof.
  unfold apply; simpl.
  destruct (call c op st log) as [[] st' log'|f] eqn:E; [|constructor].
  destruct op as [md|nodeId m|nodeId|nodeId]; simpl in E.
  - apply registerNode_inv in E as (H & -> & ->). by constructor.
  - apply recordUptime_inv in E as (H1 & H2 & -> & ->). by constructor.
  - apply claimReward_inv in E as (H & -> & ->). by constructor.
  - apply stakeToNode_inv in E as (H1 & H2 & -> & ->). by constructor.
Qed.

Lemma stats_at_set_stats st nodeId s k :
  stats_at (set_stats nodeId s st) k = if decide (nodeId = k) then s else stats_at st k.
Proof.
  case_decide as H; [subst; apply stats_at_set_same | by apply stats_at_set_other].
Qed.

Lemma nodeStakes_at_set st nodeId v k :
  nodeStakes_at (set_nodeStakes nodeId v st) k =
  if decide (nodeId = k) then v else nodeStakes_at st k.
Proof.
  case_decide as H; [subst; apply nodeStakes_at_set_same
                    | by apply nodeStakes_at_set_other].
Qed.

Lemma nodes_at_set_node st nodeId n k :
  nodes_at (set_node nodeId n st) k = if decide (nodeId = k) then n else nodes_at st k.
Proof.
  case_decide as H; [subst; apply nodes_at_set_node_same
                    | by apply nodes_at_set_node_other].
Qed.

Lemma eqb_decide (a b : Z) : (a =? b) = bool_decide (a = b).
Proof.
  destruct (Z.eqb_spec a b);
    [by rewrite bool_decide_eq_true_2|by rewrite bool_decide_eq_false_2].
Qed.

Lemma Accounted_initial : Accounted (initial, []).
Proof.
  split; simpl; intros; try (vm_compute; intuition congruence).
  unfold nodes_at. simpl. rewrite lookup_empty. simpl. lia.
Qed.

Lemma stats_at_frame_nextId st v k : stats_at (set_nextId v st) k = stats_at st k.
Proof. reflexivity. Qed.
Lemma stats_at_frame_node st i n k : stats_at (set_node i n st) k = stats_at st k.
Proof. reflexivity. Qed.
Lemma stats_at_frame_stake st i v k : stats_at (set_nodeStakes i v st) k = stats_at st k.
Proof. reflexivity. Qed.
Lemma nodeStakes_at_frame_nextId st v k :
  nodeStakes_at (set_nextId v st) k = nodeStakes_at st k.
Proof. reflexivity. Qed.
Lemma nodeStakes_at_frame_node st i n k :
  nodeStakes_at (set_node i n st) k = nodeStakes_at st k.
Proof. reflexivity. Qed.
Lemma nodeStakes_at_frame_stats st i s k :
  nodeStakes_at (set_stats i s st) k = nodeStakes_at st k.
Proof. reflexivity. Qed.
Lemma nodes_at_frame_nextId st v k : nodes_at (set_nextId v st) k = nodes_at st k.
Proof. reflexivity. Qed.
Lemma nodes_at_frame_stake st i v k : nodes_at (set_nodeStakes i v st) k = nodes_at st k.
Proof. reflexivity. Qed.
Lemma nextId_frame_stats st i s : nextId (set_stats i s st) = nextId st.
Proof. reflexivity. Qed.
Lemma nextId_frame_stake st i v : nextId (set_nodeStakes i v st) = nextId st.
Proof. reflexivity. Qed.
Lemma nextId_frame_node st i n : nextId (set_node i n st) = nextId st.
Proof. reflexivity. Qed.
Lemma nextId_set_nextId st v : nextId (set_nextId v st) = v.
Proof. reflexivity. Qed.

Create Rewrite HintDb ledger.
#[local] Hint Rewrite stats_at_frame_nextId stats_at_frame_node stats_at_frame_stake
  nodeStakes_at_frame_nextId nodeStakes_at_frame_node nodeStakes_at_frame_stats
  nodes_at_frame_nextId nodes_at_frame_stake nodes_at_set_stats
  nextId_frame_stats nextId_frame_stake nextId_frame_node nextId_set_nextId
  stats_at_set_stats nodeStakes_at_set nodes_at_set_node total_snoc : ledger.

Ltac ledger_cases :=
  autorewrite with ledger;
  cbn [minutes_in claim_in stake_in registration_in uptime earned lastUpdate
       set_earned owner];
  repeat match goal with
         | |- context [?a =? ?b] => destruct (Z.eqb_spec a b)
         end;
  repeat case_decide; try congruence.

Lemma Accounted_apply h tx : Accounted h -> wf_tx tx -> Accounted (apply tx h).
Proof.
  destruct h as [st log], tx as [c op].
  intros [Hu He Hs Hn Her Hur Hsr Hnr Hreg] (Hc & Hop & Hpay); simpl in *.
  destruct (apply_effect c op st log)
    as [op|md Hnext|nodeId m Hu' He'|nodeId Ho|nodeId Hv Hs'];
    [by split|..];
    (split; simpl; try intros k; ledger_cases;
     try (pose proof (Hu k); pose proof (He k); pose proof (Hs k);
          pose proof (Her k); pose proof (Hur k); pose proof (Hsr k));
     subst; unfold set_earned; cbn [uptime earned lastUpdate owner wf_op] in *;
     try lia; try apply Hreg).
  - destruct Hc as [Hc _]. split; [lia|auto].
  - rewrite Hreg. lia.
Qed.

Lemma history_Accounted h : history h -> Accounted h.
Proof.
  induction 1 as [|h tx _ IH Htx]; [apply Accounted_initial|by apply Accounted_apply].
Qed.

Lemma history_apply_all txs : forall h,
  history h -> Forall wf_tx txs -> history (apply_all txs h).
Proof.
  induction txs as [|tx txs IH]; intros h Hh Hall; simpl; [done|].
  inversion Hall; subst. apply IH; [by constructor|done].
Qed.

Lemma subgraph_calls_wf : Forall wf_tx subgraph_calls.
Proof.
  unfold subgraph_calls.
  repeat (apply Forall_cons; split;
          [split; [split; [vm_compute; congruence|vm_compute; split; congruence]
                  |split; [vm_compute; first [exact I|split; congruence]
                          |vm_compute; congruence]]|]).
  apply Forall_nil. exact I.
Qed.

Lemma subgraph_history : history (apply_all subgraph_calls (initial, [])).
Proof. apply history_apply_all; [constructor|apply subgraph_calls_wf]. Qed.

(** A relation between the contract before and after, kept by every
    transaction, is kept by every sequence of transactions. *)
Lemma apply_all_preserves (P : Call * Op -> Prop)
    (R : State * list Event -> State * list Event -> Prop) :
  (forall h, R h h) ->
  (forall h1 h2 h3, R h1 h2 -> R h2 h3 -> R h1 h3) ->
  (forall h tx, P tx -> R h (apply tx h)) ->
  forall txs h, Forall P txs -> R h (apply_all txs h).
Proof.
  intros Hrefl Htrans Hstep txs.
  induction txs as [|tx txs IH]; intros h Hall; simpl; [apply Hrefl|].
  inversion Hall; subst.
  apply Htrans with (apply tx h); [by apply Hstep|by apply IH].
Qed.

(** X1: after every history, the storage is what an indexer computes from
    the log: a node's uptime is the sum of the minutes of its
    [UptimeRecorded] events, its unclaimed reward that sum less the amounts
    of its [RewardClaimed] events, its stake the sum of the amounts of its
    [StakeUpdated] events, and [nextId] the number of [NodeRegistered]
    events. *)
Theorem storage_is_the_sum_of_the_log (h : State * list Event) (nodeId : Z) :
  history h ->
  uptime (stats_at (fst h) nodeId) = total (minutes_in nodeId) (snd h) /\
  earned (stats_at (fst h) nodeId) =
    total (minutes_in nodeId) (snd h) - total (claim_in nodeId) (snd h) /\
  nodeStakes_at (fst h) nodeId = total (stake_in nodeId) (snd h) /\
  nextId (fst h) = total registration_in (snd h).
Proof.
  intros Hh. destruct (history_Accounted h Hh). auto.
Qed.

Lemma storage_is_the_sum_of_the_log_witness :
  let h := apply_all subgraph_calls (initial, []) in
  uptime (stats_at (fst h) 0) = total (minutes_in 0) (snd h) /\
  earned (stats_at (fst h) 0) =
    total (minutes_in 0) (snd h) - total (claim_in 0) (snd h) /\
  nodeStakes_at (fst h) 0 = total (stake_in 0) (snd h) /\
  nextId (fst h) = total registration_in (snd h).
Proof.
  exact (storage_is_the_sum_of_the_log _ 0 subgraph_history).
Defined.

(** X2: after every history, a node's unclaimed reward is at most its
    uptime, the amounts claimed for it are at most the minutes recorded for
    it, and uptime, reward and stake are uint256 values. *)
Theorem rewards_never_exceed_recorded_minutes (h : State * list Event) (nodeId : Z) :
  history h ->
  0 <= earned (stats_at (fst h) nodeId) <= uptime (stats_at (fst h) nodeId) /\
  uptime (stats_at (fst h) nodeId) <= MAX_UINT256 /\
  total (claim_in nodeId) (snd h) <= total (minutes_in nodeId) (snd h) /\
  0 <= nodeStakes_at (fst h) nodeId <= MAX_UINT256.
Proof.
  intros Hh. destruct (history_Accounted h Hh) as [Hu He _ _ Her Hur Hsr _ _].
  specialize (Hu nodeId). specialize (He nodeId). specialize (Her nodeId).
  repeat split; try apply Her; try apply Hur; try apply Hsr. lia.
Qed.

Lemma rewards_never_exceed_recorded_minutes_witness :
  let h := apply_all subgraph_calls (initial, []) in
  0 <= earned (stats_at (fst h) 2) <= uptime (stats_at (fst h) 2) /\
  uptime (stats_at (fst h) 2) <= MAX_UINT256 /\
  total (claim_in 2) (snd h) <= total (minutes_in 2) (snd h) /\
  0 <= nodeStakes_at (fst h) 2 <= MAX_UINT256.
Proof.
  exact (rewards_never_exceed_recorded_minutes _ 2 subgraph_history).
Defined.

(** X3: after every history, the ids with an owner are exactly
    0 .. nextId - 1: ids are handed out in order, none is skipped and none
    is owned by the zero address. *)
Theorem registered_ids_are_the_ids_below_nextId (h : State * list Event) (nodeId : Z) :
  history h ->
  (owner (nodes_at (fst h) nodeId) <> 0 <-> 0 <= nodeId < nextId (fst h)).
Proof.
  intros Hh. destruct (history_Accounted h Hh) as [_ _ _ _ _ _ _ _ Hreg]. apply Hreg.
Qed.

Lemma registered_ids_are_the_ids_below_nextId_witness :
  let h := apply_all subgraph_calls (initial, []) in
  (owner (nodes_at (fst h) 3) <> 0 <-> 0 <= 3 < nextId (fst h)).
Proof.
  exact (registered_ids_are_the_ids_below_nextId _ 3 subgraph_history).
Defined.

Lemma nextId_grows h tx : nextId (fst h) <= nextId (fst (apply tx h)).
Proof.
  destruct h as [st log], tx as [c op].
  destruct (apply_effect c op st log); simpl; autorewrite with ledger; lia.
Qed.

(** X4: the record of a registered node never changes: no sequence of
    calls, by any callers and with any arguments, alters its owner, its
    metadata or its registration time. *)
Theorem registered_node_is_permanent (st : State) (log : list Event)
    (txs : list (Call * Op)) (nodeId : Z) :
  0 <= nodeId < nextId st ->
  nodes_at (fst (apply_all txs (st, log))) nodeId = nodes_at st nodeId.
Proof.
  intros Hid.
  pose (R := fun h1 h2 : State * list Event =>
               nextId (fst h1) <= nextId (fst h2) /\
               forall k, 0 <= k < nextId (fst h1) ->
                         nodes_at (fst h2) k = nodes_at (fst h1) k).
  assert (HR : R (st, log) (apply_all txs (st, log))).
  { apply apply_all_preserves with (P := fun _ => True).
    - intros h. split; [lia|auto].
    - intros h1 h2 h3 [H1 H2] [H3 H4]. split; [lia|].
      intros k Hk. rewrite H4 by lia. by apply H2.
    - intros [s l] [c op] _. split; [apply nextId_grows|].
      simpl. intros k Hk.
      destruct (apply_effect c op s l); simpl; autorewrite with ledger; auto.
      case_decide; [lia|done].
    - by apply Forall_true. }
  destruct HR as [_ HR]. by apply HR.
Qed.

Lemma registered_node_is_permanent_witness :
  nodes_at (fst (apply_all subgraph_calls (st_nodeA, []))) 0 = nodes_at st_nodeA 0.
Proof.
  apply registered_node_is_permanent. vm_compute. split; congruence.
Defined.

(** X5: after every history, [claimReward] on an id not yet registered
    reverts with "Not owner", whoever calls. *)
Theorem unregistered_id_cannot_be_claimed (h : State * list Event) (c : Call)
    (nodeId : Z) :
  history h -> wf_call c -> ~ 0 <= nodeId < nextId (fst h) ->
  claimReward c nodeId (fst h) (snd h) = Err (Revert "Not owner").
Proof.
  intros Hh [Hc _] Hid.
  destruct (history_Accounted h Hh) as [_ _ _ _ _ _ _ _ Hreg].
  apply claimReward_stranger.
  intros Ho. apply Hid, Hreg. congruence.
Qed.

Lemma unregistered_id_cannot_be_claimed_witness :
  let h := apply_all subgraph_calls (initial, []) in
  claimReward alice 3 (fst h) (snd h) = Err (Revert "Not owner").
Proof.
  apply (unregistered_id_cannot_be_claimed _ alice 3 subgraph_history).
  - vm_compute. split; [congruence|split; congruence].
  - vm_compute. intros [_ H]. congruence.
Defined.

(** X6: minutes recorded for an id before it is registered are paid to
    whoever registers it: a registration followed by the registrant's claim
    of the new id succeeds, and the claim's event carries the reward the id
    had accumulated before it had an owner. *)
Theorem reward_recorded_before_registration_goes_to_the_registrant
    (st : State) (log : list Event) (c c' : Call) (md : string) :
  nextId st + 1 <= MAX_UINT256 ->
  msg_sender c' = msg_sender c ->
  snd (apply_all [(c, RegisterNode md); (c', ClaimReward (nextId st))] (st, log)) =
  log ++ [NodeRegistered (nextId st) (msg_sender c) (block_timestamp c);
          RewardClaimed (nextId st) (msg_sender c')
            (earned (stats_at st (nextId st))) (block_timestamp c')] /\
  earned (stats_at
            (fst (apply_all [(c, RegisterNode md); (c', ClaimReward (nextId st))]
                    (st, log))) (nextId st)) = 0.
Proof.
  intros Hn Hc. unfold apply_all, apply at 2 4. simpl.
  unfold registerNode. munfold.
  change (nextId (set_node ?i ?n st)) with (nextId st).
  apply Z.leb_le in Hn. rewrite Hn. munfold.
  unfold apply. simpl.
  rewrite claimReward_owner.
  - simpl. rewrite <- app_assoc. split; [reflexivity|].
    rewrite stats_at_set_same. reflexivity.
  - autorewrite with ledger. rewrite decide_True by done. simpl. congruence.
Qed.

Lemma reward_recorded_before_registration_goes_to_the_registrant_witness :
  let st := fst (transact (recordUptime bob 0 500) initial) in
  snd (apply_all [(alice, RegisterNode "Node A"); (alice, ClaimReward 0)] (st, [])) =
  [NodeRegistered 0 1001 1700000000; RewardClaimed 0 1001 500 1700000000].
Proof.
  destruct (reward_recorded_before_registration_goes_to_the_registrant
              (fst (transact (recordUptime bob 0 500) initial)) [] alice alice
              "Node A") as [H _].
  - vm_compute. congruence.
  - reflexivity.
  - exact H.
Defined.

(** X7: once a node's uptime counter holds 2^256 - 1, every later report of
    a positive number of minutes for it reverts with the overflow panic,
    whatever happens in between. *)
Theorem full_uptime_counter_rejects_every_report (st : State) (log : list Event)
    (txs : list (Call * Op)) (c : Call) (nodeId m : Z) :
  uptime (stats_at st nodeId) = MAX_UINT256 ->
  Forall wf_tx txs ->
  0 < m ->
  recordUptime c nodeId m (fst (apply_all txs (st, log))) (snd (apply_all txs (st, log)))
  = Err (Panic 17).
Proof.
  intros Hu Hall Hm.
  pose (R := fun h1 h2 : State * list Event =>
               uptime (stats_at (fst h1) nodeId) = MAX_UINT256 ->
               uptime (stats_at (fst h2) nodeId) = MAX_UINT256).
  assert (HR : R (st, log) (apply_all txs (st, log))).
  { apply apply_all_preserves with (P := wf_tx); [| | |done].
    - intros h H. exact H.
    - intros h1 h2 h3 H1 H2 H. apply H2, H1, H.
    - intros [s l] [c0 op] (_ & Hop & _) H. simpl in *.
      destruct (apply_effect c0 op s l); simpl; autorewrite with ledger; auto;
        case_decide; subst; simpl in *; auto; lia. }
  specialize (HR Hu). simpl in HR.
  unfold recordUptime. munfold. rewrite HR.
  destruct (Z.leb_spec (MAX_UINT256 + m) MAX_UINT256); [lia|reflexivity].
Qed.

Lemma full_uptime_counter_rejects_every_report_witness :
  let st := fst (transact (recordUptime bob 7 MAX_UINT256) st_nodeA) in
  recordUptime alice 7 1 (fst (apply_all subgraph_calls (st, [])))
    (snd (apply_all subgraph_calls (st, []))) = Err (Panic 17).
Proof.
  apply full_uptime_counter_rejects_every_report.
  - vm_compute. reflexivity.
  - apply subgraph_calls_wf.
  - lia.
Defined.

(** X8: no sequence of transactions lowers a node's uptime, its stake or
    [nextId], and the log only grows at its end. *)
Theorem counters_only_grow (st : State) (log : list Event)
    (txs : list (Call * Op)) (nodeId : Z) :
  Forall wf_tx txs ->
  uptime (stats_at st nodeId) <= uptime (stats_at (fst (apply_all txs (st, log))) nodeId) /\
  nodeStakes_at st nodeId <= nodeStakes_at (fst (apply_all txs (st, log))) nodeId /\
  nextId st <= nextId (fst (apply_all txs (st, log))) /\
  exists more, snd (apply_all txs (st, log)) = log ++ more.
Proof.
  intros Hall.
  pose (R := fun h1 h2 : State * list Event =>
               uptime (stats_at (fst h1) nodeId) <= uptime (stats_at (fst h2) nodeId) /\
               nodeStakes_at (fst h1) nodeId <= nodeStakes_at (fst h2) nodeId /\
               nextId (fst h1) <= nextId (fst h2) /\
               exists more, snd h2 = snd h1 ++ more).
  change (R (st, log) (apply_all txs (st, log))).
  apply (apply_all_preserves wf_tx R); [| | |done].
  - intros h. repeat split; try lia. exists []. by rewrite app_nil_r.
  - intros h1 h2 h3 (H1 & H2 & H3 & m1 & H4) (H5 & H6 & H7 & m2 & H8).
    repeat split; try lia. exists (m1 ++ m2). by rewrite H8, H4, app_assoc.
  - intros [s l] [c op] (_ & Hop & _). unfold R. simpl in *.
    destruct (apply_effect c op s l); simpl; autorewrite with ledger;
      (split; [|split; [|split]]);
      try (by eexists); try (exists []; by rewrite app_nil_r);
      try case_decide; subst; simpl in *; lia.
Qed.

Lemma counters_only_grow_witness :
  uptime (stats_at st_nodeA 0)
    <= uptime (stats_at (fst (apply_all subgraph_calls (st_nodeA, []))) 0) /\
  nodeStakes_at st_nodeA 0
    <= nodeStakes_at (fst (apply_all subgraph_calls (st_nodeA, []))) 0 /\
  nextId st_nodeA <= nextId (fst (apply_all subgraph_calls (st_nodeA, []))) /\
  exists more, snd (apply_all subgraph_calls (st_nodeA, [])) = [] ++ more.
Proof.
  apply (counters_only_grow st_nodeA [] subgraph_calls 0). apply subgraph_calls_wf.
Defined.

End LedgerProofs.

(** ** NodeRightsNFT over its reachable states *)

Module NodeRegisterProofs.
Import NodeRightsNFT NodeRegister NodeRightsProofs.

Lemma admin_effect st c op log st' log' :
  call c op st log = Ok tt st' log' ->
  match op with
  | SetParticipationContract a =>
      contractOwner st = msg_sender c /\ st' = set_participationContract a st
  | SetDPNTokenContract a =>
      contractOwner st = msg_sender c /\ st' = set_dpnTokenContract a st
  | UpdateNodeTypeConfig t e d r b =>
      contractOwner st = msg_sender c /\
      st' = set_nodeTypeConfigs
              (config_set t
                 (mkNodeTypeConfig e d r
                    (maxCapacity (config_at (nodeTypeConfigs st) t)) b)
                 (nodeTypeConfigs st)) st
  | TransferOwnership a =>
      contractOwner st = msg_sender c /\ a <> 0 /\ st' = set_contractOwner a st
  | RenounceOwnership =>
      contractOwner st = msg_sender c /\ st' = set_contractOwner 0 st
  | _ => True
  end.
Proof.
  destruct op; simpl; try (intros; exact I);
    unfold setParticipationContract, setDPNTokenContract, updateNodeTypeConfig,
      transferOwnership, renounceOwnership, onlyOwner; munfold;
    destruct (Z.eqb_spec (contractOwner st) (msg_sender c)) as [Ho|]; try discriminate.
  - intros H; inversion H; auto.
  - intros H; inversion H; auto.
  - intros H; inversion H; auto.
  - destruct (Z.eqb_spec newOwner 0); [discriminate|]. intros H; inversion H; auto.
  - intros H; inversion H; auto.
Qed.

Lemma setApprovalForAll_operator st c operator approved log st' log' :
  setApprovalForAll c operator approved st log = Ok tt st' log' -> operator <> 0.
Proof.
  unfold setApprovalForAll. munfold.
  destruct (Z.eqb_spec operator 0); [discriminate|auto].
Qed.

Lemma step_effect st c op : Inv st -> wf_call c -> effect c st op (step c op st).
Proof.
  intros HI Hc. unfold step, transact.
  destruct (call c op st []) as [[] st' log'|f] eqn:E; simpl; [|constructor].
  assert (Htr : forall from to tokenId,
             transferFrom c from to tokenId st [] = Ok tt st' log' ->
             forall op', op' = TransferFrom from to tokenId \/
                         op' = SafeTransferFrom from to tokenId ->
             effect c st op' st').
  { intros from to tokenId Ht op' Hop'.
    apply transferFrom_inv in Ht; [|apply Hc].
    destruct Ht as (Hto & Ho & Hauth & _ & Hcases). subst from.
    assert (Hown : _ownerOf st tokenId <> 0).
    { intros Hz. rewrite Hz in Hauth.
      pose proof (unminted_not_authorized st (msg_sender c) tokenId HI (proj1 Hc) Hz).
      congruence. }
    destruct Hcases as [(Hz & _) | [(_ & Heq & ->) | (_ & Hne & ->)]].
    - contradiction.
    - subst to. by apply effect_transfer_to_self.
    - by apply effect_transfer. }
  pose proof (admin_effect _ _ _ _ _ _ E) as Hadm.
  destruct op; simpl in E, Hadm.
  - apply mintNodeRights_inv in E.
    destruct E as (? & ? & ? & ? & ? & ? & -> & _). by constructor.
  - apply upgradeNode_inv in E.
    destruct E as (? & ? & ? & ? & ? & ? & ? & ? & -> & _). by constructor.
  - apply updatePerformance_inv in E.
    destruct E as (Hown & Hauth & Hnt & Hup & d & -> & Hd).
    apply effect_performance; try assumption.
    pose proof (inv_stake st HI tokenId) as Hs.
    destruct Hd as [(_ & -> & _) | (_ & penalty & reason & _ & _ & Hp)]; [by left|].
    destruct Hp as [(? & ? & ->) | (_ & ->)]; [right; lia|by left].
  - apply bridgeToChain_inv in E. destruct E as (? & ? & -> & _). by constructor.
  - eapply Htr; [exact E|by left].
  - apply safeTransferFrom_inv in E. eapply Htr; [exact E|by right].
  - apply approve_inv in E. destruct E as [? ->]. by constructor.
  - pose proof (setApprovalForAll_operator _ _ _ _ _ _ _ E).
    apply setApprovalForAll_inv in E. subst st'. by constructor.
  - destruct Hadm as [? ->]. by constructor.
  - destruct Hadm as [? ->]. by constructor.
  - destruct Hadm as [? ->]. by constructor.
  - destruct Hadm as (? & ? & ->). by constructor.
  - destruct Hadm as [? ->]. by constructor.
Qed.

Ltac unfold_storage :=
  unfold minted, moved, nodeRights_at, _ownerOf, ownerNodes_at, crossChainBridges_at,
    getApproved, isApprovedForAll, set_tokenIdCounter, set_nodeRights,
    set_nodeTypeConfigs, set_ownerNodes, set_crossChainBridges,
    set_lastPerformanceUpdate, set_participationContract, set_dpnTokenContract,
    set_contractOwner, set_owners, set_tokenApprovals, set_operatorApprovals in *;
  cbn [_tokenIdCounter nodeRights nodeTypeConfigs ownerNodes crossChainBridges
       lastPerformanceUpdate participationContract dpnTokenContract contractOwner
       _owners _tokenApprovals _operatorApprovals] in *.

(** The record of a node after a transaction: untouched, or changed in one
    of the three ways of [node_change]. *)
Lemma node_after_step st c op tokenId :
  Inv st -> wf_call c ->
  nodeRights (step c op st) !! tokenId = nodeRights st !! tokenId \/
  exists n', node_change c st tokenId op n' /\
             nodeRights (step c op st) !! tokenId = Some n'.
Proof.
  intros HI Hc.
  destruct (step_effect st c op HI Hc)
    as [op|t dpn md ? ? ? ? ?|id d ? ? ? ? ? ?|id u p d ? ? ? ? ?| | | | | | | | | |];
    try (left; reflexivity).
  - destruct (decide (_tokenIdCounter st = tokenId)) as [<-|Hne].
    + right. eexists. split; [constructor; auto; apply Hc|].
      unfold_storage. by rewrite lookup_insert_eq.
    + left. unfold_storage. by rewrite lookup_insert_ne.
  - destruct (decide (id = tokenId)) as [->|Hne].
    + right. eexists. split; [by constructor|].
      unfold set_nodeRights; cbn [nodeRights]. by rewrite lookup_insert_eq.
    + left. unfold set_nodeRights; cbn [nodeRights]. by rewrite lookup_insert_ne.
  - destruct (decide (id = tokenId)) as [->|Hne].
    + right. eexists. split; [by constructor|].
      unfold set_nodeRights; cbn [nodeRights]. by rewrite lookup_insert_eq.
    + left. unfold set_nodeRights, set_lastPerformanceUpdate; cbn [nodeRights].
      by rewrite lookup_insert_ne.
Qed.

(** The owner of a token after a transaction: unchanged, set at the mint of
    a fresh id, or moved to a non-zero account by a caller the previous
    owner authorised. *)
Lemma owner_after_step st c op tokenId :
  Inv st -> wf_call c ->
  _ownerOf (step c op st) tokenId = _ownerOf st tokenId \/
  (_ownerOf st tokenId = 0 /\ tokenId = _tokenIdCounter st /\
   _tokenIdCounter (step c op st) = _tokenIdCounter st + 1 /\
   _ownerOf (step c op st) tokenId = msg_sender c) \/
  (_ownerOf st tokenId <> 0 /\ _ownerOf (step c op st) tokenId <> 0 /\
   _isAuthorized st (_ownerOf st tokenId) (msg_sender c) tokenId = true /\
   (op = TransferFrom (_ownerOf st tokenId) (_ownerOf (step c op st) tokenId) tokenId \/
    op = SafeTransferFrom (_ownerOf st tokenId) (_ownerOf (step c op st) tokenId)
           tokenId)).
Proof.
  intros HI Hc.
  destruct (step_effect st c op HI Hc)
    as [op|t dpn md ? ? ? ? Hfresh| | | |op id Hop Hown Hauth
       |op to id Hop Hown Hto Hne Hauth| | | | | | |];
    try (left; reflexivity).
  - destruct (decide (_tokenIdCounter st = tokenId)) as [<-|Hne'].
    + right; left. split; [exact Hfresh|]. split; [reflexivity|].
      split; [reflexivity|]. unfold_storage. by rewrite lookup_insert_eq.
    + left. unfold_storage. by rewrite lookup_insert_ne.
  - left. rewrite _ownerOf_set_owners. case_decide; [by subst|reflexivity].
  - destruct (decide (id = tokenId)) as [->|Hne'].
    + right; right.
      assert (Hnew : _ownerOf (moved st (_ownerOf st tokenId) to tokenId) tokenId = to).
      { unfold_storage. by rewrite lookup_insert_eq. }
      rewrite Hnew. auto.
    + left. unfold_storage. by rewrite lookup_insert_ne.
Qed.

Lemma Register_initial deployer : Register (initial deployer).
Proof.
  split; intros; unfold_storage; unfold initial in *; cbn in *;
    rewrite ?lookup_empty in *; cbn in *.
  - split; [congruence|lia].
  - unfold MAX_UINT256. lia.
  - auto.
  - congruence.
  - unfold is_uint256, MAX_UINT256. lia.
Qed.

Lemma evaluate_active score : 9000 <= score -> _evaluateNodeStatus score = ACTIVE.
Proof.
  intros H. unfold _evaluateNodeStatus.
  destruct (Z.leb_spec 9000 score); [reflexivity|lia].
Qed.

Lemma active_score score : _evaluateNodeStatus score = ACTIVE -> 9000 <= score.
Proof.
  unfold _evaluateNodeStatus.
  destruct (Z.leb_spec 9000 score); [auto|].
  destruct (5000 <=? score); [discriminate|].
  destruct (2000 <=? score); discriminate.
Qed.

(** The boost of an upgrade is between 0 and 100 points. *)
Lemma boost_range staked value :
  0 <= staked -> 0 <= value -> staked + value <> 0 ->
  0 <= value * 100 / (staked + value) <= 100.
Proof.
  intros Hs Hv Hne. split.
  - apply Z.div_pos; lia.
  - apply Z.div_le_upper_bound; lia.
Qed.

Lemma nodeRights_at_set st tokenId n t :
  nodeRights_at (set_nodeRights tokenId n st) t
  = if decide (tokenId = t) then n else nodeRights_at st t.
Proof.
  case_decide; [subst; apply nodeRights_at_set_same|by apply nodeRights_at_set_other].
Qed.

Lemma nodeRights_at_minted st c ty dpn md t :
  nodeRights_at (minted st c ty dpn md) t
  = if decide (_tokenIdCounter st = t)
    then mkNodeRights ty (msg_value c) dpn (block_timestamp c) (block_timestamp c)
           ACTIVE 0 PERFORMANCE_DECIMALS md false
    else nodeRights_at st t.
Proof. unfold_storage. rewrite lookup_insert. by case_decide. Qed.

Lemma _ownerOf_minted st c ty dpn md t :
  _ownerOf (minted st c ty dpn md) t
  = if decide (_tokenIdCounter st = t) then msg_sender c else _ownerOf st t.
Proof. unfold_storage. rewrite lookup_insert. by case_decide. Qed.

Lemma _ownerOf_moved st from to tokenId t :
  _ownerOf (moved st from to tokenId) t
  = if decide (tokenId = t) then to else _ownerOf st t.
Proof. unfold_storage. rewrite lookup_insert. by case_decide. Qed.

Lemma nodeRights_at_moved st from to tokenId t :
  nodeRights_at (moved st from to tokenId) t = nodeRights_at st t.
Proof. reflexivity. Qed.

Lemma _min_range a b : _min a b <= b /\ _min a b <= a /\ (_min a b = a \/ _min a b = b).
Proof. rewrite _min_is_min. lia. Qed.

Lemma Register_step st c op :
  Inv st -> Register st -> wf_call c -> wf_op op -> Register (step c op st).
Proof.
  intros HI [Hm Hcnt Hb Hs Hu] Hc Hop.
  split.
  - intros t. pose proof (Hm t) as Hmt.
    destruct (step_effect st c op HI Hc)
      as [op|ty dpn md ? ? ? ? Hfresh| | | |op id Hop' Hown Hauth
         |op to id Hop' Hown Hto Hne Hauth| | | | | | |];
      try exact Hmt.
    + rewrite _ownerOf_minted. change (_tokenIdCounter (minted _ _ _ _ _))
        with (_tokenIdCounter st + 1). case_decide; subst.
      * split; [lia|intros _; apply Hc].
      * rewrite Hmt. lia.
    + rewrite _ownerOf_set_owners. case_decide; subst; exact Hmt.
    + rewrite _ownerOf_moved. case_decide; subst; [|exact Hmt].
      split; [intros _; apply Hmt, Hown|auto].
  - destruct (step_effect st c op HI Hc); try exact Hcnt.
    unfold_storage. lia.
  - intros t Ht.
    destruct (step_effect st c op HI Hc)
      as [op|ty dpn md ? ? ? ? Hfresh|id d Hown ? ? ? ? ?|id u p d Hown ? ? ? ?
         |id ch Hown ?|op id Hop' Hown Hauth
         |op to id Hop' Hown Hto Hne Hauth| | | | | | |];
      try (apply Hb; exact Ht).
    + rewrite _ownerOf_minted in Ht.
      case_decide; subst; [destruct Hc; contradiction|].
      unfold_storage. rewrite lookup_insert_ne by done. apply Hb. exact Ht.
    + unfold_storage.
      destruct (decide (id = t)) as [->|Hne]; [contradiction|].
      rewrite lookup_insert_ne by done. apply Hb. exact Ht.
    + unfold_storage.
      destruct (decide (id = t)) as [->|Hne]; [contradiction|].
      rewrite !lookup_insert_ne by done. apply Hb. exact Ht.
    + unfold_storage.
      destruct (decide (id = t)) as [->|Hne]; [contradiction|].
      rewrite !lookup_insert_ne by done. apply Hb. exact Ht.
    + rewrite _ownerOf_set_owners in Ht. case_decide; subst; [contradiction|].
      apply Hb. exact Ht.
    + rewrite _ownerOf_moved in Ht.
      case_decide; subst; [contradiction|]. apply Hb. exact Ht.
  - intros t Ht. pose proof (Hs t) as Hst. pose proof (Hu t) as (He & _).
    destruct (step_effect st c op HI Hc)
      as [op|ty dpn md ? ? ? ? Hfresh|id d Hown ? Hact ? ? Hnz|id u p d Hown ? ? ? ?
         |id ch Hown ?|op id Hop' Hown Hauth
         |op to id Hop' Hown Hto Hne Hauth| | | | | | |];
      try (apply Hst; exact Ht).
    + rewrite _ownerOf_minted in Ht. rewrite nodeRights_at_minted.
      case_decide; [reflexivity|by apply Hst].
    + rewrite nodeRights_at_set. case_decide; [subst t|by apply Hst]. simpl.
      rewrite Hact in *. symmetry. apply evaluate_active.
      assert (9000 <= performanceScore (nodeRights_at st id))
        by (apply active_score; symmetry; by apply Hst).
      pose proof (boost_range (stakedETH (nodeRights_at st id)) (msg_value c)
                    (proj1 He) (proj1 (proj2 Hc)) Hnz).
      rewrite _min_is_min. lia.
    + change (_ownerOf (set_nodeRights _ _ _) t) with (_ownerOf st t) in Ht.
      rewrite nodeRights_at_set. case_decide; [reflexivity|].
      rewrite nodeRights_at_set_lpu. by apply Hst.
    + rewrite _ownerOf_set_owners in Ht. apply Hst. case_decide; by subst.
    + rewrite _ownerOf_moved in Ht. apply Hst. case_decide; by subst.
  - intros t. pose proof (Hu t) as (He & Hd & Hup & Hsc).
    destruct (step_effect st c op HI Hc)
      as [op|ty dpn md ? ? ? ? Hfresh|id d Hown ? Hact ? ? Hnz|id u p d Hown ? ? ? Hd'
         | | | | | | | | | |];
      try (by apply Hu).
    + rewrite nodeRights_at_minted. case_decide; [|by apply Hu]. simpl.
      destruct Hc as (_ & Hv). simpl in Hop.
      split; [exact Hv|]. split; [exact Hop|].
      unfold is_uint256, PERFORMANCE_DECIMALS, MAX_UINT256. lia.
    + rewrite nodeRights_at_set. case_decide; [subst t|by apply Hu]. simpl.
      destruct Hc as (_ & Hv). destruct Hop as (_ & Hdpn).
      unfold is_uint256 in *.
      pose proof (boost_range (stakedETH (nodeRights_at st id)) (msg_value c)
                    (proj1 He) (proj1 Hv) Hnz).
      rewrite _min_is_min. unfold MAX_UINT256 in *. repeat split; lia.
    + rewrite nodeRights_at_set. case_decide; [subst t|].
      * simpl. destruct Hop as (_ & Hut & Hp). unfold is_uint256 in *.
        repeat split; try lia.
      * rewrite nodeRights_at_set_lpu. by apply Hu.
Qed.

Lemma reachable_Register st : reachable st -> Register st.
Proof.
  induction 1 as [d Hd|st c op Hr IH Hc Hop]; [apply Register_initial|].
  apply Register_step; auto. by apply reachable_Inv.
Qed.

Ltac wf_call_tac := split; [discriminate|split; vm_compute; discriminate].
Ltac wf_op_tac := first [exact I|repeat split; vm_compute; discriminate].

Lemma st_subgraph_reachable : reachable st_subgraph.
Proof.
  unfold st_subgraph. cbv zeta.
  repeat (apply reachable_step; [|wf_call_tac|wf_op_tac]).
  apply reachable_initial. discriminate.
Qed.

Lemma st_minimum_raised_reachable : reachable st_minimum_raised.
Proof.
  apply reachable_step; [apply st_minted_reachable|wf_call_tac|wf_op_tac].
Qed.

Lemma st_renounced_reachable : reachable st_renounced.
Proof.
  apply reachable_step; [apply st_minted_reachable|wf_call_tac|wf_op_tac].
Qed.

(** X9: in every reachable state the minted token ids are exactly the ids
    0 .. counter - 1 (ids are handed out in order and no token is ever
    burnt), and nothing is stored for an id that is not minted: its node
    record is the zero record and it has no bridge destination. *)
Theorem minted_ids_are_the_ids_below_the_counter (st : State) (tokenId : Z) :
  reachable st ->
  (_ownerOf st tokenId <> 0 <-> 0 <= tokenId < _tokenIdCounter st) /\
  (_ownerOf st tokenId = 0 ->
   nodeRights_at st tokenId = NodeRights_zero /\
   crossChainBridges_at st tokenId = EmptyString).
Proof.
  intros Hr. destruct (reachable_Register st Hr) as [Hm _ Hb _ _].
  split; [apply Hm|]. intros Hz. destruct (Hb _ Hz) as (Hn & Hc & _).
  unfold nodeRights_at, crossChainBridges_at. by rewrite Hn, Hc.
Qed.

Lemma minted_ids_are_the_ids_below_the_counter_witness :
  (_ownerOf st_subgraph 5 <> 0 <-> 0 <= 5 < _tokenIdCounter st_subgraph) /\
  (_ownerOf st_subgraph 5 = 0 ->
   nodeRights_at st_subgraph 5 = NodeRights_zero /\
   crossChainBridges_at st_subgraph 5 = EmptyString).
Proof.
  exact (minted_ids_are_the_ids_below_the_counter st_subgraph 5 st_subgraph_reachable).
Defined.

(** X10: in every reachable state the status stored for a minted node is
    the status its stored performance score evaluates to; no sequence of
    mints, upgrades, reports and transfers lets the two drift apart. *)
Theorem stored_status_is_the_status_of_the_stored_score (st : State) (tokenId : Z) :
  reachable st ->
  _ownerOf st tokenId <> 0 ->
  status (nodeRights_at st tokenId)
  = _evaluateNodeStatus (performanceScore (nodeRights_at st tokenId)).
Proof.
  intros Hr. destruct (reachable_Register st Hr) as [_ _ _ Hs _]. apply Hs.
Qed.

Lemma stored_status_is_the_status_of_the_stored_score_witness :
  status (nodeRights_at st_subgraph 2)
  = _evaluateNodeStatus (performanceScore (nodeRights_at st_subgraph 2)).
Proof.
  apply stored_status_is_the_status_of_the_stored_score.
  - apply st_subgraph_reachable.
  - vm_compute. discriminate.
Defined.

(** X11: in every reachable state the two stakes, the uptime and the score
    stored for a node are uint256 values: the checked arithmetic of the
    contract never lets a stored number leave the range. *)
Theorem stored_numbers_are_uint256 (st : State) (tokenId : Z) :
  reachable st ->
  is_uint256 (stakedETH (nodeRights_at st tokenId)) /\
  is_uint256 (stakedDPN (nodeRights_at st tokenId)) /\
  is_uint256 (totalUptime (nodeRights_at st tokenId)) /\
  is_uint256 (performanceScore (nodeRights_at st tokenId)).
Proof.
  intros Hr. destruct (reachable_Register st Hr) as [_ _ _ _ Hu]. apply Hu.
Qed.

Lemma stored_numbers_are_uint256_witness :
  is_uint256 (stakedETH (nodeRights_at st_subgraph 1)) /\
  is_uint256 (stakedDPN (nodeRights_at st_subgraph 1)) /\
  is_uint256 (totalUptime (nodeRights_at st_subgraph 1)) /\
  is_uint256 (performanceScore (nodeRights_at st_subgraph 1)).
Proof.
  exact (stored_numbers_are_uint256 st_subgraph 1 st_subgraph_reachable).
Defined.

Lemma keeps_node_step st c op tokenId :
  Inv st -> wf_call c -> wf_op op -> _ownerOf st tokenId <> 0 ->
  keeps_node st (step c op st) tokenId.
Proof.
  intros HI Hc Hop Hown. unfold keeps_node. split.
  - destruct (owner_after_step st c op tokenId HI Hc)
      as [-> | [(Hz & _) | (_ & Hnz & _)]]; auto.
  - unfold nodeRights_at.
    destruct (node_after_step st c op tokenId HI Hc) as [-> | (n' & Hch & ->)];
      [repeat split; auto; lia|].
    fold (nodeRights_at st tokenId). simpl.
    destruct Hch as [t dpn md _ Hz _| d _ _ _ _ _ _|u p d _ _ _ _ _]; simpl.
    + contradiction.
    + destruct Hc as (_ & Hv & _). repeat split; auto; lia.
    + destruct Hop as (_ & (Hu & _) & _). repeat split; auto; lia.
Qed.

(** X12: the type, the mint time, the last-claim time and the metadata of a
    minted node never change, whatever is called by whomever; the token is
    never burnt; its native stake and its uptime never decrease; and a node
    once upgraded stays marked as upgraded. *)
Theorem node_identity_is_permanent (st st' : State) (tokenId : Z) :
  reachable st -> steps st st' -> _ownerOf st tokenId <> 0 ->
  let n := nodeRights_at st tokenId in
  let n' := nodeRights_at st' tokenId in
  _ownerOf st' tokenId <> 0 /\
  nodeType n' = nodeType n /\ mintedAt n' = mintedAt n /\
  lastRewardClaim n' = lastRewardClaim n /\ metadata n' = metadata n /\
  stakedETH n <= stakedETH n' /\ totalUptime n <= totalUptime n' /\
  (isUpgraded n = true -> isUpgraded n' = true).
Proof.
  intros Hr Hs Hown. apply reachable_Inv in Hr.
  change (keeps_node st st' tokenId).
  induction Hs as [st|st st' c op Hs IH Hc Hop].
  - unfold keeps_node. repeat split; auto; lia.
  - specialize (IH Hr Hown).
    assert (HI' : Inv st') by (eapply steps_Inv; eauto).
    pose proof (keeps_node_step st' c op tokenId HI' Hc Hop (proj1 IH)) as Hk.
    unfold keeps_node in *.
    destruct IH as (_ & E1 & E2 & E3 & E4 & ? & ? & ?).
    destruct Hk as (? & F1 & F2 & F3 & F4 & ? & ? & ?).
    repeat split; auto; try congruence; lia.
Qed.

Lemma steps_from_st_minted_to_st_transferred : steps st_minted st_transferred.
Proof.
  apply steps_next; [apply steps_refl|wf_call_tac|wf_op_tac].
Qed.

Lemma node_identity_is_permanent_witness :
  _ownerOf st_transferred 0 <> 0 /\
  nodeType (nodeRights_at st_transferred 0) = nodeType (nodeRights_at st_minted 0) /\
  mintedAt (nodeRights_at st_transferred 0) = mintedAt (nodeRights_at st_minted 0).
Proof.
  destruct (node_identity_is_permanent st_minted st_transferred 0)
    as (H1 & H2 & H3 & _).
  - apply st_minted_reachable.
  - apply steps_from_st_minted_to_st_transferred.
  - vm_compute. discriminate.
  - auto.
Defined.

(** X13: a token that has an owner keeps having one, and a transaction
    changes the owner only if its caller is the owner, the account approved
    for the token, or an operator of the owner. *)
Theorem token_moves_only_with_authority (st : State) (c : Call) (op : Op)
    (tokenId : Z) :
  reachable st -> wf_call c -> _ownerOf st tokenId <> 0 ->
  _ownerOf (step c op st) tokenId <> 0 /\
  (_ownerOf (step c op st) tokenId <> _ownerOf st tokenId ->
   msg_sender c = _ownerOf st tokenId \/
   msg_sender c = getApproved st tokenId \/
   isApprovedForAll st (_ownerOf st tokenId) (msg_sender c) = true).
Proof.
  intros Hr Hc Hown. apply reachable_Inv in Hr.
  destruct (owner_after_step st c op tokenId Hr Hc)
    as [-> | [(Hz & _) | (_ & Hnz & Hauth & _)]]; [split; [auto|congruence]|contradiction|].
  split; [exact Hnz|]. intros _.
  unfold _isAuthorized in Hauth.
  apply andb_true_iff in Hauth as [_ Hauth].
  apply orb_true_iff in Hauth as [Hauth|Hauth].
  - apply orb_true_iff in Hauth as [Hauth|Hauth]; [left|right; right; exact Hauth].
    apply Z.eqb_eq in Hauth. congruence.
  - right; left. apply Z.eqb_eq in Hauth. congruence.
Qed.

Lemma token_moves_only_with_authority_witness :
  _ownerOf (step addr2_plain (TransferFrom 2001 2002 0) st_minted) 0 <> 0 /\
  _ownerOf (step addr2_plain (TransferFrom 2001 2002 0) st_minted) 0
  = _ownerOf st_minted 0.
Proof.
  destruct (token_moves_only_with_authority st_minted addr2_plain
              (TransferFrom 2001 2002 0) 0) as [H1 H2].
  - apply st_minted_reachable.
  - wf_call_tac.
  - vm_compute. discriminate.
  - split; [exact H1|]. vm_compute. reflexivity.
Defined.

(** X14: a caller who is neither the owner of a minted node, nor the
    administrator, nor the participation contract cannot change the node's
    record or its bridge destination, whatever it calls. *)
Theorem outsider_cannot_change_a_node (st : State) (c : Call) (op : Op)
    (tokenId : Z) :
  reachable st -> wf_call c -> _ownerOf st tokenId <> 0 ->
  msg_sender c <> _ownerOf st tokenId ->
  msg_sender c <> contractOwner st ->
  msg_sender c <> participationContract st ->
  nodeRights_at (step c op st) tokenId = nodeRights_at st tokenId /\
  crossChainBridges_at (step c op st) tokenId = crossChainBridges_at st tokenId.
Proof.
  intros Hr Hc Hown Hno Hna Hnp. apply reachable_Inv in Hr. split.
  - unfold nodeRights_at.
    destruct (node_after_step st c op tokenId Hr Hc) as [-> | (n' & Hch & _)];
      [reflexivity|].
    destruct Hch as [t dpn md _ Hz _| d _ Ho _ _ _ _|u p d _ [Ha|Ha] _ _ _];
      congruence.
  - destruct (step_effect st c op Hr Hc)
      as [| | | |id ch _ Ho| | | | | | | | |]; try reflexivity.
    unfold crossChainBridges_at, set_crossChainBridges; simpl.
    destruct (decide (id = tokenId)) as [->|Hne]; [congruence|].
    by rewrite lookup_insert_ne.
Qed.

Lemma outsider_cannot_change_a_node_witness :
  nodeRights_at (step addr2 (UpgradeNode 0 (500 * 10 ^ 18)) st_minted) 0
  = nodeRights_at st_minted 0.
Proof.
  destruct (outsider_cannot_change_a_node st_minted addr2
              (UpgradeNode 0 (500 * 10 ^ 18)) 0) as [H _].
  - apply st_minted_reachable.
  - wf_call_tac.
  - vm_compute. discriminate.
  - vm_compute. discriminate.
  - vm_compute. discriminate.
  - vm_compute. discriminate.
  - exact H.
Defined.

Lemma admin_fields_step st c op :
  Inv st -> wf_call c -> msg_sender c <> contractOwner st ->
  admin_fields (step c op st) = admin_fields st.
Proof.
  intros HI Hc Hna.
  destruct (step_effect st c op HI Hc); try reflexivity; congruence.
Qed.

(** X15: the node-type configurations, the participation and token contract
    addresses and the administrator change only in a transaction sent by
    the administrator. *)
Theorem configuration_changes_only_for_the_administrator (st : State) (c : Call)
    (op : Op) :
  reachable st -> wf_call c -> msg_sender c <> contractOwner st ->
  nodeTypeConfigs (step c op st) = nodeTypeConfigs st /\
  participationContract (step c op st) = participationContract st /\
  dpnTokenContract (step c op st) = dpnTokenContract st /\
  contractOwner (step c op st) = contractOwner st.
Proof.
  intros Hr Hc Hna. apply reachable_Inv in Hr.
  pose proof (admin_fields_step st c op Hr Hc Hna) as H.
  split; [exact (f_equal (fun x => fst (fst (fst x))) H)|].
  split; [exact (f_equal (fun x => snd (fst (fst x))) H)|].
  split; [exact (f_equal (fun x => snd (fst x)) H)|exact (f_equal snd H)].
Qed.

Lemma configuration_changes_only_for_the_administrator_witness :
  nodeTypeConfigs (step addr1_plain (UpdateNodeTypeConfig STORAGE 0 0 0 false) st_minted)
  = nodeTypeConfigs st_minted.
Proof.
  destruct (configuration_changes_only_for_the_administrator st_minted addr1_plain
              (UpdateNodeTypeConfig STORAGE 0 0 0 false)) as [H _].
  - apply st_minted_reachable.
  - wf_call_tac.
  - vm_compute. discriminate.
  - exact H.
Defined.

Lemma frozen_steps st st' tokenId :
  Inv st -> contractOwner st = 0 -> participationContract st = 0 ->
  steps st st' -> _ownerOf st tokenId <> 0 ->
  Inv st' /\ contractOwner st' = 0 /\ participationContract st' = 0 /\
  _ownerOf st' tokenId <> 0 /\
  status (nodeRights_at st' tokenId) = status (nodeRights_at st tokenId).
Proof.
  intros HI Ho Hp Hs Hown.
  induction Hs as [st|st st' c op Hs IH Hc Hop]; [auto|].
  destruct (IH HI Ho Hp Hown) as (HI' & Ho' & Hp' & Hown' & Hst').
  assert (Hna : msg_sender c <> contractOwner st') by (rewrite Ho'; apply Hc).
  pose proof (admin_fields_step st' c op HI' Hc Hna) as Hf.
  split; [by apply Inv_step|].
  split; [rewrite <- Ho'; exact (f_equal snd Hf)|].
  split; [rewrite <- Hp'; exact (f_equal (fun x => snd (fst (fst x))) Hf)|].
  split; [apply (keeps_node_step st' c op tokenId HI' Hc Hop Hown')|].
  rewrite <- Hst'. unfold nodeRights_at.
  destruct (node_after_step st' c op tokenId HI' Hc) as [-> | (n' & Hch & ->)];
    [reflexivity|].
  fold (nodeRights_at st' tokenId). simpl.
  destruct Hch as [t dpn md _ Hz _| d _ _ _ _ _ _|u p d _ [Ha|Ha] _ _ _]; simpl.
  - contradiction.
  - reflexivity.
  - congruence.
  - rewrite Hp' in Ha. destruct Hc as [Hs0 _]. contradiction.
Qed.

(** X16: once the administrator has renounced, the contract has no
    administrator ever again and its configuration is frozen; if no
    participation contract was set before, no performance report is ever
    accepted again, and the status of every minted node stays what it is
    (its score can still be raised by its owner's upgrades). *)
Theorem renounced_contract_is_frozen (st st' : State) (c : Call)
    (tokenId uptimeSeconds score : Z) (log : list Event) :
  reachable st -> contractOwner st = 0 -> steps st st' -> wf_call c ->
  contractOwner st' = 0 /\
  nodeTypeConfigs st' = nodeTypeConfigs st /\
  participationContract st' = participationContract st /\
  dpnTokenContract st' = dpnTokenContract st /\
  (participationContract st = 0 ->
   (exists reason,
      updatePerformance c tokenId uptimeSeconds score st' log = Err (Revert reason)) /\
   (_ownerOf st tokenId <> 0 ->
    status (nodeRights_at st' tokenId) = status (nodeRights_at st tokenId))).
Proof.
  intros Hr Hz Hs Hc. apply reachable_Inv in Hr.
  assert (Hf : admin_fields st' = admin_fields st).
  { clear tokenId. induction Hs as [st|st st' c' op Hs IH Hc' Hop]; [reflexivity|].
    specialize (IH Hr Hz). rewrite <- IH.
    apply admin_fields_step; [eapply steps_Inv; eauto|exact Hc'|].
    apply (f_equal snd) in IH. simpl in IH. rewrite IH, Hz. apply Hc'. }
  assert (Ho : contractOwner st' = contractOwner st) by exact (f_equal snd Hf).
  assert (Hd : dpnTokenContract st' = dpnTokenContract st)
    by exact (f_equal (fun x => snd (fst x)) Hf).
  assert (Hp : participationContract st' = participationContract st)
    by exact (f_equal (fun x => snd (fst (fst x))) Hf).
  assert (Hcfg : nodeTypeConfigs st' = nodeTypeConfigs st)
    by exact (f_equal (fun x => fst (fst (fst x))) Hf).
  split; [congruence|]. do 3 (split; [assumption|]).
  intros Hpz. split.
  - destruct (Z.eq_dec (_ownerOf st' tokenId) 0) as [Hown|Hown].
    + exists "Node does not exist"%string. by apply updatePerformance_unminted.
    + exists "Unauthorized"%string. apply updatePerformance_unauthorized; [exact Hown| |].
      * rewrite Ho, Hz. apply Hc.
      * rewrite Hp, Hpz. apply Hc.
  - intros Hown. by apply (frozen_steps st st' tokenId Hr Hz Hpz Hs Hown).
Qed.

(** After the renouncement the owner upgrades the node: the score moves,
    the status does not, and the former administrator's report is
    rejected. *)
Lemma renounced_contract_is_frozen_witness :
  contractOwner (step addr1_upgrade (UpgradeNode 0 0) st_renounced) = 0 /\
  (exists reason,
     updatePerformance deployer 0 60 9500
       (step addr1_upgrade (UpgradeNode 0 0) st_renounced) []
     = Err (Revert reason)) /\
  status (nodeRights_at (step addr1_upgrade (UpgradeNode 0 0) st_renounced) 0)
  = status (nodeRights_at st_renounced 0) /\
  performanceScore (nodeRights_at (step addr1_upgrade (UpgradeNode 0 0) st_renounced) 0)
  = 10033.
Proof.
  destruct (renounced_contract_is_frozen st_renounced
              (step addr1_upgrade (UpgradeNode 0 0) st_renounced)
              deployer 0 60 9500 []) as (H1 & _ & _ & _ & H2).
  - apply st_renounced_reachable.
  - vm_compute. reflexivity.
  - apply steps_next; [apply steps_refl|wf_call_tac|wf_op_tac].
  - wf_call_tac.
  - destruct H2 as [H2 H3]; [vm_compute; reflexivity|].
    split; [exact H1|]. split; [exact H2|]. split.
    + apply H3. vm_compute. discriminate.
    + vm_compute. reflexivity.
Defined.

Lemma st_analytics_reachable : reachable st_analytics.
Proof.
  unfold st_analytics.
  repeat (apply reachable_step; [|wf_call_tac|wf_op_tac]).
  apply reachable_initial. discriminate.
Qed.

(** *** getNodeTypeStats *)

Lemma active_count_range l : 0 <= active_count l <= Z.of_nat (length l).
Proof.
  unfold active_count. induction l as [|x l IH]; simpl; [lia|].
  destruct (NodeStatus_eqb (status x) ACTIVE); lia.
Qed.

Lemma of_type_cons st t tokenId tokens :
  of_type st t (tokenId :: tokens)
  = if NodeType_eqb (nodeType (nodeRights_at st tokenId)) t
    then nodeRights_at st tokenId :: of_type st t tokens
    else of_type st t tokens.
Proof.
  unfold of_type. simpl. rewrite filter_cons.
  destruct (NodeType_eqb (nodeType (nodeRights_at st tokenId)) t) eqn:E.
  - by rewrite decide_True.
  - by rewrite decide_False.
Qed.

Lemma of_type_nonneg st t tokens :
  (forall id, 0 <= stakedETH (nodeRights_at st id) /\
              0 <= performanceScore (nodeRights_at st id)) ->
  0 <= sum_of stakedETH (of_type st t tokens) /\
  0 <= sum_of performanceScore (of_type st t tokens).
Proof.
  intros Hpos. induction tokens as [|id tokens IH]; [simpl; lia|].
  rewrite of_type_cons.
  destruct (NodeType_eqb (nodeType (nodeRights_at st id)) t); [|exact IH].
  simpl. specialize (Hpos id). lia.
Qed.

Lemma fits_true acc :
  fits acc = true <->
  totalNodes acc <= MAX_UINT256 /\ totalStakedETH acc <= MAX_UINT256 /\
  performanceSum acc <= MAX_UINT256.
Proof.
  unfold fits. rewrite !andb_true_iff, !Z.leb_le. tauto.
Qed.

Lemma fits_false acc :
  fits acc = false <->
  MAX_UINT256 < totalNodes acc \/ MAX_UINT256 < totalStakedETH acc \/
  MAX_UINT256 < performanceSum acc.
Proof.
  unfold fits. rewrite !andb_false_iff, !Z.leb_gt. tauto.
Qed.

Lemma acc_plus_cons acc n rest :
  acc_plus acc (n :: rest)
  = acc_plus (mkTypeStats (totalNodes acc + 1) (totalStakedETH acc + stakedETH n)
                (performanceSum acc + performanceScore n)
                (activeNodes acc
                 + (if NodeStatus_eqb (status n) ACTIVE then 1 else 0))) rest.
Proof.
  unfold acc_plus, active_count, sum_of.
  cbn [length fold_right foldr totalNodes totalStakedETH performanceSum activeNodes].
  rewrite Nat2Z.inj_succ. f_equal; lia.
Qed.

(** The loop returns the accumulated totals when they fit a uint256 and
    panics otherwise; it touches neither the storage nor the log. *)
Lemma stats_loop_spec st t log tokens : forall acc,
  (forall id, 0 <= stakedETH (nodeRights_at st id) /\
              0 <= performanceScore (nodeRights_at st id)) ->
  0 <= activeNodes acc <= totalNodes acc ->
  fits acc = true ->
  stats_loop tokens t acc st log
  = if fits (acc_plus acc (of_type st t tokens))
    then Ok (acc_plus acc (of_type st t tokens)) st log
    else Err (Panic 17).
Proof.
  induction tokens as [|tokenId tokens IH]; intros acc Hpos Hact Hfit.
  - simpl. unfold of_type, acc_plus, active_count; simpl. rewrite !Z.add_0_r.
    destruct acc; simpl in *. rewrite Hfit. reflexivity.
  - simpl. unfold read_node. munfold. rewrite of_type_cons.
    destruct (NodeType_eqb (nodeType (nodeRights_at st tokenId)) t) eqn:Ety.
    + set (n := nodeRights_at st tokenId).
      set (rest := of_type st t tokens).
      destruct (of_type_nonneg st t tokens Hpos) as [He Hp].
      fold rest in He, Hp.
      assert (Hl := Nat2Z.is_nonneg (length rest)).
      assert (Ha := active_count_range rest).
      destruct (Hpos tokenId) as [Hen Hpn]. fold n in Hen, Hpn.
      apply fits_true in Hfit. destruct Hfit as (Hf1 & Hf2 & Hf3).
      assert (Hover : MAX_UINT256 < totalNodes acc + 1 \/
                        MAX_UINT256 < totalStakedETH acc + stakedETH n \/
                        MAX_UINT256 < performanceSum acc + performanceScore n ->
                fits (acc_plus acc (n :: rest)) = false).
      { intros Hcase. apply fits_false. unfold acc_plus, sum_of in *.
        cbn [length fold_right foldr totalNodes totalStakedETH performanceSum].
        rewrite Nat2Z.inj_succ. lia. }
      destruct (Z.leb_spec (totalNodes acc + 1) MAX_UINT256) as [H1|H1];
        [|rewrite Hover by lia; reflexivity].
      destruct (Z.leb_spec (totalStakedETH acc + stakedETH n) MAX_UINT256) as [H2|H2];
        [|rewrite Hover by lia; reflexivity].
      destruct (Z.leb_spec (performanceSum acc + performanceScore n) MAX_UINT256)
        as [H3|H3]; [|rewrite Hover by lia; reflexivity].
      rewrite acc_plus_cons.
      destruct (NodeStatus_eqb (status n) ACTIVE).
      * destruct (Z.leb_spec (activeNodes acc + 1) MAX_UINT256) as [H4|H4]; [|lia].
        apply IH; [exact Hpos|simpl; lia|apply fits_true; simpl; lia].
      * rewrite Z.add_0_r.
        apply IH; [exact Hpos|simpl; lia|apply fits_true; simpl; lia].
    + munfold. apply IH; assumption.
Qed.

(** X17: [getNodeTypeStats] over the enumerated tokens of a reachable
    state returns the number of nodes of the type, the sum of their native
    stakes, the truncated mean of their scores (zero when there is no such
    node: no division by zero) and the number of ACTIVE ones, which is at
    most the number of nodes; it changes nothing.  It panics exactly when
    the stake sum or the score sum does not fit a uint256. *)
Theorem getNodeTypeStats_totals (st : State) (tokens : list Z) (t : NodeType)
    (log : list Event) :
  reachable st ->
  let nodes := of_type st t tokens in
  let n := Z.of_nat (length nodes) in
  n <= MAX_UINT256 ->
  (sum_of stakedETH nodes <= MAX_UINT256 ->
   sum_of performanceScore nodes <= MAX_UINT256 ->
   getNodeTypeStats tokens t st log
   = Ok (n, sum_of stakedETH nodes,
         if 0 <? n then sum_of performanceScore nodes / n else 0,
         active_count nodes) st log /\
   0 <= active_count nodes <= n) /\
  (MAX_UINT256 < sum_of stakedETH nodes \/
   MAX_UINT256 < sum_of performanceScore nodes ->
   getNodeTypeStats tokens t st log = Err (Panic 17)).
Proof.
  intros Hr nodes n Hn.
  assert (Hpos : forall id, 0 <= stakedETH (nodeRights_at st id) /\
                            0 <= performanceScore (nodeRights_at st id)).
  { intros id. destruct (reachable_Register st Hr) as [_ _ _ _ Hu].
    destruct (Hu id) as ((? & _) & _ & _ & (? & _)). auto. }
  assert (Hloop := stats_loop_spec st t log tokens (mkTypeStats 0 0 0 0) Hpos).
  assert (Hacc : acc_plus (mkTypeStats 0 0 0 0) nodes
                 = mkTypeStats n (sum_of stakedETH nodes)
                     (sum_of performanceScore nodes) (active_count nodes)).
  { unfold acc_plus. simpl. reflexivity. }
  fold nodes in Hloop. rewrite Hacc in Hloop.
  unfold getNodeTypeStats. munfold.
  rewrite Hloop by (simpl; try reflexivity; lia). clear Hloop.
  split.
  - intros He Hp.
    rewrite (proj2 (fits_true _)) by (simpl; auto).
    cbn [totalNodes totalStakedETH performanceSum activeNodes].
    split; [|apply active_count_range].
    destruct (Z.ltb_spec 0 n) as [Hlt|Hge]; munfold; [|reflexivity].
    destruct (Z.eqb_spec n 0); [lia|reflexivity].
  - intros Hover.
    rewrite (proj2 (fits_false _)) by (simpl; tauto). reflexivity.
Qed.

Lemma getNodeTypeStats_totals_witness :
  getNodeTypeStats [0; 1; 2] STORAGE st_analytics []
  = Ok (1, 12 * 10 ^ 17, 10000, 1) st_analytics [].
Proof.
  destruct (getNodeTypeStats_totals st_analytics [0; 1; 2] STORAGE [])
    as [Hok _].
  - apply st_analytics_reachable.
  - vm_compute. discriminate.
  - destruct Hok as [Hok _].
    + vm_compute. discriminate.
    + vm_compute. discriminate.
    + rewrite Hok. vm_compute. reflexivity.
Defined.

(** *** mintNodeRights *)

Lemma mintNodeRights_cases st c t dpn md log :
  let cfg := config_at (nodeTypeConfigs st) t in
  msg_sender c <> 0 ->
  _ownerOf st (_tokenIdCounter st) = 0 ->
  mintNodeRights c t dpn md st log
  = if negb (isActive cfg) then Err (Revert "Node type not active")
    else if msg_value c <? minETHStake cfg then Err (Revert "Insufficient ETH stake")
    else if dpn <? minDPNStake cfg then Err (Revert "Insufficient DPN stake")
    else if MAX_UINT256 <? _tokenIdCounter st + 1 then Err (Panic 17)
    else if negb (onReceived_ok c) then Err (CustomError "ERC721InvalidReceiver")
    else Ok tt (minted st c t dpn md)
           (log ++ [Transfer 0 (msg_sender c) (_tokenIdCounter st);
                    NodeRightsMinted (_tokenIdCounter st) (msg_sender c) t
                      (msg_value c) dpn]).
Proof.
  intros cfg Hs Hfresh.
  unfold mintNodeRights, _safeMint, _update, ERC721_update. munfold. fold cfg.
  destruct (isActive cfg); simpl; [|reflexivity].
  rewrite (Z.ltb_antisym (minETHStake cfg) (msg_value c)).
  destruct (minETHStake cfg <=? msg_value c); simpl; [|reflexivity].
  rewrite (Z.ltb_antisym (minDPNStake cfg) dpn).
  destruct (minDPNStake cfg <=? dpn); simpl; [|reflexivity].
  rewrite (Z.ltb_antisym (_tokenIdCounter st + 1) MAX_UINT256).
  destruct (_tokenIdCounter st + 1 <=? MAX_UINT256); simpl; [|reflexivity].
  munfold.
  apply Z.eqb_neq in Hs. rewrite Hs.
  change (0 =? 0) with true. cbv iota.
  match goal with
  | |- context [_ownerOf ?s (_tokenIdCounter st)] =>
      change (_ownerOf s (_tokenIdCounter st)) with (_ownerOf st (_tokenIdCounter st))
  end.
  rewrite Hfresh. simpl.
  destruct (onReceived_ok c); simpl; [|reflexivity].
  rewrite <- app_assoc. reflexivity.
Qed.

(** X18: on a reachable state a mint goes through exactly when the type is
    active, the attached value and the token stake reach the type's
    minimums, the counter can still be incremented and the caller accepts
    the token; it then creates the node with the next id, owned by the
    caller, with score 10000 and status ACTIVE.  Neither the type's
    [maxCapacity] nor the number of nodes already minted is consulted. *)
Theorem mintNodeRights_succeeds_exactly_when (st : State) (c : Call) (t : NodeType)
    (dpn : Z) (md : string) (log : list Event) :
  reachable st -> wf_call c ->
  let cfg := config_at (nodeTypeConfigs st) t in
  let conditions :=
    isActive cfg = true /\ minETHStake cfg <= msg_value c /\ minDPNStake cfg <= dpn /\
    _tokenIdCounter st + 1 <= MAX_UINT256 /\ onReceived_ok c = true in
  (conditions ->
   mintNodeRights c t dpn md st log
   = Ok tt (minted st c t dpn md)
       (log ++ [Transfer 0 (msg_sender c) (_tokenIdCounter st);
                NodeRightsMinted (_tokenIdCounter st) (msg_sender c) t
                  (msg_value c) dpn]) /\
   _ownerOf (minted st c t dpn md) (_tokenIdCounter st) = msg_sender c /\
   nodeRights_at (minted st c t dpn md) (_tokenIdCounter st)
   = mkNodeRights t (msg_value c) dpn (block_timestamp c) (block_timestamp c)
       ACTIVE 0 10000 md false) /\
  (~ conditions -> exists f, mintNodeRights c t dpn md st log = Err f).
Proof.
  intros Hr Hc cfg conditions.
  assert (Hfresh : _ownerOf st (_tokenIdCounter st) = 0).
  { destruct (reachable_Register st Hr) as [Hm _ _ _ _].
    destruct (Z.eq_dec (_ownerOf st (_tokenIdCounter st)) 0) as [|Hne]; [assumption|].
    apply Hm in Hne. lia. }
  rewrite (mintNodeRights_cases st c t dpn md log (proj1 Hc) Hfresh). fold cfg.
  split.
  - intros (Ha & He & Hd & Hn & Hrecv).
    rewrite Ha, Hrecv. simpl.
    destruct (Z.ltb_spec (msg_value c) (minETHStake cfg)); [lia|].
    destruct (Z.ltb_spec dpn (minDPNStake cfg)); [lia|].
    destruct (Z.ltb_spec MAX_UINT256 (_tokenIdCounter st + 1)); [lia|].
    split; [reflexivity|].
    rewrite _ownerOf_minted, nodeRights_at_minted, !decide_True by reflexivity.
    split; reflexivity.
  - intros Hnot.
    destruct (isActive cfg) eqn:Ha; simpl; [|eexists; reflexivity].
    destruct (Z.ltb_spec (msg_value c) (minETHStake cfg)); [eexists; reflexivity|].
    destruct (Z.ltb_spec dpn (minDPNStake cfg)); [eexists; reflexivity|].
    destruct (Z.ltb_spec MAX_UINT256 (_tokenIdCounter st + 1)); [eexists; reflexivity|].
    destruct (onReceived_ok c) eqn:Hrecv; simpl; [|eexists; reflexivity].
    exfalso. apply Hnot. unfold conditions. repeat split; auto; lia.
Qed.

Lemma mintNodeRights_succeeds_exactly_when_witness :
  let c := mkCall 2004 (10 ^ 18) 1700000900 true in
  _ownerOf (minted st_subgraph c STORAGE (1000 * 10 ^ 18) "late")
    (_tokenIdCounter st_subgraph) = msg_sender c.
Proof.
  destruct (mintNodeRights_succeeds_exactly_when st_subgraph
              (mkCall 2004 (10 ^ 18) 1700000900 true) STORAGE (1000 * 10 ^ 18)
              "late" []) as [Hok _].
  - apply st_subgraph_reachable.
  - wf_call_tac.
  - destruct Hok as (_ & Hown & _).
    + repeat split; vm_compute; congruence.
    + exact Hown.
Defined.

(** *** getNodeDetails *)

(** X19: [getNodeDetails] on a minted ACTIVE node fails with the underflow
    panic when the node's native stake is below the current minimum of its
    type, and with the division panic when that minimum is zero.  Both
    states are reached when the administrator changes the minimum after
    the mint. *)
Theorem getNodeDetails_panics_off_the_minimum (st : State) (c : Call) (tokenId : Z)
    (log : list Event) :
  let n := nodeRights_at st tokenId in
  let cfg := config_at (nodeTypeConfigs st) (nodeType n) in
  let dt := block_timestamp c - lastRewardClaim n in
  _ownerOf st tokenId <> 0 ->
  status n = ACTIVE ->
  mintedAt n <= block_timestamp c ->
  lastRewardClaim n <= block_timestamp c ->
  baseRewardRate cfg * dt * performanceScore n <= MAX_UINT256 ->
  baseRewardRate cfg * dt <= MAX_UINT256 ->
  (stakedETH n < minETHStake cfg ->
   getNodeDetails c tokenId st log = Err (Panic 17)) /\
  (minETHStake cfg = 0 -> 0 <= stakedETH n -> stakedETH n * 1000 <= MAX_UINT256 ->
   getNodeDetails c tokenId st log = Err (Panic 18)).
Proof.
  intros n cfg dt Hown Hact Hm Hl Hp Hb.
  rewrite getNodeDetails_estimate by assumption.
  unfold _calculatePendingRewards, read_node. munfold.
  change (nodeRights_at st tokenId) with n.
  change (config_at (nodeTypeConfigs st) (nodeType n)) with cfg.
  rewrite Hact. simpl.
  apply Z.leb_le in Hl. rewrite Hl. munfold. fold dt.
  apply Z.leb_le in Hb. rewrite Hb. munfold.
  apply Z.leb_le in Hp. rewrite Hp. munfold.
  change (PERFORMANCE_DECIMALS =? 0) with false. munfold.
  split.
  - intros Hlow. apply Z.leb_gt in Hlow. rewrite Hlow. reflexivity.
  - intros Hz H0 H1. rewrite Hz.
    apply Z.leb_le in H0. rewrite H0. munfold.
    rewrite Z.sub_0_r. apply Z.leb_le in H1. rewrite H1. munfold. reflexivity.
Qed.

Lemma getNodeDetails_panics_off_the_minimum_witness :
  getNodeDetails day_later 0 st_minimum_raised [] = Err (Panic 17) /\
  getNodeDetails day_later 0 st_minimum_zero [] = Err (Panic 18).
Proof.
  split.
  - destruct (getNodeDetails_panics_off_the_minimum st_minimum_raised day_later 0 [])
      as [H _].
    1-6: vm_compute; congruence.
    apply H. vm_compute. reflexivity.
  - destruct (getNodeDetails_panics_off_the_minimum st_minimum_zero day_later 0 [])
      as [_ H].
    1-6: vm_compute; congruence.
    apply H; vm_compute; congruence.
Defined.

(** X20: the details of a node read in the block of its mint.  When the
    minimum native stake of its type is positive and
    (value - minimum) * 1000 + 10000 fits a uint256, the read returns the
    record as minted, the configuration of the type, zero time staked and a
    zero reward estimate.  When the administrator has set that minimum to
    zero, the read aborts with the division panic instead. *)
Theorem details_of_a_fresh_node (st : State) (c c' : Call) (t : NodeType)
    (dpn : Z) (md : string) (log log' : list Event) (st' : State) :
  reachable st -> wf_call c ->
  mintNodeRights c t dpn md st log = Ok tt st' log' ->
  block_timestamp c' = block_timestamp c ->
  let cfg := config_at (nodeTypeConfigs st) t in
  (0 < minETHStake cfg ->
   (msg_value c - minETHStake cfg) * 1000 + 10000 <= MAX_UINT256 ->
   getNodeDetails c' (_tokenIdCounter st) st' log'
   = Ok (mkNodeRights t (msg_value c) dpn (block_timestamp c) (block_timestamp c)
           ACTIVE 0 10000 md false, cfg, 0, 0) st' log') /\
  (minETHStake cfg = 0 ->
   msg_value c * 1000 <= MAX_UINT256 ->
   getNodeDetails c' (_tokenIdCounter st) st' log' = Err (Panic 18)).
Proof.
  intros Hr Hc Hmint Hts cfg.
  apply mintNodeRights_inv in Hmint.
  destruct Hmint as (_ & He & _ & _ & Hs & _ & -> & _). fold cfg in He.
  assert (Hn : nodeRights_at (minted st c t dpn md) (_tokenIdCounter st)
               = mkNodeRights t (msg_value c) dpn (block_timestamp c)
                   (block_timestamp c) ACTIVE 0 PERFORMANCE_DECIMALS md false).
  { rewrite nodeRights_at_minted. by rewrite decide_True. }
  assert (Ho : _ownerOf (minted st c t dpn md) (_tokenIdCounter st) <> 0).
  { rewrite _ownerOf_minted. by rewrite decide_True. }
  rewrite getNodeDetails_estimate; [|exact Ho|rewrite Hn; simpl; lia].
  unfold _calculatePendingRewards, read_node. munfold.
  rewrite Hn. cbn [nodeType status lastRewardClaim performanceScore stakedETH mintedAt].
  change (nodeTypeConfigs (minted st c t dpn md)) with (nodeTypeConfigs st).
  fold cfg. simpl (negb _). cbv iota.
  rewrite Hts, Z.sub_diag, Z.leb_refl. munfold.
  rewrite Z.mul_0_r. change (0 <=? MAX_UINT256) with true. munfold.
  change (0 * PERFORMANCE_DECIMALS <=? MAX_UINT256) with true. munfold.
  change (PERFORMANCE_DECIMALS =? 0) with false. munfold.
  assert (He' := He). apply Z.leb_le in He'. rewrite He'. munfold.
  split.
  - intros Hmin Hfit.
    set (excess := msg_value c - minETHStake cfg) in *.
    assert (H0 : 0 <= excess) by (unfold excess; lia).
    assert (H1 : (excess * 1000 <=? MAX_UINT256) = true) by (apply Z.leb_le; lia).
    rewrite H1. munfold.
    assert (H2 : (minETHStake cfg =? 0) = false) by (apply Z.eqb_neq; lia).
    rewrite H2. munfold.
    assert (H3 : excess * 1000 / minETHStake cfg <= excess * 1000)
      by (apply Z.div_le_upper_bound; nia).
    assert (H4 : (PERFORMANCE_DECIMALS + excess * 1000 / minETHStake cfg
                  <=? MAX_UINT256) = true)
      by (apply Z.leb_le; unfold PERFORMANCE_DECIMALS; lia).
    rewrite H4. munfold.
    change (0 * PERFORMANCE_DECIMALS / PERFORMANCE_DECIMALS) with 0.
    rewrite Z.mul_0_l. change (0 <=? MAX_UINT256) with true. munfold.
    reflexivity.
  - intros Hz Hfit. rewrite Hz, Z.sub_0_r.
    apply Z.leb_le in Hfit. rewrite Hfit. munfold. reflexivity.
Qed.

(** The first mint of the test suite, and a mint after the administrator
    has set the STORAGE minimum to zero. *)
Lemma details_of_a_fresh_node_witness :
  (exists st' log',
     mintNodeRights addr1 STORAGE (1000 * 10 ^ 18) "metadata" (initial 1000) []
     = Ok tt st' log' /\
     getNodeDetails (mkCall 2001 0 1700000000 true) 0 st' log'
     = Ok (mkNodeRights STORAGE (10 ^ 18) (1000 * 10 ^ 18) 1700000000 1700000000
             ACTIVE 0 10000 "metadata" false,
           config_at _setupNodeTypes STORAGE, 0, 0) st' log') /\
  (exists st' log',
     mintNodeRights addr2 STORAGE 0 "free" st_minimum_zero [] = Ok tt st' log' /\
     getNodeDetails (mkCall 2002 0 1700000050 true)
       (_tokenIdCounter st_minimum_zero) st' log' = Err (Panic 18)).
Proof.
  split.
  - destruct (mintNodeRights addr1 STORAGE (1000 * 10 ^ 18) "metadata" (initial 1000) [])
      as [[] st' log'|f] eqn:E.
    + exists st', log'. split; [reflexivity|].
      destruct (details_of_a_fresh_node (initial 1000) addr1
                  (mkCall 2001 0 1700000000 true) STORAGE (1000 * 10 ^ 18)
                  "metadata" [] log' st') as [H _].
      * apply reachable_initial. discriminate.
      * wf_call_tac.
      * exact E.
      * reflexivity.
      * apply H; [vm_compute; reflexivity|vm_compute; discriminate].
    + exfalso. revert E. vm_compute. discriminate.
  - destruct (mintNodeRights addr2 STORAGE 0 "free" st_minimum_zero [])
      as [[] st' log'|f] eqn:E.
    + exists st', log'. split; [reflexivity|].
      destruct (details_of_a_fresh_node st_minimum_zero addr2
                  (mkCall 2002 0 1700000050 true) STORAGE 0 "free" [] log' st')
        as [_ H].
      * apply reachable_step; [apply st_minted_reachable|wf_call_tac|wf_op_tac].
      * wf_call_tac.
      * exact E.
      * reflexivity.
      * apply H; [vm_compute; reflexivity|vm_compute; discriminate].
    + exfalso. revert E. vm_compute. discriminate.
Defined.

(** *** Events of a performance report *)

(** X21: the events of a performance report account for what it did.  A
    report that leaves the status as it was logs [PerformanceUpdated] only
    and leaves the token stake alone; a report that changes the status logs
    [NodeSlashed] first, whose penalty is exactly the amount taken from the
    token stake.  The stake never grows: a report that brings a slashed
    node back to ACTIVE logs [NodeSlashed] with penalty zero and gives
    nothing back. *)
Theorem report_events_account_for_the_deduction (st : State) (c : Call)
    (tokenId uptimeSeconds score : Z) (log : list Event) (st' : State)
    (log' : list Event) :
  let n := nodeRights_at st tokenId in
  let n' := nodeRights_at st' tokenId in
  let new := _evaluateNodeStatus score in
  0 <= stakedDPN n ->
  updatePerformance c tokenId uptimeSeconds score st log = Ok tt st' log' ->
  stakedDPN n' <= stakedDPN n /\
  (new = status n ->
   stakedDPN n' = stakedDPN n /\
   log' = log ++ [PerformanceUpdated tokenId score uptimeSeconds new]) /\
  (new <> status n ->
   exists reason,
     log' = log ++ [NodeSlashed tokenId new (stakedDPN n - stakedDPN n') reason;
                    PerformanceUpdated tokenId score uptimeSeconds new]) /\
  (new = ACTIVE -> stakedDPN n' = stakedDPN n).
Proof.
  intros n n' new Hpos H.
  apply updatePerformance_inv in H.
  destruct H as (_ & _ & _ & _ & d & Hst & Hcases). fold n new in Hst, Hcases.
  assert (Hd : stakedDPN n' = d).
  { unfold n'. rewrite Hst, nodeRights_at_set_same. reflexivity. }
  rewrite Hd.
  destruct Hcases as [(Hsame & -> & ->) | (Hdiff & penalty & reason & -> & Hpen & Hded)].
  - split; [lia|]. split; [auto|]. split; [contradiction|auto].
  - assert (Hp : penalty = stakedDPN n - d /\ d <= stakedDPN n /\
                 (new = ACTIVE -> d = stakedDPN n)).
    { destruct new.
      - subst penalty. destruct Hded as [(? & _)|(_ & ->)]; [lia|]. lia.
      - destruct Hpen as [_ ->].
        assert (0 <= stakedDPN n * 5 / 100) by (apply Z.div_pos; lia).
        destruct Hded as [(_ & _ & ->)|(? & ->)]; split; try lia;
          split; try lia; discriminate.
      - destruct Hpen as [_ ->].
        assert (0 <= stakedDPN n * 15 / 100) by (apply Z.div_pos; lia).
        destruct Hded as [(_ & _ & ->)|(? & ->)]; split; try lia;
          split; try lia; discriminate.
      - subst penalty.
        destruct Hded as [(_ & _ & ->)|(? & ->)]; split; try lia;
          split; try lia; discriminate. }
    destruct Hp as (-> & Hle & Hact).
    split; [exact Hle|]. split; [contradiction|]. split; [|exact Hact].
    intros _. exists reason. reflexivity.
Qed.

Lemma report_events_account_for_the_deduction_witness :
  exists st' log',
    updatePerformance deployer 0 3600 9500 st_slashed [] = Ok tt st' log' /\
    stakedDPN (nodeRights_at st' 0) = stakedDPN (nodeRights_at st_slashed 0) /\
    stakedDPN (nodeRights_at st_slashed 0) = 950 * 10 ^ 18 /\
    status (nodeRights_at st_slashed 0) = SLASHED_MINOR.
Proof.
  destruct (updatePerformance deployer 0 3600 9500 st_slashed []) as [[] st' log'|f] eqn:E.
  - exists st', log'. split; [reflexivity|].
    destruct (report_events_account_for_the_deduction st_slashed deployer 0 3600 9500
                [] st' log') as (_ & _ & _ & H).
    + vm_compute. discriminate.
    + exact E.
    + split; [apply H; vm_compute; reflexivity|].
      split; vm_compute; reflexivity.
  - exfalso. revert E. vm_compute. discriminate.
Defined.

(** *** Transfers *)

Lemma bridgeToChain_not_owner st c tokenId chain log :
  _ownerOf st tokenId <> 0 ->
  _ownerOf st tokenId <> msg_sender c ->
  bridgeToChain c tokenId chain st log = Err (Revert "Not node owner").
Proof.
  intros H Hs. unfold bridgeToChain. munfold.
  apply Z.eqb_neq in H, Hs. rewrite H. simpl. rewrite Hs. reflexivity.
Qed.

Lemma bridgeToChain_owner st c tokenId chain log :
  _ownerOf st tokenId <> 0 ->
  _ownerOf st tokenId = msg_sender c ->
  bridgeToChain c tokenId chain st log
  = Ok tt (set_crossChainBridges tokenId chain st)
      (log ++ [CrossChainBridge tokenId chain (msg_sender c)]).
Proof.
  intros H Hs. unfold bridgeToChain. munfold.
  apply Z.eqb_neq in H. apply Z.eqb_eq in Hs. rewrite H. simpl. rewrite Hs. reflexivity.
Qed.

(** X22: the rights of a node follow its token.  After a transfer to
    another account the node's record is as before (stakes, score and
    status travel with the token), the approval for the token is cleared,
    the previous owner can no longer upgrade or bridge the node, and the
    new owner can bridge it. *)
Theorem rights_follow_the_token (st : State) (c : Call) (from to tokenId : Z)
    (log : list Event) (st' : State) (log' : list Event) :
  reachable st -> wf_call c ->
  transferFrom c from to tokenId st log = Ok tt st' log' ->
  from <> to ->
  _ownerOf st' tokenId = to /\
  nodeRights_at st' tokenId = nodeRights_at st tokenId /\
  getApproved st' tokenId = 0 /\
  (forall c1 additionalDPN chain log1,
     msg_sender c1 = from ->
     upgradeNode c1 tokenId additionalDPN st' log1 = Err (Revert "Not node owner") /\
     bridgeToChain c1 tokenId chain st' log1 = Err (Revert "Not node owner")) /\
  (forall c2 chain log2,
     msg_sender c2 = to ->
     bridgeToChain c2 tokenId chain st' log2
     = Ok tt (set_crossChainBridges tokenId chain st')
         (log2 ++ [CrossChainBridge tokenId chain to])).
Proof.
  intros Hr Hc Ht Hne. apply reachable_Inv in Hr.
  apply transferFrom_inv in Ht; [|apply Hc].
  destruct Ht as (Hto & Ho & Hauth & _ & Hcases).
  assert (Hfrom : from <> 0).
  { intros Hz. rewrite Hz in Hauth, Ho.
    pose proof (unminted_not_authorized st (msg_sender c) tokenId Hr (proj1 Hc) Ho).
    congruence. }
  destruct Hcases as [(? & _) | [(_ & ? & _) | (_ & _ & ->)]]; [contradiction..|].
  assert (Hnew : _ownerOf (moved st from to tokenId) tokenId = to).
  { rewrite _ownerOf_moved. by rewrite decide_True. }
  split; [exact Hnew|]. split; [reflexivity|]. split.
  - unfold_storage. by rewrite lookup_insert_eq.
  - split.
    + intros c1 d chain log1 Hs. split.
      * apply upgradeNode_not_owner; rewrite Hnew; congruence.
      * apply bridgeToChain_not_owner; rewrite Hnew; congruence.
    + intros c2 chain log2 Hs.
      rewrite bridgeToChain_owner; rewrite ?Hnew; congruence.
Qed.

Lemma rights_follow_the_token_witness :
  exists st' log',
    transferFrom addr1_plain 2001 2002 0 st_minted [] = Ok tt st' log' /\
    _ownerOf st' 0 = 2002 /\
    upgradeNode addr1_upgrade 0 (500 * 10 ^ 18) st' []
    = Err (Revert "Not node owner").
Proof.
  destruct (transferFrom addr1_plain 2001 2002 0 st_minted []) as [[] st' log'|f] eqn:E.
  - exists st', log'. split; [reflexivity|].
    destruct (rights_follow_the_token st_minted addr1_plain 2001 2002 0 [] st' log')
      as (H1 & _ & _ & H2 & _).
    + apply st_minted_reachable.
    + wf_call_tac.
    + exact E.
    + discriminate.
    + split; [exact H1|].
      apply (H2 addr1_upgrade (500 * 10 ^ 18) EmptyString []). reflexivity.
  - exfalso. revert E. vm_compute. discriminate.
Defined.

(** *** Upgrades *)

(** X23: on a reachable state an upgrade that goes through raises the
    score by at most 100 points and never above 12000, leaves it at 9000 or
    more, and brings a score above 12000 (which only a report can store)
    down to 12000. *)
Theorem upgrade_boost_is_bounded (st : State) (c : Call) (tokenId additionalDPN : Z)
    (log : list Event) (st' : State) (log' : list Event) :
  reachable st -> wf_call c ->
  upgradeNode c tokenId additionalDPN st log = Ok tt st' log' ->
  let s := performanceScore (nodeRights_at st tokenId) in
  let s' := performanceScore (nodeRights_at st' tokenId) in
  9000 <= s' <= 12000 /\ s' <= s + 100 /\
  (s <= 12000 -> s <= s') /\ (12000 < s -> s' = 12000).
Proof.
  intros Hr Hc H s s'.
  destruct (reachable_Register st Hr) as [_ _ _ Hs Hu].
  apply upgradeNode_inv in H.
  destruct H as (Hown & _ & Hact & _ & _ & _ & Hnz & _ & Hst & _).
  assert (Hs' : s' = _min (s + msg_value c * 100
                               / (stakedETH (nodeRights_at st tokenId) + msg_value c))
                      12000).
  { unfold s'. rewrite Hst, nodeRights_at_set_same. reflexivity. }
  rewrite Hs', _min_is_min.
  destruct (Hu tokenId) as ((He & _) & _).
  destruct Hc as (_ & (Hv & _)).
  pose proof (boost_range _ _ He Hv Hnz) as Hb.
  assert (9000 <= s).
  { apply active_score. rewrite <- Hact. symmetry. by apply Hs. }
  lia.
Qed.

Lemma upgrade_boost_is_bounded_witness :
  exists st' log',
    upgradeNode addr1_upgrade 0 (500 * 10 ^ 18) st_minted [] = Ok tt st' log' /\
    performanceScore (nodeRights_at st' 0)
    <= performanceScore (nodeRights_at st_minted 0) + 100.
Proof.
  destruct (upgradeNode addr1_upgrade 0 (500 * 10 ^ 18) st_minted [])
    as [[] st' log'|f] eqn:E.
  - exists st', log'. split; [reflexivity|].
    destruct (upgrade_boost_is_bounded st_minted addr1_upgrade 0 (500 * 10 ^ 18)
                [] st' log') as (_ & H & _).
    + apply st_minted_reachable.
    + wf_call_tac.
    + exact E.
    + exact H.
  - exfalso. revert E. vm_compute. discriminate.
Defined.

(** *** Capacity *)

Lemma maxCapacity_config_set t t' v cs :
  maxCapacity v = maxCapacity (config_at cs t) ->
  maxCapacity (config_at (config_set t v cs) t') = maxCapacity (config_at cs t').
Proof. destruct t, t'; simpl; auto. Qed.

(** X24: the capacity of a node type is never changed after deployment:
    in every reachable state it is the value the constructor set (1000,
    500 and 2000), whatever configuration updates the administrator has
    made. *)
Theorem maxCapacity_is_fixed_at_deployment (st : State) (t : NodeType) :
  reachable st ->
  maxCapacity (config_at (nodeTypeConfigs st) t)
  = maxCapacity (config_at _setupNodeTypes t).
Proof.
  induction 1 as [d Hd|st c op Hr IH Hc Hop]; [reflexivity|].
  rewrite <- IH.
  destruct (step_effect st c op (reachable_Inv st Hr) Hc); try reflexivity.
  unfold set_nodeTypeConfigs; cbn [nodeTypeConfigs].
  apply maxCapacity_config_set. reflexivity.
Qed.

Lemma maxCapacity_is_fixed_at_deployment_witness :
  maxCapacity (config_at (nodeTypeConfigs st_minimum_raised) STORAGE) = 1000.
Proof.
  exact (maxCapacity_is_fixed_at_deployment st_minimum_raised STORAGE
           st_minimum_raised_reachable).
Defined.

(** *** The participation contract *)




End NodeRegisterProofs.
